(** * omcb-bot: the chess client core (Piece, Board, WsClient, ChessClient)

    A shallow embedding of the client library: the move validator of
    [Piece], the sparse store of [Board], the connection manager of
    [WsClient] and the request correlator of [ChessClient].

    Conventions of the embedding.
    - Coordinates, counters, tokens and ids are integers ([Z]); this is the
      data model of the wire format (int fields) and [Math.floor] is the
      identity on them, so the [floor] flags of the source are kept as
      parameters and have no further effect.
    - The key of the board's [Map] is the string [x + "," + y]; that
      encoding of a pair of integers is injective and the key is modelled
      as the pair itself.
    - A piece is a value.  The source updates a piece object in place and
      stores the same object again; with each object held under one key of
      the store, storing the updated value is the same.
    - [null] used as a number is [0] (JavaScript's ToNumber), see [num].
    - Clock readings ([Date.now()]) are integers in milliseconds, given to
      the model as inputs; the delays of timers are left out.
    - Numbers that are not whole are rationals, and the arithmetic on them
      is that of binary64: each operation is rounded to the nearest
      binary64 number, see [binary64].
    - An [async] function returns a promise to its caller: what its body
      throws is the rejection of that promise, see [async].
    - Calls on the outside world (timers, promise callbacks, the socket) are
      recorded in a trace of effects, newest first. *)

From Stdlib Require Import ZArith QArith Qround Qminmax Qpower Lia Lqa.
From stdpp Require Import base option list strings pretty.

Local Open Scope Z_scope.

(** ** Enumerations of the wire schema *)

Inductive PieceTypes : Type :=
  | PIECE_TYPE_PAWN
  | PIECE_TYPE_KNIGHT
  | PIECE_TYPE_BISHOP
  | PIECE_TYPE_ROOK
  | PIECE_TYPE_QUEEN
  | PIECE_TYPE_KING
  | PIECE_TYPE_PROMOTED_PAWN.

Inductive MoveTypes : Type :=
  | MOVE_TYPE_NORMAL
  | MOVE_TYPE_CASTLE
  | MOVE_TYPE_EN_PASSANT.

(** ** Errors *)

Inductive ErrorClass : Type := ClientError | ChessError | TypeError.

Record JsError : Type := mkError {
  err_name : ErrorClass;
  message : string
}.

(** A call either returns or throws. *)
Inductive Result (A : Type) : Type :=
  | Ok (a : A)
  | Throw (e : JsError).
Arguments Ok {A} a.
Arguments Throw {A} e.

(** ToNumber on a value that may be [null]. *)
Definition num (o : option Z) : Z := default 0 o.

(** ** Piece *)

(** The opaque server-defined flags of [PieceDataShared]. *)
Record PieceFlags : Type := mkFlags {
  justDoubleMoved : bool;
  kingKiller : bool;
  kingPawner : bool;
  queenKiller : bool;
  queenPawner : bool;
  adoptedKiller : bool;
  adopted : bool;
  hasCapturedPieceTypeOtherThanOwn : bool
}.

(** [IPieceData], the plain record of the wire format. *)
Record PieceData : Type := mkPieceData {
  d_id : Z;
  d_type : PieceTypes;
  d_isWhite : bool;
  d_flags : PieceFlags;
  d_moveCount : Z;
  d_captureCount : Z
}.

Record Piece : Type := mkPiece {
  x : Z;
  y : Z;
  _type : PieceTypes;
  _color : Z;
  id : Z;
  flags : PieceFlags;
  moveCount : Z;
  captureCount : Z
}.

(** [Number(data.isWhite)] *)
Definition Number_of_bool (b : bool) : Z := if b then 1 else 0.

Definition Piece__move (p : Piece) (x' y' : Z) (floor : bool) : Piece :=
  mkPiece x' y' (_type p) (_color p) (id p) (flags p)
          (moveCount p) (captureCount p).

(** [new Piece(x, y, data)] *)
Definition new_Piece (x0 y0 : Z) (data : PieceData) : Piece :=
  mkPiece x0 y0 (d_type data) (Number_of_bool (d_isWhite data))
          (d_id data) (d_flags data) (d_moveCount data) (d_captureCount data).

Definition Piece_move (p : Piece) (x' y' : Z) (floor : bool) : Piece :=
  let p1 := Piece__move p x' y' floor in
  mkPiece (x p1) (y p1) (_type p1) (_color p1) (id p1) (flags p1)
          (moveCount p1 + 1) (captureCount p1).

Definition Piece_capture (p : Piece) (x' y' : Z) (floor : bool) : Piece :=
  let p1 := Piece__move p x' y' floor in
  mkPiece (x p1) (y p1) (_type p1) (_color p1) (id p1) (flags p1)
          (moveCount p1) (captureCount p1 + 1).

Definition Piece_maxMoveDistance : Z := 25.

(** [Board.distance]: the Chebyshev distance. *)
Definition Board_distance (x1 y1 x2 y2 : Z) (floor : bool) : Z :=
  let dx := x2 - x1 in
  let dy := y2 - y1 in
  Z.max (Z.abs dx) (Z.abs dy).

Definition is_king (t : PieceTypes) : bool :=
  match t with PIECE_TYPE_KING => true | _ => false end.

Definition is_pawn (t : PieceTypes) : bool :=
  match t with PIECE_TYPE_PAWN => true | _ => false end.

(** [dy === direction], where [direction] stays [undefined] (here [None])
    when the colour number is neither 0 nor 1. *)
Definition eq_direction (dy : Z) (k : Z) (direction : option Z) : bool :=
  match direction with
  | Some d => dy =? k * d
  | None => false
  end.

(** The second [switch] of [canMoveTo], on the piece type. *)
Definition Piece_typeRule (p : Piece) (dist dx dy : Z) : bool :=
  match _type p with
  | PIECE_TYPE_PAWN =>
      let firstMove := moveCount p <? 1 in
      let direction :=
        if _color p =? 0 then Some 1
        else if _color p =? 1 then Some (-1)
        else None in
      if dx =? 0 then
        eq_direction dy 1 direction || (firstMove && eq_direction dy 2 direction)
      else if (Z.abs dx =? 1) && eq_direction dy 1 direction then true
      else false
  | PIECE_TYPE_KNIGHT =>
      let d1 := (Z.abs dx =? 2) && (Z.abs dy =? 1) in
      let d2 := (Z.abs dx =? 1) && (Z.abs dy =? 2) in
      d1 || d2
  | PIECE_TYPE_BISHOP => Z.abs dx =? Z.abs dy
  | PIECE_TYPE_ROOK => (dx =? 0) || (dy =? 0)
  | PIECE_TYPE_QUEEN
  | PIECE_TYPE_PROMOTED_PAWN =>
      (dx =? 0) || (dy =? 0) || (Z.abs dx =? Z.abs dy)
  | PIECE_TYPE_KING => dist =? 1
  end.

Definition Piece_canMoveTo (p : Piece) (x' y' : Z) (moveType : MoveTypes) : bool :=
  let x1 := x p in
  let y1 := y p in
  let x2 := x' in
  let y2 := y' in
  let dist := Board_distance x1 y1 x2 y2 false in
  if dist >? Piece_maxMoveDistance then false
  else
    let dx := x2 - x1 in
    let dy := y2 - y1 in
    if (dx =? 0) && (dy =? 0) then false
    else
      match moveType with
      | MOVE_TYPE_NORMAL => Piece_typeRule p dist dx dy
      | MOVE_TYPE_CASTLE =>
          if negb (is_king (_type p)) then false
          else (Z.abs dx =? 2) && (dy =? 0)
      | MOVE_TYPE_EN_PASSANT =>
          if negb (is_pawn (_type p)) then false
          else Piece_typeRule p dist dx dy
      end.

(** *** The documented rule table, written from the specification *)

Definition forward (isWhite : bool) : Z := if isWhite then -1 else 1.

Definition chebyshev (dx dy : Z) : Z := Z.max (Z.abs dx) (Z.abs dy).

Definition rule_of_type (t : PieceTypes) (isWhite : bool) (moves dx dy : Z) : bool :=
  match t with
  | PIECE_TYPE_PAWN =>
      ((dx =? 0) && (dy =? forward isWhite))
      || ((dx =? 0) && (dy =? 2 * forward isWhite) && (moves <? 1))
      || ((Z.abs dx =? 1) && (dy =? forward isWhite))
  | PIECE_TYPE_KNIGHT =>
      ((Z.abs dx =? 2) && (Z.abs dy =? 1)) || ((Z.abs dx =? 1) && (Z.abs dy =? 2))
  | PIECE_TYPE_BISHOP => Z.abs dx =? Z.abs dy
  | PIECE_TYPE_ROOK => (dx =? 0) || (dy =? 0)
  | PIECE_TYPE_QUEEN | PIECE_TYPE_PROMOTED_PAWN =>
      ((dx =? 0) || (dy =? 0)) || (Z.abs dx =? Z.abs dy)
  | PIECE_TYPE_KING => chebyshev dx dy =? 1
  end.

Definition rule_table (t : PieceTypes) (isWhite : bool) (moves dx dy : Z)
    (kind : MoveTypes) : bool :=
  if 25 <? chebyshev dx dy then false
  else if (dx =? 0) && (dy =? 0) then false
  else
    match kind with
    | MOVE_TYPE_CASTLE => is_king t && (Z.abs dx =? 2) && (dy =? 0)
    | MOVE_TYPE_EN_PASSANT => is_pawn t && rule_of_type t isWhite moves dx dy
    | MOVE_TYPE_NORMAL => rule_of_type t isWhite moves dx dy
    end.

(** ** The JavaScript [Map]

    A [Map] keeps its entries in insertion order; [set] on a present key
    replaces the value in place, [delete] removes the entry.  Iteration
    ([values], [entries]) follows the list.  The keys of a [Map] are
    distinct, and [set] and [delete] keep them so (see
    [Map_keys_set_NoDup] and [Map_keys_delete_NoDup]). *)

Section JsMap.
Context {K V : Type} `{EqDecision K}.

Definition JsMap : Type := list (K * V).

Fixpoint Map_get (k : K) (m : JsMap) : option V :=
  match m with
  | [] => None
  | (k', v) :: m' => if decide (k = k') then Some v else Map_get k m'
  end.

Definition Map_has (k : K) (m : JsMap) : bool :=
  match Map_get k m with Some _ => true | None => false end.

Fixpoint Map_set (k : K) (v : V) (m : JsMap) : JsMap :=
  match m with
  | [] => [(k, v)]
  | (k', v') :: m' =>
      if decide (k = k') then (k, v) :: m' else (k', v') :: Map_set k v m'
  end.

Fixpoint Map_delete (k : K) (m : JsMap) : JsMap :=
  match m with
  | [] => []
  | (k', v') :: m' =>
      if decide (k = k') then Map_delete k m' else (k', v') :: Map_delete k m'
  end.

Definition Map_clear (m : JsMap) : JsMap := [].

Definition Map_keys (m : JsMap) : list K := map fst m.

Definition Map_values (m : JsMap) : list V := map snd m.
End JsMap.

Arguments JsMap K V : clear implicits.

(** ** Board *)

Definition Board_boardSize : Z := 8.
Definition Board_boardCount : Z := 1000 * 1000.
(** [boardSize * Math.sqrt(boardCount)] *)
Definition Board_totalSize : Z := Board_boardSize * Z.sqrt Board_boardCount.
Definition Board_minPieceCoords : Z := 0.
Definition Board_maxPieceCoords : Z := Board_totalSize - 1.
Definition Board_minCenterCoords : Z := Board_boardSize / 4.
Definition Board_maxCenterCoords : Z := Board_totalSize - Board_boardSize / 2 + 1.

Record Board : Type := mkBoard {
  viewLength : Z;                  (* [length] *)
  radius : Z;
  _centerX : option Z;
  _centerY : option Z;
  leftX : option Z;
  topY : option Z;
  rightX : option Z;
  bottomY : option Z;
  entries : JsMap (Z * Z) Piece
}.

Definition with_entries (b : Board) (m : JsMap (Z * Z) Piece) : Board :=
  mkBoard (viewLength b) (radius b) (_centerX b) (_centerY b)
          (leftX b) (topY b) (rightX b) (bottomY b) m.

(** The argument of [set]: a [Piece] or a plain data record. *)
Inductive PieceArg : Type :=
  | APiece (p : Piece)
  | AData (d : PieceData).

Definition Board_static_pieceInBounds (x' y' : Z) : bool :=
  (x' >=? Board_minPieceCoords) && (y' >=? Board_minPieceCoords)
  && (x' <=? Board_maxPieceCoords) && (y' <=? Board_maxPieceCoords).

Definition Board__pieceInBounds (b : Board) (x' y' : Z) : bool :=
  (x' >=? num (leftX b)) && (y' >=? num (topY b))
  && (x' <=? num (rightX b)) && (y' <=? num (bottomY b)).

Definition Board_pieceInBounds (b : Board) (x' y' : Z) : bool :=
  Board_static_pieceInBounds x' y' && Board__pieceInBounds b x' y'.

Definition Board__getCoordsKey (x' y' : Z) (floor : bool) : Z * Z := (x', y').

Definition Board_has (b : Board) (x' y' : Z) (validate : bool) : bool :=
  if validate && negb (Board_pieceInBounds b x' y') then false
  else Map_has (Board__getCoordsKey x' y' validate) (entries b).

Definition Board_get (b : Board) (x' y' : Z) (validate : bool) : option Piece :=
  if validate && negb (Board_pieceInBounds b x' y') then None
  else Map_get (Board__getCoordsKey x' y' validate) (entries b).

Definition Board_set (b : Board) (x' y' : Z) (piece : PieceArg) (validate : bool)
    : Board :=
  if validate && negb (Board_pieceInBounds b x' y') then b
  else
    let key := Board__getCoordsKey x' y' validate in
    let piece :=
      match piece with
      | APiece p => p
      | AData d => new_Piece x' y' d
      end in
    with_entries b (Map_set key piece (entries b)).

(** [delete(x, y, validate)] with numbers; the result pairs the returned
    boolean with the board. *)
Definition Board_delete (b : Board) (x' y' : Z) (validate : bool) : bool * Board :=
  if validate && negb (Board_pieceInBounds b x' y') then (false, b)
  else
    let key := Board__getCoordsKey x' y' validate in
    (Map_has key (entries b), with_entries b (Map_delete key (entries b))).

Definition Board_getById (b : Board) (id' : Z) : option Piece :=
  List.find (fun piece => id piece =? id') (Map_values (entries b)).

Definition Board__initCoords (b : Board) : Board :=
  mkBoard (viewLength b) (radius b) None None None None None None (entries b).

(** [_setCoords(x, y)]: an argument that is not a number leaves its axis. *)
Definition Board__setCoords (b : Board) (x' y' : option Z) : Board :=
  let b1 :=
    match x' with
    | Some v =>
        mkBoard (viewLength b) (radius b) (Some v) (_centerY b)
                (Some (v - radius b)) (topY b) (Some (v + radius b)) (bottomY b)
                (entries b)
    | None => b
    end in
  match y' with
  | Some v =>
      mkBoard (viewLength b1) (radius b1) (_centerX b1) (Some v)
              (leftX b1) (Some (v - radius b1)) (rightX b1) (Some (v + radius b1))
              (entries b1)
  | None => b1
  end.

Definition center_out_of_range (v : Z) : bool :=
  (v <? Board_minCenterCoords) || (v >? Board_maxCenterCoords).

Inductive CenterMsg : Type := msg_center | msg_view.

(** [_validateCenterCoords(x, y, msgType)]; [None] is [null]/[undefined]. *)
Definition Board__validateCenterCoords (x' y' : option Z) (msgType : CenterMsg)
    : Result unit :=
  let ex := match x' with
            | Some v => if center_out_of_range v then ["x=" +:+ pretty v] else []
            | None => []
            end in
  let ey := match y' with
            | Some v => if center_out_of_range v then ["y=" +:+ pretty v] else []
            | None => []
            end in
  let errors := ex ++ ey in
  if (Z.of_nat (List.length errors) <? 1) then Ok tt
  else
    let msg :=
      match msgType with
      | msg_center =>
          "Invalid center coord" +:+
            (if Z.of_nat (List.length errors) >? 1 then "s" else "")
      | msg_view => "Can't move view to"
      end in
    Throw (mkError ChessError (msg +:+ ": " +:+ String.concat ", " errors)).

(** [new Board(centerX, centerY, length)] *)
Definition new_Board (centerX centerY : option Z) (length' : option Z)
    : Result Board :=
  match Board__validateCenterCoords centerX centerY msg_center with
  | Throw e => Throw e
  | Ok _ =>
      let len := default 95 length' in
      let b := mkBoard len ((len - 1) / 2) None None None None None None [] in
      Ok (Board__setCoords b centerX centerY)
  end.

(** The setters [centerX = val] and [centerY = val]. *)
Definition Board_set_centerX (b : Board) (val : Z) : Result Board :=
  match Board__validateCenterCoords (Some val) None msg_center with
  | Throw e => Throw e
  | Ok _ => Ok (Board__setCoords b (Some val) None)
  end.

Definition Board_set_centerY (b : Board) (val : Z) : Result Board :=
  match Board__validateCenterCoords None (Some val) msg_center with
  | Throw e => Throw e
  | Ok _ => Ok (Board__setCoords b None (Some val))
  end.

Definition Board_clear (b : Board) : Board :=
  Board__initCoords (with_entries b (Map_clear (entries b))).

Definition Board__validatePieceMove (b : Board) (piece : Piece) (toX toY : Z)
    (type : MoveTypes) : Result unit :=
  if negb (Board_pieceInBounds b (x piece) (y piece)) then
    Throw (mkError ChessError "Can't move piece that's outside of board bounds")
  else if negb (Board_pieceInBounds b toX toY) then
    Throw (mkError ChessError "Can't move piece to outside of board bounds")
  else if negb (Piece_canMoveTo piece toX toY type) then
    Throw (mkError ChessError
             ("Can't move piece to: " +:+ pretty toX +:+ ", " +:+ pretty toY))
  else Ok tt.

(** [movePiece(piece, toX, toY, type, capture, validate)].  A missing piece
    is [None]; without validation the source then fails on [piece.capture]
    with a [TypeError]. *)
Definition Board_movePiece (b : Board) (piece : option Piece) (toX toY : Z)
    (type : MoveTypes) (capture validate : bool) : Result (Piece * Board) :=
  match piece with
  | None =>
      if validate then Throw (mkError ChessError "No piece provided")
      else Throw (mkError TypeError "Cannot read properties of null")
  | Some p =>
      let checked :=
        if validate then Board__validatePieceMove b p toX toY type else Ok tt in
      match checked with
      | Throw e => Throw e
      | Ok _ =>
          let b1 := snd (Board_delete b (x p) (y p) validate) in
          let p' :=
            if capture || Board_has b1 toX toY validate
            then Piece_capture p toX toY validate
            else Piece_move p toX toY validate in
          Ok (p', Board_set b1 toX toY (APiece p') validate)
      end
  end.

(** [capturePiece(piece, validate)]; deleting at [undefined] coordinates
    removes nothing. *)
Definition Board_capturePiece (b : Board) (piece : option Piece) (validate : bool)
    : Result (option Piece * Board) :=
  match piece with
  | None =>
      if validate then Throw (mkError ChessError "No piece provided")
      else Ok (None, b)
  | Some p => Ok (Some p, snd (Board_delete b (x p) (y p) validate))
  end.

(** [_performAction]: the piece found by the getter, then the action; the
    [validate] flag is the last argument of the action, [true] when absent. *)
Definition Board__performAction {A : Type} (piece : option Piece) (validate : bool)
    (action : option Piece -> Result A) : Result A :=
  match piece with
  | None =>
      if validate then Throw (mkError ChessError "No piece at starting position")
      else action piece
  | Some _ => action piece
  end.




Definition Board_captureWithId (b : Board) (id' : Z) (validate : bool)
    : Result (option Piece * Board) :=
  Board__performAction (Board_getById b id') validate
    (fun piece => Board_capturePiece b piece validate).

(** ** The client: WsClient and ChessClient *)

Inductive ClientMessage : Type :=
  | CM_move (pieceId fromX fromY toX toY : Z) (moveType : MoveTypes) (moveToken : Z)
  | CM_subscribe (centerX centerY : Z)
  | CM_ping.

Inductive TimerKind : Type :=
  | T_reconnect
  | T_ping
  | T_pong
  | T_moveTimeout (moveToken : Z)
  | T_viewTimeout.

Inductive Effect : Type :=
  | E_setTimeout (handle : nat) (kind : TimerKind)
  | E_clearTimeout (handle : option nat)
  | E_resolve (promise : nat)
  | E_reject (promise : nat) (e : JsError)
  | E_sendRequest (msg : ClientMessage)
  | E_wsSend (msg : ClientMessage)
  | E_newWebSocket
  | E_wsClose.

(** An entry of [_pendingPieceMoves]; [pm_promise] stands for the pair
    [resolve]/[reject] of the promise returned to the caller. *)
Record PendingMove : Type := mkPendingMove {
  pm_promise : nat;
  pm_piece : Piece;
  pm_fromX : Z;
  pm_fromY : Z;
  pm_toX : Z;
  pm_toY : Z;
  pm_timeout : nat
}.

Record PendingView : Type := mkPendingView {
  pv_promise : nat;
  pv_timeout : nat
}.

Record State : Type := mkState {
  maxConnections : option Z;  (* static; [None] is [Infinity] *)
  _connections : Z;  (* static counter of the class *)
  maxRetryCount : Z;
  reconnectDelay : Z;
  _ws : bool;  (* a socket object is held *)
  connected : bool;
  destroyed : bool;
  autoReconnect : bool;
  _reconnecting : bool;
  _reconnectAttempts : Z;
  _reconnectTimeout : option nat;
  _pingInterval : option nat;
  _pongTimeout : option nat;
  board : Board;
  totalMoves : Z;
  totalCaptures : Z;
  _moveToken : Z;
  _pendingPieceMoves : JsMap Z PendingMove;
  _pendingViewMove : option PendingView;
  nextHandle : nat;  (* next timer handle of the runtime *)
  nextPromise : nat;  (* next promise of the runtime *)
  trace : list Effect  (* calls on the outside world, newest first *)
}.

(** The assignments to the fields of the state. *)
Definition set__connections (s : State) (v : Z) : State :=
  mkState (maxConnections s) v (maxRetryCount s) (reconnectDelay s) (_ws s)
    (connected s) (destroyed s) (autoReconnect s) (_reconnecting s)
    (_reconnectAttempts s) (_reconnectTimeout s) (_pingInterval s)
    (_pongTimeout s) (board s) (totalMoves s) (totalCaptures s)
    (_moveToken s) (_pendingPieceMoves s) (_pendingViewMove s)
    (nextHandle s) (nextPromise s) (trace s).

Definition set__ws (s : State) (v : bool) : State :=
  mkState (maxConnections s) (_connections s) (maxRetryCount s)
    (reconnectDelay s) v (connected s) (destroyed s) (autoReconnect s)
    (_reconnecting s) (_reconnectAttempts s) (_reconnectTimeout s)
    (_pingInterval s) (_pongTimeout s) (board s) (totalMoves s)
    (totalCaptures s) (_moveToken s) (_pendingPieceMoves s)
    (_pendingViewMove s) (nextHandle s) (nextPromise s) (trace s).

Definition set_connected (s : State) (v : bool) : State :=
  mkState (maxConnections s) (_connections s) (maxRetryCount s)
    (reconnectDelay s) (_ws s) v (destroyed s) (autoReconnect s)
    (_reconnecting s) (_reconnectAttempts s) (_reconnectTimeout s)
    (_pingInterval s) (_pongTimeout s) (board s) (totalMoves s)
    (totalCaptures s) (_moveToken s) (_pendingPieceMoves s)
    (_pendingViewMove s) (nextHandle s) (nextPromise s) (trace s).

Definition set_destroyed (s : State) (v : bool) : State :=
  mkState (maxConnections s) (_connections s) (maxRetryCount s)
    (reconnectDelay s) (_ws s) (connected s) v (autoReconnect s)
    (_reconnecting s) (_reconnectAttempts s) (_reconnectTimeout s)
    (_pingInterval s) (_pongTimeout s) (board s) (totalMoves s)
    (totalCaptures s) (_moveToken s) (_pendingPieceMoves s)
    (_pendingViewMove s) (nextHandle s) (nextPromise s) (trace s).

Definition set_autoReconnect (s : State) (v : bool) : State :=
  mkState (maxConnections s) (_connections s) (maxRetryCount s)
    (reconnectDelay s) (_ws s) (connected s) (destroyed s) v
    (_reconnecting s) (_reconnectAttempts s) (_reconnectTimeout s)
    (_pingInterval s) (_pongTimeout s) (board s) (totalMoves s)
    (totalCaptures s) (_moveToken s) (_pendingPieceMoves s)
    (_pendingViewMove s) (nextHandle s) (nextPromise s) (trace s).

Definition set__reconnecting (s : State) (v : bool) : State :=
  mkState (maxConnections s) (_connections s) (maxRetryCount s)
    (reconnectDelay s) (_ws s) (connected s) (destroyed s) (autoReconnect s)
    v (_reconnectAttempts s) (_reconnectTimeout s) (_pingInterval s)
    (_pongTimeout s) (board s) (totalMoves s) (totalCaptures s)
    (_moveToken s) (_pendingPieceMoves s) (_pendingViewMove s)
    (nextHandle s) (nextPromise s) (trace s).

Definition set__reconnectAttempts (s : State) (v : Z) : State :=
  mkState (maxConnections s) (_connections s) (maxRetryCount s)
    (reconnectDelay s) (_ws s) (connected s) (destroyed s) (autoReconnect s)
    (_reconnecting s) v (_reconnectTimeout s) (_pingInterval s)
    (_pongTimeout s) (board s) (totalMoves s) (totalCaptures s)
    (_moveToken s) (_pendingPieceMoves s) (_pendingViewMove s)
    (nextHandle s) (nextPromise s) (trace s).

Definition set__reconnectTimeout (s : State) (v : option nat) : State :=
  mkState (maxConnections s) (_connections s) (maxRetryCount s)
    (reconnectDelay s) (_ws s) (connected s) (destroyed s) (autoReconnect s)
    (_reconnecting s) (_reconnectAttempts s) v (_pingInterval s)
    (_pongTimeout s) (board s) (totalMoves s) (totalCaptures s)
    (_moveToken s) (_pendingPieceMoves s) (_pendingViewMove s)
    (nextHandle s) (nextPromise s) (trace s).

Definition set__pingInterval (s : State) (v : option nat) : State :=
  mkState (maxConnections s) (_connections s) (maxRetryCount s)
    (reconnectDelay s) (_ws s) (connected s) (destroyed s) (autoReconnect s)
    (_reconnecting s) (_reconnectAttempts s) (_reconnectTimeout s) v
    (_pongTimeout s) (board s) (totalMoves s) (totalCaptures s)
    (_moveToken s) (_pendingPieceMoves s) (_pendingViewMove s)
    (nextHandle s) (nextPromise s) (trace s).

Definition set__pongTimeout (s : State) (v : option nat) : State :=
  mkState (maxConnections s) (_connections s) (maxRetryCount s)
    (reconnectDelay s) (_ws s) (connected s) (destroyed s) (autoReconnect s)
    (_reconnecting s) (_reconnectAttempts s) (_reconnectTimeout s)
    (_pingInterval s) v (board s) (totalMoves s) (totalCaptures s)
    (_moveToken s) (_pendingPieceMoves s) (_pendingViewMove s)
    (nextHandle s) (nextPromise s) (trace s).

Definition set_board (s : State) (v : Board) : State :=
  mkState (maxConnections s) (_connections s) (maxRetryCount s)
    (reconnectDelay s) (_ws s) (connected s) (destroyed s) (autoReconnect s)
    (_reconnecting s) (_reconnectAttempts s) (_reconnectTimeout s)
    (_pingInterval s) (_pongTimeout s) v (totalMoves s) (totalCaptures s)
    (_moveToken s) (_pendingPieceMoves s) (_pendingViewMove s)
    (nextHandle s) (nextPromise s) (trace s).

Definition set_totalMoves (s : State) (v : Z) : State :=
  mkState (maxConnections s) (_connections s) (maxRetryCount s)
    (reconnectDelay s) (_ws s) (connected s) (destroyed s) (autoReconnect s)
    (_reconnecting s) (_reconnectAttempts s) (_reconnectTimeout s)
    (_pingInterval s) (_pongTimeout s) (board s) v (totalCaptures s)
    (_moveToken s) (_pendingPieceMoves s) (_pendingViewMove s)
    (nextHandle s) (nextPromise s) (trace s).

Definition set_totalCaptures (s : State) (v : Z) : State :=
  mkState (maxConnections s) (_connections s) (maxRetryCount s)
    (reconnectDelay s) (_ws s) (connected s) (destroyed s) (autoReconnect s)
    (_reconnecting s) (_reconnectAttempts s) (_reconnectTimeout s)
    (_pingInterval s) (_pongTimeout s) (board s) (totalMoves s) v
    (_moveToken s) (_pendingPieceMoves s) (_pendingViewMove s)
    (nextHandle s) (nextPromise s) (trace s).

Definition set__moveToken (s : State) (v : Z) : State :=
  mkState (maxConnections s) (_connections s) (maxRetryCount s)
    (reconnectDelay s) (_ws s) (connected s) (destroyed s) (autoReconnect s)
    (_reconnecting s) (_reconnectAttempts s) (_reconnectTimeout s)
    (_pingInterval s) (_pongTimeout s) (board s) (totalMoves s)
    (totalCaptures s) v (_pendingPieceMoves s) (_pendingViewMove s)
    (nextHandle s) (nextPromise s) (trace s).

Definition set__pendingPieceMoves (s : State) (v : JsMap Z PendingMove) : State :=
  mkState (maxConnections s) (_connections s) (maxRetryCount s)
    (reconnectDelay s) (_ws s) (connected s) (destroyed s) (autoReconnect s)
    (_reconnecting s) (_reconnectAttempts s) (_reconnectTimeout s)
    (_pingInterval s) (_pongTimeout s) (board s) (totalMoves s)
    (totalCaptures s) (_moveToken s) v (_pendingViewMove s) (nextHandle s)
    (nextPromise s) (trace s).

Definition set__pendingViewMove (s : State) (v : option PendingView) : State :=
  mkState (maxConnections s) (_connections s) (maxRetryCount s)
    (reconnectDelay s) (_ws s) (connected s) (destroyed s) (autoReconnect s)
    (_reconnecting s) (_reconnectAttempts s) (_reconnectTimeout s)
    (_pingInterval s) (_pongTimeout s) (board s) (totalMoves s)
    (totalCaptures s) (_moveToken s) (_pendingPieceMoves s) v (nextHandle s)
    (nextPromise s) (trace s).

Definition set_nextHandle (s : State) (v : nat) : State :=
  mkState (maxConnections s) (_connections s) (maxRetryCount s)
    (reconnectDelay s) (_ws s) (connected s) (destroyed s) (autoReconnect s)
    (_reconnecting s) (_reconnectAttempts s) (_reconnectTimeout s)
    (_pingInterval s) (_pongTimeout s) (board s) (totalMoves s)
    (totalCaptures s) (_moveToken s) (_pendingPieceMoves s)
    (_pendingViewMove s) v (nextPromise s) (trace s).

Definition set_nextPromise (s : State) (v : nat) : State :=
  mkState (maxConnections s) (_connections s) (maxRetryCount s)
    (reconnectDelay s) (_ws s) (connected s) (destroyed s) (autoReconnect s)
    (_reconnecting s) (_reconnectAttempts s) (_reconnectTimeout s)
    (_pingInterval s) (_pongTimeout s) (board s) (totalMoves s)
    (totalCaptures s) (_moveToken s) (_pendingPieceMoves s)
    (_pendingViewMove s) (nextHandle s) v (trace s).

Definition set_trace (s : State) (v : list Effect) : State :=
  mkState (maxConnections s) (_connections s) (maxRetryCount s)
    (reconnectDelay s) (_ws s) (connected s) (destroyed s) (autoReconnect s)
    (_reconnecting s) (_reconnectAttempts s) (_reconnectTimeout s)
    (_pingInterval s) (_pongTimeout s) (board s) (totalMoves s)
    (totalCaptures s) (_moveToken s) (_pendingPieceMoves s)
    (_pendingViewMove s) (nextHandle s) (nextPromise s) v.

(** Code runs on the state and returns or throws; the state survives a
    throw. *)
Definition M (A : Type) : Type := State -> Result A * State.

Definition ret {A : Type} (a : A) : M A := fun s => (Ok a, s).

Definition throw {A : Type} (e : JsError) : M A := fun s => (Throw e, s).

Definition bind {A B : Type} (m : M A) (f : A -> M B) : M B :=
  fun s =>
    match m s with
    | (Ok a, s') => f a s'
    | (Throw e, s') => (Throw e, s')
    end.

Definition gets {A : Type} (f : State -> A) : M A := fun s => (Ok (f s), s).

Definition modify (f : State -> State) : M unit := fun s => (Ok tt, f s).

Declare Scope js_scope.
Delimit Scope js_scope with js.
Notation "x <- m ;; k" := (bind m (fun x => k))
  (at level 100, m at next level, right associativity) : js_scope.
Notation "m ;;; k" := (bind m (fun _ => k))
  (at level 100, right associativity) : js_scope.
Local Open Scope js_scope.

Definition when (c : bool) (m : M unit) : M unit := if c then m else ret tt.

Fixpoint forEach {A : Type} (l : list A) (f : A -> M unit) : M unit :=
  match l with
  | [] => ret tt
  | a :: l' => f a ;;; forEach l' f
  end.

(** [try { m } catch (err) { log }] *)
Definition try_log (m : M unit) : M unit :=
  fun s => (Ok tt, snd (m s)).

Definition emit (e : Effect) : M unit :=
  modify (fun s => set_trace s (e :: trace s)).

(** [setTimeout]: a fresh handle. *)
Definition setTimeout (kind : TimerKind) : M nat :=
  fun s =>
    let h := nextHandle s in
    (Ok h, set_trace (set_nextHandle s (S h)) (E_setTimeout h kind :: trace s)).

Definition clearTimeout (h : option nat) : M unit := emit (E_clearTimeout h).

(** [new Promise]: a fresh promise. *)
Definition newPromise : M nat :=
  fun s => (Ok (nextPromise s), set_nextPromise s (S (nextPromise s))).

(** A board operation that may throw. *)
Definition on_board {A : Type} (f : Board -> Result (A * Board)) : M A :=
  fun s =>
    match f (board s) with
    | Ok (a, b') => (Ok a, set_board s b')
    | Throw e => (Throw e, s)
    end.

(** What the caller of an [async] function holds when the call returns: a
    promise, resolved with what the body returned or rejected with what the
    body threw.  The call itself never throws. *)
Inductive Async (A : Type) : Type :=
  | Resolved (a : A)
  | Rejected (e : JsError).
Arguments Resolved {A} a.
Arguments Rejected {A} e.

(** [async function f() { body }], called: the body runs up to its first
    [await] within the call, and what it changes stays changed. *)
Definition async {A : Type} (body : M A) : M (Async A) :=
  fun s =>
    match body s with
    | (Ok a, s') => (Ok (Resolved a), s')
    | (Throw e, s') => (Ok (Rejected e), s')
    end.

(** *** WsClient *)

Definition WsClient__increment : M unit :=
  mc <- gets maxConnections ;;
  match mc with
  | None => ret tt
  | Some limit =>
      n <- gets _connections ;;
      if n >=? limit then
        throw (mkError ClientError
                 ("Maximum connections (" +:+ pretty limit +:+ ") exceeded for ChessClient"))
      else modify (fun s => set__connections s (_connections s + 1))
  end.

Definition WsClient__decrement : M unit :=
  mc <- gets maxConnections ;;
  match mc with
  | None => ret tt
  | Some _ =>
      n <- gets _connections ;;
      if n <=? 0 then
        throw (mkError ClientError "Connection count cannot be lower than 0")
      else modify (fun s => set__connections s (_connections s - 1))
  end.

Definition WsClient__setReconnecting : M unit :=
  modify (fun s => set__reconnecting s true).

Definition WsClient__resetReconnecting (success : bool) : M unit :=
  modify (fun s => set__reconnecting s false) ;;;
  when success (modify (fun s => set__reconnectAttempts s 0)).

Definition WsClient__resetState : M unit :=
  modify (fun s => set_connected s false) ;;;
  modify (fun s => set_destroyed s false) ;;;
  modify (fun s => set_autoReconnect s (reconnectDelay s >? 0)) ;;;
  WsClient__resetReconnecting true.

(** [_scheduleReconnect(wasError)]; [wasError] only stretches the delay. *)
Definition WsClient__scheduleReconnect (wasError : bool) : M unit :=
  r <- gets _reconnecting ;;
  d <- gets destroyed ;;
  if r || d then ret tt
  else
    modify (fun s => set__reconnectAttempts s (_reconnectAttempts s + 1)) ;;;
    n <- gets _reconnectAttempts ;;
    limit <- gets maxRetryCount ;;
    if n >? limit then ret tt
    else
      h <- setTimeout T_reconnect ;;
      modify (fun s => set__reconnectTimeout s (Some h)).

Definition WsClient__cleanupSocket : M unit :=
  ws <- gets _ws ;;
  if negb ws then ret tt
  else emit E_wsClose ;;; modify (fun s => set__ws s false).

Definition WsClient__clearTimers : M unit :=
  h <- gets _reconnectTimeout ;;
  clearTimeout h ;;;
  modify (fun s => set__reconnectTimeout s None).

(** *** ChessClient *)

Definition ChessClient_minViewDist : Z := 12.
Definition ChessClient__maxMoveToken : Z := 2 ^ 16 - 1.

Definition ChessClient__getIncrMoveToken : M Z :=
  t <- gets _moveToken ;;
  when (t >=? ChessClient__maxMoveToken) (modify (fun s => set__moveToken s 0)) ;;;
  modify (fun s => set__moveToken s (_moveToken s + 1)) ;;;
  gets _moveToken.

Definition connection_closed : JsError := mkError ChessError "Connection closed".

Definition ChessClient__rejectPendingRequests : M unit :=
  pendings <- gets _pendingPieceMoves ;;
  forEach (Map_values pendings) (fun pending =>
    clearTimeout (Some (pm_timeout pending)) ;;;
    emit (E_reject (pm_promise pending) connection_closed)) ;;;
  modify (fun s => set__pendingPieceMoves s (Map_clear (_pendingPieceMoves s))) ;;;
  pending <- gets _pendingViewMove ;;
  match pending with
  | Some pv =>
      clearTimeout (Some (pv_timeout pv)) ;;;
      emit (E_reject (pv_promise pv) connection_closed) ;;;
      modify (fun s => set__pendingViewMove s None)
  | None => ret tt
  end.

Definition ChessClient__clearTimers : M unit :=
  WsClient__clearTimers ;;;
  h1 <- gets _pingInterval ;;
  clearTimeout h1 ;;;
  h2 <- gets _pongTimeout ;;
  clearTimeout h2 ;;;
  modify (fun s => set__pingInterval s None) ;;;
  modify (fun s => set__pongTimeout s None).

(** [_handleDisconnect(code)] of [WsClient], with the overrides of
    [ChessClient] for [_rejectPendingRequests] and [_clearTimers]. *)
Definition WsClient__handleDisconnect (code : Z) : M unit :=
  modify (fun s => set_connected s false) ;;;
  WsClient__decrement ;;;
  ChessClient__rejectPendingRequests ;;;
  ChessClient__clearTimers ;;;
  WsClient__cleanupSocket ;;;
  auto <- gets autoReconnect ;;
  when auto
    (let wasError := negb (code =? 1000) in
     WsClient__scheduleReconnect wasError).

Definition WsClient__onWebsocketError : M unit := WsClient__handleDisconnect 1006.

Definition WsClient__onWebsocketClose (code : option Z) : M unit :=
  WsClient__handleDisconnect (default 1000 code).

Definition WsClient_disconnect : M unit :=
  modify (fun s => set_autoReconnect s false) ;;;
  WsClient__onWebsocketClose None.

Definition WsClient_destroy : M unit :=
  modify (fun s => set_destroyed s true) ;;;
  WsClient__onWebsocketClose None.

Definition ChessClient_destroy : M unit :=
  WsClient_destroy ;;;
  ChessClient__rejectPendingRequests ;;;
  modify (fun s => set_board s (Board_clear (board s))).

Definition ChessClient__schedulePing : M unit :=
  h1 <- gets _pingInterval ;;
  clearTimeout h1 ;;;
  h2 <- gets _pongTimeout ;;
  clearTimeout h2 ;;;
  h <- setTimeout T_ping ;;
  modify (fun s => set__pingInterval s (Some h)).

Definition ChessClient__onWebsocketOpen : M unit :=
  modify (fun s => set_connected s true) ;;;
  ChessClient__schedulePing.

(** [_connect()]: a throw stands for the rejection of the returned promise. *)
Definition WsClient__connect : M unit :=
  d <- gets destroyed ;;
  if d then throw (mkError ClientError "Client destroyed")
  else
    c <- gets connected ;;
    if c then ret tt
    else
      WsClient__increment ;;;
      WsClient__setReconnecting ;;;
      emit E_newWebSocket ;;;
      modify (fun s => set__ws s true).

Definition WsClient_init : M unit :=
  WsClient__resetState ;;;
  WsClient__connect.

(** The listeners that [_connect] puts on the socket. *)
Definition ws_on_open : M unit :=
  WsClient__resetReconnecting true ;;;
  ChessClient__onWebsocketOpen.

Definition ws_on_error : M unit :=
  WsClient__resetReconnecting false ;;;
  WsClient__onWebsocketError.

Definition ws_on_close (code : Z) : M unit :=
  WsClient__resetReconnecting false ;;;
  WsClient__onWebsocketClose (Some code).

(** The timer callbacks. *)
Definition reconnect_timer_fired : M unit := try_log WsClient__connect.

Definition ping_timer_fired : M unit :=
  ws <- gets _ws ;;
  if negb ws then throw (mkError TypeError "Cannot read properties of null")
  else
    emit (E_wsSend CM_ping) ;;;
    h <- setTimeout T_pong ;;
    modify (fun s => set__pongTimeout s (Some h)).

Definition pong_timer_fired : M unit := WsClient__handleDisconnect 1006.

(** [movePiece(piece, toX, toY, type)], an [async] function: what the body
    throws before it builds its promise rejects the promise of the call;
    otherwise the promise of the call is resolved with the promise that the
    body builds, given here with the token of the request.  The entry is put
    in the table and then given its timer; the model takes the timer first,
    the resulting entry is the same.  The entry refers to the piece; the
    model keeps the value the piece has when the request is made. *)
Definition ChessClient_movePiece (piece : option Piece) (toX toY : Z)
    (type : MoveTypes) : M (Async (nat * Z)) :=
  async
    match piece with
    | None => throw (mkError ChessError "No piece at starting position")
    | Some p =>
        b <- gets board ;;
        match Board__validatePieceMove b p toX toY type with
        | Throw e => throw e
        | Ok _ =>
            moveToken <- ChessClient__getIncrMoveToken ;;
            promise <- newPromise ;;
            h <- setTimeout (T_moveTimeout moveToken) ;;
            modify (fun s =>
              set__pendingPieceMoves s
                (Map_set moveToken (mkPendingMove promise p (x p) (y p) toX toY h)
                   (_pendingPieceMoves s))) ;;;
            emit (E_sendRequest (CM_move (id p) (x p) (y p) toX toY type moveToken)) ;;;
            ret (promise, moveToken)
        end
    end.

Definition move_timer_fired (moveToken : Z) (promise : nat) : M unit :=
  modify (fun s =>
    set__pendingPieceMoves s (Map_delete moveToken (_pendingPieceMoves s))) ;;;
  emit (E_reject promise
          (mkError ChessError ("Move timed out: " +:+ pretty moveToken))).

Definition move_send_failed (moveToken : Z) (pending : PendingMove) (error : JsError)
    : M unit :=
  clearTimeout (Some (pm_timeout pending)) ;;;
  modify (fun s =>
    set__pendingPieceMoves s (Map_delete moveToken (_pendingPieceMoves s))) ;;;
  emit (E_reject (pm_promise pending) error).

(** [moveView(centerX, centerY)], [async] like [movePiece]: the promise of
    the call is rejected with what the body throws, or resolved with the
    promise that the body builds. *)
Definition ChessClient_moveView (centerX centerY : Z) : M (Async nat) :=
  async
    (pending <- gets _pendingViewMove ;;
     match pending with
     | Some _ => throw (mkError ChessError "Already waiting for view move")
     | None =>
         match Board__validateCenterCoords (Some centerX) (Some centerY) msg_view with
         | Throw e => throw e
         | Ok _ =>
             b <- gets board ;;
             let dist :=
               Board_distance (num (_centerX b)) (num (_centerY b)) centerX centerY false in
             if dist <? ChessClient_minViewDist then
               throw (mkError ChessError ("Move distance " +:+ pretty dist +:+ " too short"))
             else
               promise <- newPromise ;;
               h <- setTimeout T_viewTimeout ;;
               modify (fun s => set__pendingViewMove s (Some (mkPendingView promise h))) ;;;
               emit (E_sendRequest (CM_subscribe centerX centerY)) ;;;
               ret promise
         end
     end).

Definition view_timer_fired (promise : nat) : M unit :=
  modify (fun s => set__pendingViewMove s None) ;;;
  emit (E_reject promise (mkError ChessError "View move timed out")).

Definition view_send_failed (pending : PendingView) (error : JsError) : M unit :=
  clearTimeout (Some (pv_timeout pending)) ;;;
  modify (fun s => set__pendingViewMove s None) ;;;
  emit (E_reject (pv_promise pending) error).

(** *** Inbound messages *)

Record SnapshotPiece : Type := mkSnapshotPiece {
  sp_dx : Z;
  sp_dy : Z;
  sp_piece : PieceData
}.

Record Snapshot : Type := mkSnapshot {
  xCoord : Z;
  yCoord : Z;
  pieces : list SnapshotPiece
}.

Record PieceMove : Type := mkPieceMove {
  mv_x : Z;
  mv_y : Z;
  mv_piece : PieceData
}.

Inductive ServerMessage : Type :=
  | SM_pong
  | SM_initialState (snapshot : Snapshot)
  | SM_snapshot (snapshot : Snapshot)
  | SM_validMove (moveToken capturedPieceId : Z)
  | SM_invalidMove (moveToken : Z)
  | SM_movesAndCaptures (moves : list PieceMove) (captures : list Z)
  | SM_bulkCapture (capturedIds : list Z).

Definition board_result {A : Type} (r : Result Board) (a : A) : Result (A * Board) :=
  match r with
  | Ok b => Ok (a, b)
  | Throw e => Throw e
  end.

Definition ChessClient__resetBoard (snapshot : Snapshot) : M unit :=
  let centerX := xCoord snapshot in
  let centerY := yCoord snapshot in
  modify (fun s => set_board s (Board_clear (board s))) ;;;
  on_board (fun b => board_result (Board_set_centerX b centerX) tt) ;;;
  on_board (fun b => board_result (Board_set_centerY b centerY) tt) ;;;
  forEach (pieces snapshot) (fun item =>
    let x' := centerX + sp_dx item in
    let y' := centerY + sp_dy item in
    modify (fun s => set_board s (Board_set (board s) x' y' (AData (sp_piece item)) false))).

Definition capture_by_id (capturedPieceId : Z) : M unit :=
  on_board (fun b =>
    match Board_captureWithId b capturedPieceId false with
    | Ok (_, b') => Ok (tt, b')
    | Throw e => Throw e
    end).

Definition handler_pong : M unit := ChessClient__schedulePing.

Definition handler_initialState (snapshot : Snapshot) : M unit :=
  ChessClient__resetBoard snapshot.

Definition handler_snapshot (data : Snapshot) : M unit :=
  ChessClient__resetBoard data ;;;
  pending <- gets _pendingViewMove ;;
  match pending with
  | Some pv =>
      clearTimeout (Some (pv_timeout pv)) ;;;
      emit (E_resolve (pv_promise pv)) ;;;
      modify (fun s => set__pendingViewMove s None)
  | None => ret tt
  end.

Definition handler_validMove (moveToken capturedPieceId : Z) : M unit :=
  pending <- gets (fun s => Map_get moveToken (_pendingPieceMoves s)) ;;
  match pending with
  | None => ret tt
  | Some pd =>
      clearTimeout (Some (pm_timeout pd)) ;;;
      modify (fun s =>
        set__pendingPieceMoves s (Map_delete moveToken (_pendingPieceMoves s))) ;;;
      on_board (fun b =>
        match Board_movePiece b (Some (pm_piece pd)) (pm_toX pd) (pm_toY pd)
                MOVE_TYPE_NORMAL false false with
        | Ok (_, b') => Ok (tt, b')
        | Throw e => Throw e
        end) ;;;
      modify (fun s => set_totalMoves s (totalMoves s + 1)) ;;;
      when (negb (capturedPieceId =? 0))
        (modify (fun s => set_totalCaptures s (totalCaptures s + 1))) ;;;
      emit (E_resolve (pm_promise pd))
  end.

Definition handler_invalidMove (moveToken : Z) : M unit :=
  pending <- gets (fun s => Map_get moveToken (_pendingPieceMoves s)) ;;
  match pending with
  | None => ret tt
  | Some pd =>
      clearTimeout (Some (pm_timeout pd)) ;;;
      modify (fun s =>
        set__pendingPieceMoves s (Map_delete moveToken (_pendingPieceMoves s))) ;;;
      emit (E_reject (pm_promise pd)
              (mkError ChessError ("Invalid move: " +:+ pretty moveToken)))
  end.

Definition handler_movesAndCaptures (moves : list PieceMove) (captures : list Z)
    : M unit :=
  forEach captures capture_by_id ;;;
  forEach moves (fun move =>
    modify (fun s =>
      set_board s (Board_set (board s) (mv_x move) (mv_y move)
                     (AData (mv_piece move)) false))).

Definition handler_bulkCapture (capturedIds : list Z) : M unit :=
  forEach capturedIds capture_by_id.

(** [_handleServerMessage]: dispatch on the payload, errors are logged. *)
Definition ChessClient__handleServerMessage (msg : ServerMessage) : M unit :=
  try_log
    match msg with
    | SM_pong => handler_pong
    | SM_initialState snapshot => handler_initialState snapshot
    | SM_snapshot data => handler_snapshot data
    | SM_validMove moveToken capturedPieceId =>
        handler_validMove moveToken capturedPieceId
    | SM_invalidMove moveToken => handler_invalidMove moveToken
    | SM_movesAndCaptures moves captures => handler_movesAndCaptures moves captures
    | SM_bulkCapture capturedIds => handler_bulkCapture capturedIds
    end.

(** *** Runs of a client

    What can happen to a client: calls of its public methods, socket
    events, inbound messages and timer callbacks.  A callback carries what
    its closure captured. *)
Inductive Event : Type :=
  | Ev_init
  | Ev_disconnect
  | Ev_destroy
  | Ev_movePiece (piece : option Piece) (toX toY : Z) (type : MoveTypes)
  | Ev_moveView (centerX centerY : Z)
  | Ev_wsOpen
  | Ev_wsError
  | Ev_wsClose (code : Z)
  | Ev_message (msg : ServerMessage)
  | Ev_reconnectTimer
  | Ev_pingTimer
  | Ev_pongTimer
  | Ev_moveTimer (moveToken : Z) (promise : nat)
  | Ev_moveSendFailed (moveToken : Z) (pending : PendingMove) (error : JsError)
  | Ev_viewTimer (promise : nat)
  | Ev_viewSendFailed (pending : PendingView) (error : JsError).

Definition exec {A : Type} (m : M A) (s : State) : State := snd (m s).

Definition run_event (ev : Event) (s : State) : State :=
  match ev with
  | Ev_init => exec WsClient_init s
  | Ev_disconnect => exec WsClient_disconnect s
  | Ev_destroy => exec ChessClient_destroy s
  | Ev_movePiece piece toX toY type => exec (ChessClient_movePiece piece toX toY type) s
  | Ev_moveView centerX centerY => exec (ChessClient_moveView centerX centerY) s
  | Ev_wsOpen => exec ws_on_open s
  | Ev_wsError => exec ws_on_error s
  | Ev_wsClose code => exec (ws_on_close code) s
  | Ev_message msg => exec (ChessClient__handleServerMessage msg) s
  | Ev_reconnectTimer => exec reconnect_timer_fired s
  | Ev_pingTimer => exec ping_timer_fired s
  | Ev_pongTimer => exec pong_timer_fired s
  | Ev_moveTimer moveToken promise => exec (move_timer_fired moveToken promise) s
  | Ev_moveSendFailed moveToken pending error =>
      exec (move_send_failed moveToken pending error) s
  | Ev_viewTimer promise => exec (view_timer_fired promise) s
  | Ev_viewSendFailed pending error => exec (view_send_failed pending error) s
  end.

Definition run (evs : list Event) (s : State) : State :=
  fold_left (fun st ev => run_event ev st) evs s.

(** [new ChessClient(...)]: the state after the constructor, for a class
    whose counter stands at [conns]; the defaults of the options are
    [maxRetryCount = 5] and [reconnectDelay = 15000], the ceiling on
    connections of the class is 20, and the board is [new Board()]: no
    center yet, the default length 95. *)
Definition new_ChessClient (conns : Z) (maxRetry delay : option Z) : State :=
  let delay' := default 15000 delay in
  mkState (Some 20) conns (default 5 maxRetry) delay'
          false false false (delay' >? 0) false 0 None None None
          (mkBoard 95 ((95 - 1) / 2) None None None None None None [])
          0 0 0 [] None 0%nat 0%nat [].

(** *** Numbers: binary64 *)

(** [2^k] for a whole exponent of either sign. *)
Definition pow2 (k : Z) : Q := (2 ^ k)%Q.

(** The exponent of a positive number: [2^ilog2 q <= q < 2^(ilog2 q + 1)]. *)
Definition ilog2 (q : Q) : Z :=
  let k := Z.log2 (Qnum q) - Z.log2 (Zpos (Qden q)) in
  if Qle_bool (pow2 k) q then k else k - 1.

(** The nearest whole number, a tie going to the even one. *)
Definition rne (q : Q) : Z :=
  let f := Qfloor q in
  match (q - inject_Z f ?= 1 # 2)%Q with
  | Lt => f
  | Gt => f + 1
  | Eq => if Z.even f then f else f + 1
  end.

(** The exponent of the unit in the last place of a binary64 number near
    [q > 0]: 52 bits below the exponent of [q], or below that of the least
    normal number. *)
Definition ulp_exponent (q : Q) : Z := Z.max (ilog2 q) (-1022) - 52.

Definition round_pos (q : Q) : Q :=
  (inject_Z (rne (q / pow2 (ulp_exponent q))) * pow2 (ulp_exponent q))%Q.

(** A real number as the binary64 number nearest to it (IEEE 754
    round-to-nearest, ties to even), for results below [2^1024] in size. *)
Definition binary64 (q : Q) : Q :=
  match (q ?= 0)%Q with
  | Eq => 0%Q
  | Gt => round_pos q
  | Lt => (- round_pos (- q))%Q
  end.

Definition fadd (a b : Q) : Q := binary64 (a + b).
Definition fsub (a b : Q) : Q := binary64 (a - b).
Definition fmul (a b : Q) : Q := binary64 (a * b).
Definition fdiv (a b : Q) : Q := binary64 (a / b).

(** *** The rate limiter of WsClient *)

Record Bucket : Type := mkBucket {
  _tokens : Q;
  _lastRefillTime : Z
}.

(** The constructor: [_tokens = maxRPS], [_lastRefillTime = Date.now()]. *)
Definition new_Bucket (maxRPS : Q) (now : Z) : Bucket := mkBucket maxRPS now.

(** [Math.floor(elapsed * this.maxRPS)] with
    [elapsed = (now - this._lastRefillTime) / 1000], for [ms] milliseconds
    between the two readings. *)
Definition toAdd (maxRPS : Q) (ms : Z) : Z :=
  let elapsed := fdiv (binary64 (inject_Z ms)) 1000 in
  Qfloor (fmul elapsed maxRPS).

(** The refill at the head of an iteration of [_acquireToken]. *)
Definition refill (maxRPS : Q) (now : Z) (bk : Bucket) : Bucket :=
  let toAdd := toAdd maxRPS (now - _lastRefillTime bk) in
  if toAdd >? 0
  then mkBucket (Qmin maxRPS (fadd (_tokens bk) (inject_Z toAdd))) now
  else bk.

(** One iteration of the loop of [_acquireToken] for a finite [maxRPS], at
    the clock reading [now]: [true] when a token is taken and the call
    returns, [false] when the iteration ends in the wait for a refill. *)
Definition acquire_iteration (maxRPS : Q) (now : Z) (bk : Bucket) : bool * Bucket :=
  let bk1 := refill maxRPS now bk in
  if Qlt_le_dec 0 (_tokens bk1)
  then (true, mkBucket (fsub (_tokens bk1) 1) (_lastRefillTime bk1))
  else (false, bk1).

(** [_acquireToken()] of one caller: the clock readings of its iterations
    are taken from [clock]; the result is the reading at which the token was
    taken, or [None] while the caller still waits at the end of [clock].
    [maxRPS = None] is [Infinity]: no limit, no clock reading. *)
Fixpoint WsClient__acquireToken (maxRPS : option Q) (clock : list Z) (bk : Bucket)
    : option (option Z) * Bucket :=
  match maxRPS with
  | None => (Some None, bk)
  | Some rate =>
      match clock with
      | [] => (None, bk)
      | now :: clock' =>
          match acquire_iteration rate now bk with
          | (true, bk') => (Some (Some now), bk')
          | (false, bk') => WsClient__acquireToken maxRPS clock' bk'
          end
      end
  end.

(** All iterations of all callers, in the order in which they run: the
    readings at which a token is taken (each is followed by a send when the
    socket is open), and the bucket left behind. *)
Fixpoint grants (maxRPS : Q) (ticks : list Z) (bk : Bucket) : list Z :=
  match ticks with
  | [] => []
  | now :: ticks' =>
      match acquire_iteration maxRPS now bk with
      | (true, bk') => now :: grants maxRPS ticks' bk'
      | (false, bk') => grants maxRPS ticks' bk'
      end
  end.

(** The clock does not run backwards: readings from [t] on. *)
Fixpoint clock_from (t : Z) (ticks : list Z) : Prop :=
  match ticks with
  | [] => True
  | u :: ticks' => t <= u /\ clock_from u ticks'
  end.

(** *** Sending with retry *)

(** [String.prototype.includes] *)
Fixpoint includes (needle hay : string) : bool :=
  if String.prefix needle hay then true
  else
    match hay with
    | EmptyString => false
    | String _ hay' => includes needle hay'
    end.

(** What one attempt finds: how [_connectionReady] settles, the flags after
    the token is acquired, and the result of [ws.send]. *)
Record Attempt : Type := mkAttempt {
  at_ready : option JsError;
  at_destroyed : bool;
  at_connected : bool;
  at_send : option JsError
}.

Definition WsClient__attemptSend (a : Attempt) : Result unit :=
  match at_ready a with
  | Some err => Throw err
  | None =>
      if at_destroyed a then Throw (mkError ClientError "Client destroyed")
      else if negb (at_connected a) then Throw (mkError ClientError "Connection not open")
      else
        match at_send a with
        | Some err => Throw err
        | None => Ok tt
        end
  end.

(** How [_sendWithRetry] ends; to the caller [Sent] and [Dropped] are both
    [undefined]. *)
Inductive SendOutcome : Type :=
  | Sent      (* [return await this._attemptSend(data)] *)
  | Dropped.  (* the [return] of the check for "destoyed" *)

(** The loop of [_sendWithRetry]: [env n] is what the [n]-th attempt finds,
    and the result carries the number of attempts made.  The loop ends by
    itself; [fuel] bounds the iterations and [None] says it was too small. *)
Fixpoint sendWithRetry_loop (fuel : nat) (maxRetryCount : Z) (env : nat -> Attempt)
    (attempt : nat) (retries : Z) : option (Result SendOutcome * nat) :=
  match fuel with
  | O => None
  | S fuel' =>
      match WsClient__attemptSend (env attempt) with
      | Ok _ => Some (Ok Sent, S attempt)
      | Throw error =>
          if includes "destoyed" (message error) then Some (Ok Dropped, S attempt)
          else
            let retries := retries + 1 in
            if retries >? maxRetryCount then Some (Throw error, S attempt)
            else sendWithRetry_loop fuel' maxRetryCount env (S attempt) retries
      end
  end.

Definition WsClient__sendWithRetry (maxRetryCount : Z) (env : nat -> Attempt)
    : option (Result SendOutcome * nat) :=
  sendWithRetry_loop (S (Z.to_nat maxRetryCount)) maxRetryCount env 0%nat 0.

(** [enableRetry = retryDelay > 0 && maxRetryCount > 0] *)
Definition enableRetry (retryDelay maxRetryCount : Z) : bool :=
  (retryDelay >? 0) && (maxRetryCount >? 0).

Definition WsClient_sendRequest (retryDelay maxRetryCount : Z) (env : nat -> Attempt)
    : option (Result SendOutcome * nat) :=
  if negb (enableRetry retryDelay maxRetryCount) then
    match WsClient__attemptSend (env 0%nat) with
    | Ok _ => Some (Ok Sent, 1%nat)
    | Throw e => Some (Throw e, 1%nat)
    end
  else WsClient__sendWithRetry maxRetryCount env.

(** ** Piece: the names of types and colours *)

(** A value handed to a setter or to a search: a number, a string, or
    anything else.  Strings are ASCII. *)
Inductive JsVal : Type :=
  | VNum (n : Z)
  | VStr (s : string)
  | VOther.

(** The enum object [PieceTypes] of the wire schema maps each name to its
    number and, through its prototype, each number to its name. *)
Definition PieceTypes_number (t : PieceTypes) : Z :=
  match t with
  | PIECE_TYPE_PAWN => 0
  | PIECE_TYPE_KNIGHT => 1
  | PIECE_TYPE_BISHOP => 2
  | PIECE_TYPE_ROOK => 3
  | PIECE_TYPE_QUEEN => 4
  | PIECE_TYPE_KING => 5
  | PIECE_TYPE_PROMOTED_PAWN => 6
  end.

Definition PieceTypes_name (t : PieceTypes) : string :=
  match t with
  | PIECE_TYPE_PAWN => "PIECE_TYPE_PAWN"
  | PIECE_TYPE_KNIGHT => "PIECE_TYPE_KNIGHT"
  | PIECE_TYPE_BISHOP => "PIECE_TYPE_BISHOP"
  | PIECE_TYPE_ROOK => "PIECE_TYPE_ROOK"
  | PIECE_TYPE_QUEEN => "PIECE_TYPE_QUEEN"
  | PIECE_TYPE_KING => "PIECE_TYPE_KING"
  | PIECE_TYPE_PROMOTED_PAWN => "PIECE_TYPE_PROMOTED_PAWN"
  end.

Definition PieceTypes_all : list PieceTypes :=
  [PIECE_TYPE_PAWN; PIECE_TYPE_KNIGHT; PIECE_TYPE_BISHOP; PIECE_TYPE_ROOK;
   PIECE_TYPE_QUEEN; PIECE_TYPE_KING; PIECE_TYPE_PROMOTED_PAWN].

(** [PieceTypes[str]]: a number for a name of the enum, [None] for what is
    not a number. *)
Definition PieceTypes_byName (str : string) : option Z :=
  PieceTypes_number <$>
    List.find (fun t => String.eqb (PieceTypes_name t) str) PieceTypes_all.

(** [PieceTypes[num]]: a string for a number of the enum. *)
Definition PieceTypes_byNumber (n : Z) : option string :=
  PieceTypes_name <$> List.find (fun t => PieceTypes_number t =? n) PieceTypes_all.

Definition ascii_toUpperCase (c : Ascii.ascii) : Ascii.ascii :=
  let n := Ascii.nat_of_ascii c in
  if ((97 <=? n) && (n <=? 122))%nat then Ascii.ascii_of_nat (n - 32) else c.

Definition ascii_toLowerCase (c : Ascii.ascii) : Ascii.ascii :=
  let n := Ascii.nat_of_ascii c in
  if ((65 <=? n) && (n <=? 90))%nat then Ascii.ascii_of_nat (n + 32) else c.

Fixpoint toUpperCase (s : string) : string :=
  match s with
  | EmptyString => EmptyString
  | String c s' => String (ascii_toUpperCase c) (toUpperCase s')
  end.

Fixpoint toLowerCase (s : string) : string :=
  match s with
  | EmptyString => EmptyString
  | String c s' => String (ascii_toLowerCase c) (toLowerCase s')
  end.

(** [str.slice(n)] *)
Fixpoint slice (n : nat) (s : string) : string :=
  match n, s with
  | O, _ => s
  | S n', String _ s' => slice n' s'
  | S _, EmptyString => EmptyString
  end.

Definition Piece__typePrefix : string := "PIECE_TYPE_".

(** [Object.values(PieceColors)] *)
Definition Piece__validColors : list string := ["black"; "white"].

Definition Piece__validateTypeStr (str : string) : Result unit :=
  match PieceTypes_byName str with
  | Some _ => Ok tt
  | None => Throw (mkError ChessError ("Invalid piece type: " +:+ str))
  end.

Definition Piece__validateTypeNum (n : Z) : Result unit :=
  match PieceTypes_byNumber n with
  | Some _ => Ok tt
  | None => Throw (mkError ChessError ("Invalid piece type: " +:+ pretty n))
  end.

Definition Piece__typeToShort (type : string) (validate : bool) : Result string :=
  match (if validate then Piece__validateTypeStr type else Ok tt) with
  | Throw e => Throw e
  | Ok _ => Ok (toLowerCase (slice (String.length Piece__typePrefix) type))
  end.

Definition Piece__shortToType (short : string) (validate : bool) : Result string :=
  let type := Piece__typePrefix +:+ toUpperCase short in
  match (if validate then Piece__validateTypeStr type else Ok tt) with
  | Throw e => Throw e
  | Ok _ => Ok type
  end.

(** [_getTypeNum(val)]; the result of [PieceTypes[str]] is [None] when it
    is [undefined]. *)
Definition Piece__getTypeNum (val : JsVal) : Result (option Z) :=
  match val with
  | VNum n =>
      match Piece__validateTypeNum n with
      | Throw e => Throw e
      | Ok _ => Ok (Some n)
      end
  | VStr s =>
      match Piece__shortToType s true with
      | Throw e => Throw e
      | Ok str => Ok (PieceTypes_byName str)
      end
  | VOther => Throw (mkError ChessError "Invalid type value")
  end.

(** [Array.prototype.includes] and [indexOf] on strings. *)
Definition Array_includes (l : list string) (str : string) : bool :=
  existsb (String.eqb str) l.

Fixpoint Array_indexOf_from (i : Z) (l : list string) (str : string) : Z :=
  match l with
  | [] => -1
  | s :: l' => if String.eqb s str then i else Array_indexOf_from (i + 1) l' str
  end.

Definition Array_indexOf (l : list string) (str : string) : Z :=
  Array_indexOf_from 0 l str.

Definition Piece__validateColorStr (str : string) : Result unit :=
  if negb (Array_includes Piece__validColors str) then
    Throw (mkError ChessError ("Invalid color: " +:+ str))
  else Ok tt.

Definition Piece__validateColorNum (n : Z) : Result unit :=
  if (n <? 0) || (n >=? Z.of_nat (List.length Piece__validColors)) then
    Throw (mkError ChessError ("Invalid color: " +:+ pretty n))
  else Ok tt.

Definition Piece__colorToNum (color : string) (validate : bool) : Result Z :=
  match (if validate then Piece__validateColorStr color else Ok tt) with
  | Throw e => Throw e
  | Ok _ => Ok (Array_indexOf Piece__validColors color)
  end.

(** [_numToColor(num, validate)]; an index outside the array gives
    [undefined], here [None]. *)
Definition Piece__numToColor (n : Z) (validate : bool) : Result (option string) :=
  match (if validate then Piece__validateColorNum n else Ok tt) with
  | Throw e => Throw e
  | Ok _ => Ok (if n <? 0 then None else Piece__validColors !! Z.to_nat n)
  end.

Definition Piece__getColorNum (val : JsVal) : Result Z :=
  match val with
  | VNum n =>
      match Piece__validateColorNum n with
      | Throw e => Throw e
      | Ok _ => Ok n
      end
  | VStr s => Piece__colorToNum s true
  | VOther => Throw (mkError ChessError "Invalid color value")
  end.

(** The getters [type] and [color]. *)
Definition Piece_type (p : Piece) : Result string :=
  Piece__typeToShort (PieceTypes_name (_type p)) false.

Definition Piece_color (p : Piece) : Result (option string) :=
  Piece__numToColor (_color p) false.

(** ** Board: boards of the world and searches *)

Definition Board_static_centerInBounds (x' y' : Z) : bool :=
  (x' >=? Board_minCenterCoords) && (y' >=? Board_minCenterCoords)
  && (x' <=? Board_maxCenterCoords) && (y' <=? Board_maxCenterCoords).

(** [getBoardCorner(x, y)]; [Math.floor(x / 8)] is the quotient of [Z]. *)
Definition Board_getBoardCorner (x' y' : Z) : Z * Z :=
  let newX := x' / Board_boardSize * Board_boardSize in
  let newY := y' / Board_boardSize * Board_boardSize in
  (newX, newY).

Record FindParams : Type := mkFindParams {
  checkType : bool;
  checkColor : bool;
  fp_type : option Z;
  fp_color : option Z
}.

(** [_getFindParams(type, color)]; an argument that is [null] or
    [undefined] is [None]. *)
Definition Board__getFindParams (type color : option JsVal) : Result FindParams :=
  let checkType := bool_decide (is_Some type) in
  let checkColor := bool_decide (is_Some color) in
  let type' :=
    match type with
    | Some val => Piece__getTypeNum val
    | None => Ok None
    end in
  match type' with
  | Throw e => Throw e
  | Ok type'' =>
      let color' :=
        match color with
        | Some val =>
            match Piece__getColorNum val with
            | Throw e => Throw e
            | Ok n => Ok (Some n)
            end
        | None => Ok None
        end in
      match color' with
      | Throw e => Throw e
      | Ok color'' => Ok (mkFindParams checkType checkColor type'' color'')
      end
  end.

(** [piece._type === type] and [piece._color === color] *)
Definition type_is (piece : Piece) (type : option Z) : bool :=
  bool_decide (Some (PieceTypes_number (_type piece)) = type).

Definition color_is (piece : Piece) (color : option Z) : bool :=
  bool_decide (Some (_color piece) = color).

Definition Board_find (b : Board) (type color : option JsVal) : Result (option Piece) :=
  match Board__getFindParams type color with
  | Throw e => Throw e
  | Ok fp =>
      Ok (List.find (fun piece =>
            let typeMatches := negb (checkType fp) || type_is piece (fp_type fp) in
            let colorMatches := negb (checkColor fp) || color_is piece (fp_color fp) in
            typeMatches && colorMatches)
          (Map_values (entries b)))
  end.

(** The loop of [findInArea] over the entries. *)
Fixpoint findInArea_loop (fp : FindParams) (x1 y1 x2 y2 : Z)
    (l : list (Z * Z * Piece)) : option Piece :=
  match l with
  | [] => None
  | (pos, piece) :: l' =>
      let typeMismatch := checkType fp && negb (type_is piece (fp_type fp)) in
      let colorMismatch := checkColor fp && negb (color_is piece (fp_color fp)) in
      if typeMismatch || colorMismatch then findInArea_loop fp x1 y1 x2 y2 l'
      else
        let '(a, b) := pos in
        if (a >=? x1) && (b >=? y1) && (a <=? x2) && (b <=? y2) then Some piece
        else findInArea_loop fp x1 y1 x2 y2 l'
  end.

Definition Board_findInArea (b : Board) (type color : option JsVal) (x' y' w h : Z)
    : Result (option Piece) :=
  match Board__getFindParams type color with
  | Throw e => Throw e
  | Ok fp =>
      let x1 := x' in
      let y1 := y' in
      let x2 := x1 + w - 1 in
      let y2 := y1 + h - 1 in
      if (w <=? 0) || (h <=? 0) then Ok None
      else if negb (Board_pieceInBounds b x1 y1) || negb (Board_pieceInBounds b x2 y2)
      then Ok None
      else Ok (findInArea_loop fp x1 y1 x2 y2 (entries b))
  end.

Definition Board_findInBoard (b : Board) (type color : option JsVal) (x' y' : Z)
    : Result (option Piece) :=
  let '(x1, y1) := Board_getBoardCorner x' y' in
  let w := Board_boardSize in
  let h := Board_boardSize in
  Board_findInArea b type color x1 y1 w h.

(** ** Board: the keys of the store as text

    [_getCoordsKey] builds the key [x + "," + y] and [_getKeyCoords] reads
    the coordinates back; a whole number below [10^21] in size is written in
    decimal digits, as [pretty] writes it. *)

Definition Board__getCoordsKey_text (x' y' : Z) (floor : bool) : string :=
  pretty x' +:+ "," +:+ pretty y'.

(** [str.split(sep)] for a separator of one character. *)
Fixpoint String_split (sep : string) (s : string) : list string :=
  match s with
  | EmptyString => [EmptyString]
  | String c s' =>
      if String.eqb (String c EmptyString) sep then EmptyString :: String_split sep s'
      else
        match String_split sep s' with
        | [] => [String c EmptyString]
        | w :: ws => String c w :: ws
        end
  end.

Definition is_whitespace (c : Ascii.ascii) : bool :=
  let n := Ascii.nat_of_ascii c in
  (((9 <=? n) && (n <=? 13)) || (n =? 32))%nat.

Definition digit_value (c : Ascii.ascii) : option Z :=
  let n := Ascii.nat_of_ascii c in
  if ((48 <=? n) && (n <=? 57))%nat then Some (Z.of_nat n - 48) else None.

Fixpoint skip_whitespace (s : string) : string :=
  match s with
  | EmptyString => EmptyString
  | String c s' => if is_whitespace c then skip_whitespace s' else s
  end.

(** The digits at the head of [s]; [None] when there is none. *)
Fixpoint parse_digits (acc : option Z) (s : string) : option Z :=
  match s with
  | EmptyString => acc
  | String c s' =>
      match digit_value c with
      | Some d => parse_digits (Some (10 * default 0 acc + d)) s'
      | None => acc
      end
  end.

(** [Number.parseInt(str, 10)]; [None] is [NaN]. *)
Definition Number_parseInt (str : string) : option Z :=
  let s1 := skip_whitespace str in
  let '(sign, s2) :=
    if String.prefix "-" s1 then (-1, slice 1 s1)
    else if String.prefix "+" s1 then (1, slice 1 s1)
    else (1, s1) in
  (fun v => sign * v) <$> parse_digits None s2.

Definition Board__getKeyCoords (key : string) : list (option Z) :=
  take 2 (map Number_parseInt (String_split "," key)).

(** ** WsClient: the delay before a retry *)

(** [_getRetryTime(base, jitter, error)]; [random1] and [random2] are the
    two readings of [Math.random()], each in [[0, 1)]. *)
Definition WsClient__getRetryTime (base jitter : Q) (error : bool)
    (random1 random2 : Q) : Q :=
  let time := (base + (random1 * jitter - jitter / 2))%Q in
  if error then (time * (1 + random2 * (4 # 10)))%Q else time.

(** ** What the statements speak about *)

(** *** Reasoning about code in [M] *)

(** [m] keeps [P], whether it returns or throws. *)
Definition preserves {A : Type} (P : State -> Prop) (m : M A) : Prop :=
  forall s, P s -> P (snd (m s)).

(** From [P], [m] ends in [Q], whether it returns or throws. *)
Definition hoare {A : Type} (P : State -> Prop) (m : M A) (Q : State -> Prop) : Prop :=
  forall s, P s -> Q (snd (m s)).


(** [m] returns and keeps [P]. *)
Definition steady {A : Type} (P : State -> Prop) (m : M A) : Prop :=
  forall s, P s -> (exists a, fst (m s) = Ok a) /\ P (snd (m s)).

(** *** Move tokens *)





(** *** Piece ids *)

(** No two distinct coordinate keys hold pieces with the same id. *)
Definition ids_unique (b : Board) : Prop :=
  forall (k1 k2 : Z * Z) (p1 p2 : Piece),
    Map_get k1 (entries b) = Some p1 ->
    Map_get k2 (entries b) = Some p2 ->
    id p1 = id p2 -> k1 = k2.











(** *** Disconnecting *)

(** The calls made for the pending moves, newest first. *)
Definition reject_calls (l : list PendingMove) : list Effect :=
  rev (flat_map (fun pending =>
         [E_clearTimeout (Some (pm_timeout pending));
          E_reject (pm_promise pending) connection_closed]) l).

Definition reject_view_calls (pending : option PendingView) : list Effect :=
  match pending with
  | Some pv => [E_reject (pv_promise pv) connection_closed;
                E_clearTimeout (Some (pv_timeout pv))]
  | None => []
  end.

(** What [disconnect] leaves of the requests that were pending in [s0]. *)
Definition closed_out (s0 s' : State) : Prop :=
  _pendingPieceMoves s' = []
  /\ _pendingViewMove s' = None
  /\ exists calls : list Effect,
       trace s' = calls ++ trace s0
       /\ (forall moveToken pending,
             Map_get moveToken (_pendingPieceMoves s0) = Some pending ->
             In (E_reject (pm_promise pending) connection_closed) calls
             /\ In (E_clearTimeout (Some (pm_timeout pending))) calls)
       /\ (forall pending,
             _pendingViewMove s0 = Some pending ->
             In (E_reject (pv_promise pending) connection_closed) calls
             /\ In (E_clearTimeout (Some (pv_timeout pending))) calls).

(** *** Reconnecting *)

(** The number of reconnect timers set in a trace. *)
Fixpoint reconnect_timers (tr : list Effect) : nat :=
  match tr with
  | [] => O
  | E_setTimeout _ T_reconnect :: tr' => S (reconnect_timers tr')
  | _ :: tr' => reconnect_timers tr'
  end.





(** *** Sending with retry *)

Definition client_destroyed : JsError := mkError ClientError "Client destroyed".

(** The messages of the errors that the client itself raises on the way of
    a send: in [_attemptSend], and in [_connect] and [_increment], whose
    rejection [_connectionReady] hands on ([maxConnections] is 20 for
    [ChessClient]). *)
Definition send_path_messages : list string :=
  ["Client destroyed"; "Connection not open"; "Connection failed";
   "Maximum connections (" +:+ pretty 20 +:+ ") exceeded for ChessClient"].

(** The errors of socket and connection that reach [_sendWithRetry] from
    outside [_attemptSend] do not mention "destoyed". *)
Definition outside_errors_plain (env : nat -> Attempt) : Prop :=
  forall n e,
    at_ready (env n) = Some e \/ at_send (env n) = Some e ->
    includes "destoyed" (message e) = false.

(** *** The rate limiter *)

(** The sends let through at a reading in the window [[a, b]]. *)
Definition sends_within (a b : Z) (sent : list Z) : nat :=
  List.length (List.filter (fun t => (a <=? t) && (t <=? b)) sent).

(** The sends let through at a reading up to [b]. *)
Definition sends_upto (b : Z) (sent : list Z) : nat :=
  List.length (List.filter (fun t => t <=? b) sent).

(** The whole sends that the content of the bucket pays for. *)
Definition held (bk : Bucket) : Z := Z.max 0 (Qceiling (_tokens bk)).

(** What the bucket holds, in whole sends, and what is due to it at the
    reading [t] at the rate of [rho] tokens in a millisecond. *)
Definition credit (rho : Q) (bk : Bucket) (t : Z) : Q :=
  (inject_Z (held bk) + rho * inject_Z (t - _lastRefillTime bk))%Q.

(** The bucket at the reading [t]: not over its capacity, and last refilled
    before [t]. *)
Definition bucket_ok (maxRPS : Q) (bk : Bucket) (t : Z) : Prop :=
  Qceiling (_tokens bk) <= Qceiling maxRPS /\ _lastRefillTime bk <= t.

(** The unit roundoff of binary64, [2^-53]. *)
Definition unit_roundoff : Q := 1 # 9007199254740992.

(** The bound on the sends of one second: the capacity and what falls due
    during the second, in whole sends. *)
Definition burst_bound (maxRPS : Q) : Z := 2 * Qceiling maxRPS.

(** The products of a whole rate and a time in milliseconds that make one
    token exactly. *)
Definition one_token_exact : bool :=
  forallb (fun k : nat =>
             let n := Z.of_nat k in
             if 1000 mod n =? 0 then toAdd (inject_Z n) (1000 / n) =? 1 else true)
          (seq 1 1000).

(** *** Sample clients and inputs *)

Definition no_flags : PieceFlags :=
  mkFlags false false false false false false false false.

(** A white rook with id 7. *)
Definition rook7 : PieceData :=
  mkPieceData 7 PIECE_TYPE_ROOK true no_flags 0 0.

Definition rook_100 : Piece := new_Piece 100 100 rook7.

(** A snapshot centered at (100, 100) with the rook in the middle. *)
Definition snapshot_100 : Snapshot :=
  mkSnapshot 100 100 [mkSnapshotPiece 0 0 rook7].

(** A fresh client that has connected and received its first snapshot. *)
Definition client_100 : State :=
  run [Ev_init; Ev_wsOpen; Ev_message (SM_initialState snapshot_100)]
      (new_ChessClient 0 None None).

(** A white rook with id 8. *)
Definition rook8 : PieceData :=
  mkPieceData 8 PIECE_TYPE_ROOK true no_flags 0 0.

(** A snapshot centered at (100, 100) with rook 7 in the middle and rook 8
    fifty squares to the right of it, outside the viewport of 47 squares. *)
Definition snapshot_wide : Snapshot :=
  mkSnapshot 100 100 [mkSnapshotPiece 0 0 rook7; mkSnapshotPiece 50 0 rook8].

(** A fresh client that has connected and received that snapshot. *)
Definition client_wide : State :=
  run [Ev_init; Ev_wsOpen; Ev_message (SM_initialState snapshot_wide)]
      (new_ChessClient 0 None None).

Definition rook_far : Piece := new_Piece 150 100 rook8.




(** A batch of moves that reports the rook one square further. *)
Definition rook_reported : ServerMessage :=
  SM_movesAndCaptures [mkPieceMove 100 101 rook7] [].







(** The client with a view move under way. *)
Definition client_viewing : State := run [Ev_moveView 200 100] client_100.



(** A client that never connected, with a view move under way. *)
Definition client_offline : State :=
  run [Ev_moveView 200 100] (new_ChessClient 0 None None).

(** Every attempt finds the client destroyed. *)
Definition always_destroyed (n : nat) : Attempt := mkAttempt None true false None.

(** Requests at 400, 400, 500 and 1000 ms after the bucket was made. *)
Definition burst : list Z := [400; 400; 500; 1000].

(** *** The store and the viewport of a board *)

(** The keys of the store are distinct, as the keys of a [Map] are. *)
Definition keys_distinct (b : Board) : Prop := List.NoDup (Map_keys (entries b)).

(** Every stored piece carries the coordinates of its key. *)
Definition coords_match (b : Board) : Prop :=
  forall (k : Z * Z) (p : Piece), Map_get k (entries b) = Some p -> (x p, y p) = k.

(** One axis of the viewport: a center in the range of centers with the
    bounds [radius] away from it, or nothing set. *)
Definition axis_ok (r : Z) (center low high : option Z) : Prop :=
  match center with
  | Some v =>
      Board_minCenterCoords <= v <= Board_maxCenterCoords
      /\ low = Some (v - r) /\ high = Some (v + r)
  | None => low = None /\ high = None
  end.

Definition view_ok (b : Board) : Prop :=
  axis_ok (radius b) (_centerX b) (leftX b) (rightX b)
  /\ axis_ok (radius b) (_centerY b) (topY b) (bottomY b).

(** The board of a client: the default length, a sound viewport and a
    sound store. *)
Definition board_ok (b : Board) : Prop :=
  viewLength b = 95 /\ radius b = 47
  /\ view_ok b /\ keys_distinct b /\ coords_match b.

(** A piece passes the filters of a search. *)
Definition passes (fp : FindParams) (piece : Piece) : Prop :=
  (checkType fp = true -> fp_type fp = Some (PieceTypes_number (_type piece)))
  /\ (checkColor fp = true -> fp_color fp = Some (_color piece)).

(** The square [(a, b)] lies in the area of [w] by [h] squares at
    [(x', y')]. *)
Definition in_area (x' y' w h : Z) (a b : Z) : Prop :=
  x' <= a < x' + w /\ y' <= b < y' + h.

(** *** Connections *)

(** The counter of the class stays within the ceiling of [ChessClient]. *)
Definition connections_ok (s : State) : Prop :=
  maxConnections s = Some 20 /\ 0 <= _connections s <= 20.

(** The sockets opened in a trace. *)
Fixpoint sockets_opened (tr : list Effect) : nat :=
  match tr with
  | [] => O
  | E_newWebSocket :: tr' => S (sockets_opened tr')
  | _ :: tr' => sockets_opened tr'
  end.

(** A destroyed client with [n] sockets opened and [m] reconnect timers
    set so far. *)
Definition stays_down (n m : nat) (s : State) : Prop :=
  destroyed s = true
  /\ sockets_opened (trace s) = n
  /\ reconnect_timers (trace s) = m.

(** A client that does not reconnect by itself, with [m] reconnect timers
    set so far. *)
Definition stays_quiet (m : nat) (s : State) : Prop :=
  autoReconnect s = false /\ reconnect_timers (trace s) = m.

Definition is_init (ev : Event) : bool :=
  match ev with
  | Ev_init => true
  | _ => false
  end.

(** A coordinate is near the center of its axis: at most [r] away from it;
    an axis without a center has the bounds [null], which count as 0. *)
Definition axis_near (r : Z) (center : option Z) (v : Z) : Prop :=
  match center with
  | Some c => Z.abs (v - c) <= r
  | None => v = 0
  end.

(** The filters of a search for rooks of any colour. *)
Definition rook_filter : FindParams := mkFindParams true false (Some 3) None.

(** *** Keys as text *)

(** The first part of a list of parts, changed by [f]. *)
Definition map_head (f : string -> string) (l : list string) : list string :=
  match l with
  | [] => []
  | w :: ws => f w :: ws
  end.

(** *** Snapshots *)

(** The square on which a snapshot puts one of its pieces. *)
Definition snapshot_square (snapshot : Snapshot) (item : SnapshotPiece) : Z * Z :=
  (xCoord snapshot + sp_dx item, yCoord snapshot + sp_dy item).

(** The last piece that a snapshot puts on the square [(a, c)]. *)
Definition last_at (snapshot : Snapshot) (a c : Z) : option SnapshotPiece :=
  List.find (fun item => bool_decide (snapshot_square snapshot item = (a, c)))
            (rev (pieces snapshot)).

(** A snapshot whose center lies left of the range of centers. *)
Definition snapshot_off : Snapshot := mkSnapshot 1 100 [mkSnapshotPiece 0 0 rook7].

(** * Theorems *)

(** C1: for every piece built from (type, colour, moveCount), every origin,
    destination and move kind, [canMoveTo] returns the boolean of the
    documented rule table: too far (Chebyshev distance above 25) and
    zero-delta moves are rejected, castle needs a king with |dx|=2 and dy=0,
    en passant needs a pawn and then follows the pawn rule, and otherwise the
    per-type rule decides. *)
Theorem canMoveTo_rule_table :
  forall (data : PieceData) (x1 y1 x2 y2 : Z) (kind : MoveTypes),
    Piece_canMoveTo (new_Piece x1 y1 data) x2 y2 kind
    = rule_table (d_type data) (d_isWhite data) (d_moveCount data)
                 (x2 - x1) (y2 - y1) kind.
Proof.
  intros [i t w f m c] x1 y1 x2 y2 kind.
  unfold Piece_canMoveTo, rule_table, Board_distance, chebyshev,
    Piece_maxMoveDistance; simpl.
  rewrite Z.gtb_ltb.
  destruct (25 <? _) eqn:Hfar; [reflexivity|].
  destruct ((x2 - x1 =? 0) && (y2 - y1 =? 0)) eqn:Hzero; [reflexivity|].
  assert (Hrule : Piece_typeRule (new_Piece x1 y1 (mkPieceData i t w f m c))
                    (Z.max (Z.abs (x2 - x1)) (Z.abs (y2 - y1)))
                    (x2 - x1) (y2 - y1)
                  = rule_of_type t w m (x2 - x1) (y2 - y1)).
  { unfold Piece_typeRule, rule_of_type, chebyshev, eq_direction, forward; simpl.
    destruct t; try reflexivity.
    destruct w; simpl;
      destruct (x2 - x1 =? 0) eqn:Hdx; simpl;
      rewrite ?Z.mul_1_l, ?Z.mul_1_r, ?orb_false_r;
      try reflexivity.
    - apply Z.eqb_eq in Hdx. rewrite Hdx. simpl.
      rewrite orb_false_r, andb_comm. reflexivity.
    - destruct (Z.abs (x2 - x1) =? 1), (y2 - y1 =? -1); reflexivity.
    - apply Z.eqb_eq in Hdx. rewrite Hdx. simpl.
      rewrite orb_false_r, andb_comm. reflexivity.
    - destruct (Z.abs (x2 - x1) =? 1), (y2 - y1 =? 1); reflexivity. }
  destruct kind.
  - exact Hrule.
  - destruct t; reflexivity.
  - rewrite Hrule. destruct t; reflexivity.
Qed.

(** ** Lookup after [set] and [delete] *)

Section JsMapFacts.
Context {K V : Type} `{EqDecision K}.
Implicit Types (m : JsMap K V) (k : K) (v : V).

Lemma Map_get_set k k' v m :
  Map_get k' (Map_set k v m) = if decide (k = k') then Some v else Map_get k' m.
Proof.
  induction m as [|[k0 v0] m IH]; simpl.
  - destruct (decide (k' = k)), (decide (k = k')); congruence.
  - destruct (decide (k = k0)) as [->|Hne]; simpl.
    + destruct (decide (k' = k0)), (decide (k0 = k')); congruence.
    + rewrite IH.
      destruct (decide (k' = k0)), (decide (k = k')); congruence.
Qed.

Lemma Map_get_delete k k' m :
  Map_get k' (Map_delete k m) = if decide (k = k') then None else Map_get k' m.
Proof.
  induction m as [|[k0 v0] m IH]; simpl.
  - destruct (decide (k = k')); reflexivity.
  - destruct (decide (k = k0)) as [->|Hne]; simpl.
    + rewrite IH. destruct (decide (k0 = k')), (decide (k' = k0)); congruence.
    + rewrite IH.
      destruct (decide (k' = k0)), (decide (k = k')); congruence.
Qed.

Lemma Map_has_get k m : Map_has k m = true <-> is_Some (Map_get k m).
Proof.
  unfold Map_has. destruct (Map_get k m) as [v|]; split; intros Hx.
  - by exists v.
  - reflexivity.
  - discriminate.
  - by destruct Hx.
Qed.
End JsMapFacts.

(** ** Board.movePiece *)

Lemma canMoveTo_not_in_place (p : Piece) (toX toY : Z) (type : MoveTypes) :
  Piece_canMoveTo p toX toY type = true -> (toX, toY) <> (x p, y p).
Proof.
  unfold Piece_canMoveTo. intros Hcan [= -> ->].
  destruct (_ >? _); [discriminate|].
  rewrite !Z.sub_diag in Hcan. simpl in Hcan. discriminate.
Qed.

(** C2, as the code has it: for every board and piece, and every destination
    in the viewport that the validator accepts, when the piece itself lies
    in the viewport or validation is off, [movePiece] returns; afterwards
    the old coordinate key no longer resolves, the piece carries the
    destination coordinates, its captureCount went up by one when the
    destination was occupied or a capture was requested and its moveCount
    went up by one otherwise, and the piece is stored under the destination
    key. *)
Theorem movePiece_relocates :
  forall (b : Board) (p : Piece) (toX toY : Z) (type : MoveTypes)
         (capture validate : bool),
    (validate = true -> Board_pieceInBounds b (x p) (y p) = true) ->
    Board_pieceInBounds b toX toY = true ->
    Piece_canMoveTo p toX toY type = true ->
    exists (p' : Piece) (b' : Board),
      Board_movePiece b (Some p) toX toY type capture validate = Ok (p', b')
      /\ Map_get (x p, y p) (entries b') = None
      /\ Board_get b' (x p) (y p) validate = None
      /\ x p' = toX /\ y p' = toY
      /\ (if capture || Map_has (toX, toY) (entries b)
          then captureCount p' = captureCount p + 1 /\ moveCount p' = moveCount p
          else moveCount p' = moveCount p + 1 /\ captureCount p' = captureCount p)
      /\ id p' = id p /\ _type p' = _type p /\ _color p' = _color p
      /\ Map_get (toX, toY) (entries b') = Some p'
      /\ Board_get b' toX toY validate = Some p'.
Proof.
  intros b p toX toY type capture validate Hpiece Hdest Hcan.
  pose proof (canMoveTo_not_in_place _ _ _ _ Hcan) as Hne.
  unfold Board_movePiece, Board__validatePieceMove.
  assert (Hchk : (if validate
                  then if negb (Board_pieceInBounds b (x p) (y p))
                       then Throw (mkError ChessError
                              "Can't move piece that's outside of board bounds")
                       else if negb (Board_pieceInBounds b toX toY)
                       then Throw (mkError ChessError
                              "Can't move piece to outside of board bounds")
                       else if negb (Piece_canMoveTo p toX toY type)
                       then Throw (mkError ChessError
                              ("Can't move piece to: " +:+ pretty toX +:+ ", "
                                 +:+ pretty toY))
                       else Ok tt
                  else Ok tt) = Ok tt).
  { destruct validate; [|reflexivity].
    rewrite (Hpiece eq_refl), Hdest, Hcan. reflexivity. }
  rewrite Hchk. clear Hchk.
  assert (Hdel : snd (Board_delete b (x p) (y p) validate)
                 = with_entries b (Map_delete (x p, y p) (entries b))).
  { unfold Board_delete. destruct validate; simpl; [|reflexivity].
    rewrite (Hpiece eq_refl). reflexivity. }
  rewrite Hdel. clear Hdel.
  set (b1 := with_entries b (Map_delete (x p, y p) (entries b))).
  assert (Hin1 : forall u v, Board_pieceInBounds b1 u v = Board_pieceInBounds b u v)
    by reflexivity.
  assert (Hhas : Board_has b1 toX toY validate = Map_has (toX, toY) (entries b)).
  { unfold Board_has. rewrite Hin1, Hdest, andb_false_r.
    unfold Map_has, Board__getCoordsKey, b1; simpl.
    rewrite Map_get_delete. destruct (decide (_ = _)) as [Heq|]; [|reflexivity].
    exfalso. apply Hne. symmetry. exact Heq. }
  rewrite Hhas.
  set (p' := if capture || Map_has (toX, toY) (entries b)
             then Piece_capture p toX toY validate
             else Piece_move p toX toY validate).
  exists p', (Board_set b1 toX toY (APiece p') validate).
  assert (Hset : entries (Board_set b1 toX toY (APiece p') validate)
                 = Map_set (toX, toY) p' (Map_delete (x p, y p) (entries b))).
  { unfold Board_set. rewrite Hin1, Hdest, andb_false_r. reflexivity. }
  assert (Hin2 : forall u v,
             Board_pieceInBounds (Board_set b1 toX toY (APiece p') validate) u v
             = Board_pieceInBounds b u v).
  { intros u v. unfold Board_set. rewrite Hin1, Hdest, andb_false_r. reflexivity. }
  assert (Hold : Map_get (x p, y p)
                   (entries (Board_set b1 toX toY (APiece p') validate)) = None).
  { rewrite Hset, Map_get_set, Map_get_delete.
    destruct (decide ((toX, toY) = (x p, y p))); [contradiction|].
    destruct (decide (_ = _)); congruence. }
  assert (Hnew : Map_get (toX, toY)
                   (entries (Board_set b1 toX toY (APiece p') validate)) = Some p').
  { rewrite Hset, Map_get_set. destruct (decide (_ = _)); congruence. }
  repeat split; try assumption.
  - unfold Board_get. destruct (_ && _); [reflexivity | exact Hold].
  - unfold p'. destruct (_ || _); reflexivity.
  - unfold p'. destruct (_ || _); reflexivity.
  - unfold p'. destruct (capture || _); simpl; split; reflexivity.
  - unfold p'. destruct (_ || _); reflexivity.
  - unfold p'. destruct (_ || _); reflexivity.
  - unfold p'. destruct (_ || _); reflexivity.
  - unfold Board_get. rewrite Hin2, Hdest, andb_false_r. exact Hnew.
Qed.

(** ** Keys of a [Map] stay distinct *)

Section JsMapKeys.
Context {K V : Type} `{EqDecision K}.
Implicit Types (m : JsMap K V) (k : K) (v : V).

Lemma Map_keys_set_in k k' v m :
  In k' (Map_keys (Map_set k v m)) -> k' = k \/ In k' (Map_keys m).
Proof.
  induction m as [|[k0 v0] m IH]; simpl.
  - intros [<-|[]]. by left.
  - destruct (decide (k = k0)) as [->|Hne]; simpl.
    + intros [<-|Hin]; [by left | right; by right].
    + intros [<-|Hin]; [right; by left|].
      destruct (IH Hin) as [->|Hin']; [by left | right; by right].
Qed.

Lemma Map_keys_delete_in k k' m :
  In k' (Map_keys (Map_delete k m)) -> In k' (Map_keys m).
Proof.
  induction m as [|[k0 v0] m IH]; simpl; [done|].
  destruct (decide (k = k0)) as [->|Hne]; simpl.
  - intros Hin. right. by apply IH.
  - intros [<-|Hin]; [by left | right; by apply IH].
Qed.

Lemma Map_keys_set_NoDup k v m :
  List.NoDup (Map_keys m) -> List.NoDup (Map_keys (Map_set k v m)).
Proof.
  induction m as [|[k0 v0] m IH]; simpl; intros Hnd.
  - constructor; [intros [] | constructor].
  - inversion Hnd as [|? ? Hnotin Hnd']; subst.
    destruct (decide (k = k0)) as [->|Hne]; simpl.
    + by constructor.
    + constructor; [|by apply IH].
      intros Hin. destruct (Map_keys_set_in _ _ _ _ Hin) as [->|Hin']; done.
Qed.

Lemma Map_keys_delete_NoDup k m :
  List.NoDup (Map_keys m) -> List.NoDup (Map_keys (Map_delete k m)).
Proof.
  induction m as [|[k0 v0] m IH]; simpl; intros Hnd; [constructor|].
  inversion Hnd as [|? ? Hnotin Hnd']; subst.
  destruct (decide (k = k0)) as [->|Hne]; simpl; [by apply IH|].
  constructor; [|by apply IH].
  intros Hin. apply Hnotin. by eapply Map_keys_delete_in.
Qed.
End JsMapKeys.

(** ** Properties kept by the code of the client *)

Section Preserves.
Context (P : State -> Prop).

Lemma preserves_ret {A} (a : A) : preserves P (ret a).
Proof. by intros s. Qed.

Lemma preserves_throw {A} (e : JsError) : preserves P (@throw A e).
Proof. by intros s. Qed.

Lemma preserves_gets {A} (f : State -> A) : preserves P (gets f).
Proof. by intros s. Qed.

Lemma preserves_bind {A B} (m : M A) (f : A -> M B) :
  preserves P m -> (forall a, preserves P (f a)) -> preserves P (bind m f).
Proof.
  intros Hm Hf s Hs. unfold bind.
  specialize (Hm s Hs). destruct (m s) as [[a|e] s']; simpl in *.
  - by apply Hf.
  - done.
Qed.

Lemma preserves_modify (f : State -> State) :
  (forall s, P s -> P (f s)) -> preserves P (modify f).
Proof. intros Hf s Hs. by apply Hf. Qed.

Lemma preserves_when (c : bool) (m : M unit) :
  preserves P m -> preserves P (when c m).
Proof. intros Hm. destruct c; [done | apply preserves_ret]. Qed.

Lemma preserves_forEach {A} (l : list A) (f : A -> M unit) :
  (forall a, preserves P (f a)) -> preserves P (forEach l f).
Proof.
  intros Hf. induction l as [|a l IH]; simpl.
  - apply preserves_ret.
  - apply preserves_bind; [apply Hf | intros _; apply IH].
Qed.

Lemma preserves_try_log (m : M unit) : preserves P m -> preserves P (try_log m).
Proof. intros Hm s Hs. by apply Hm. Qed.

Lemma preserves_on_board {A} (f : Board -> Result (A * Board)) :
  (forall s b, P s -> P (set_board s b)) -> preserves P (on_board f).
Proof.
  intros Hb s Hs. unfold on_board.
  destruct (f (board s)) as [[a b']|e]; simpl; [by apply Hb | done].
Qed.

Lemma preserves_async {A} (m : M A) : preserves P m -> preserves P (async m).
Proof.
  intros Hm s Hs. specialize (Hm s Hs). unfold async.
  by destruct (m s) as [[a|e] s'].
Qed.
End Preserves.

(** Breaks a piece of client code into its steps; what is left are the
    updates of the state. *)
Ltac preserves_steps :=
  repeat first
    [ progress cbv beta
    | match goal with
      | |- preserves _ (ret _) => apply preserves_ret
      | |- preserves _ (throw _) => apply preserves_throw
      | |- preserves _ (gets _) => apply preserves_gets
      | |- preserves _ (bind _ _) => apply preserves_bind; [|intros ?]
      | |- preserves _ (when false _) => apply (preserves_ret _ tt)
      | |- preserves _ (when _ _) => apply preserves_when
      | |- preserves _ (forEach _ _) => apply preserves_forEach; intros ?
      | |- preserves _ (try_log _) => apply preserves_try_log
      | |- preserves _ (async _) => apply preserves_async
      | |- preserves _ (modify _) => apply preserves_modify; intros ? ?
      | |- preserves _ (on_board _) => apply preserves_on_board; intros ? ? ?
      | |- preserves _ (match ?x with _ => _ end) => destruct x
      | |- preserves _ (if ?c then _ else _) => destruct c
      | |- preserves _ (let _ := _ in _) => cbv zeta
      end ].

(** ** Move tokens *)

Lemma getIncrMoveToken_eq (s : State) :
  ChessClient__getIncrMoveToken s
  = let t := if 65535 <=? _moveToken s then 1 else _moveToken s + 1 in
    (Ok t, set__moveToken s t).
Proof.
  unfold ChessClient__getIncrMoveToken, bind, gets, when, modify.
  rewrite Z.geb_leb. change ChessClient__maxMoveToken with 65535.
  destruct (65535 <=? _moveToken s); reflexivity.
Qed.

Lemma movePiece_eq (s : State) (p : Piece) (toX toY : Z) (type : MoveTypes) :
  Board__validatePieceMove (board s) p toX toY type = Ok tt ->
  ChessClient_movePiece (Some p) toX toY type s
  = let t := if 65535 <=? _moveToken s then 1 else _moveToken s + 1 in
    (Ok (Resolved (nextPromise s, t)),
     set_trace
       (set__pendingPieceMoves
          (set_nextHandle (set_nextPromise (set__moveToken s t) (S (nextPromise s)))
             (S (nextHandle s)))
          (Map_set t (mkPendingMove (nextPromise s) p (x p) (y p) toX toY (nextHandle s))
             (_pendingPieceMoves s)))
       (E_sendRequest (CM_move (id p) (x p) (y p) toX toY type t)
        :: E_setTimeout (nextHandle s) (T_moveTimeout t) :: trace s)).
Proof.
  intros Hvalid. unfold ChessClient_movePiece, async.
  unfold bind at 1, gets at 1. rewrite Hvalid.
  unfold bind at 1. rewrite getIncrMoveToken_eq.
  destruct s. reflexivity.
Qed.













(** ** Piece ids across a board *)

Lemma ids_unique_delete (b : Board) (k : Z * Z) :
  ids_unique b -> ids_unique (with_entries b (Map_delete k (entries b))).
Proof.
  intros Hu k1 k2 p1 p2. simpl. rewrite !Map_get_delete.
  destruct (decide (k = k1)); [done|]. destruct (decide (k = k2)); [done|].
  apply Hu.
Qed.


Lemma Board_delete_ids_unique (b : Board) (x' y' : Z) (validate : bool) :
  ids_unique b -> ids_unique (snd (Board_delete b x' y' validate)).
Proof.
  intros Hu. unfold Board_delete.
  destruct (validate && _); simpl; [done | by apply ids_unique_delete].
Qed.


Lemma Board_capturePiece_ids_unique (b b' : Board) (piece r : option Piece)
    (validate : bool) :
  ids_unique b -> Board_capturePiece b piece validate = Ok (r, b') -> ids_unique b'.
Proof.
  intros Hu. unfold Board_capturePiece.
  destruct piece as [p|].
  - intros [= _ <-]. by apply Board_delete_ids_unique.
  - destruct validate; [done|]. by intros [= _ <-].
Qed.

Lemma performAction_capture_ids_unique (b b' : Board) (found r : option Piece)
    (validate : bool) :
  ids_unique b ->
  Board__performAction found validate
    (fun piece => Board_capturePiece b piece validate) = Ok (r, b') ->
  ids_unique b'.
Proof.
  intros Hu. unfold Board__performAction.
  destruct found as [p|]; [by apply Board_capturePiece_ids_unique|].
  destruct validate; [done|]. by apply Board_capturePiece_ids_unique.
Qed.



Lemma hoare_bind {A B} (P R Q : State -> Prop) (m : M A) (f : A -> M B) :
  hoare P m R -> (forall s, R s -> Q s) -> (forall a, hoare R (f a) Q) ->
  hoare P (bind m f) Q.
Proof.
  intros Hm HRQ Hf s Hs. unfold bind. specialize (Hm s Hs).
  destruct (m s) as [[a|e] s']; simpl in *; [by apply Hf | by apply HRQ].
Qed.










(** ** A small board: one rook in the middle of the view *)

Lemma client_100_entries :
  entries (board client_100) = [((100, 100), new_Piece 100 100 rook7)].
Proof. reflexivity. Qed.

Lemma client_100_ids_unique : ids_unique (board client_100).
Proof.
  intros k1 k2 p1 p2. rewrite client_100_entries. simpl.
  destruct (decide (k1 = (100, 100))) as [->|]; [|done].
  destruct (decide (k2 = (100, 100))) as [->|]; done.
Qed.

Lemma movePiece_relocates_witness :
  (true = true ->
   Board_pieceInBounds (board client_100) (x rook_100) (y rook_100) = true)
  /\ Board_pieceInBounds (board client_100) 100 101 = true
  /\ Piece_canMoveTo rook_100 100 101 MOVE_TYPE_NORMAL = true
  /\ exists (p' : Piece) (b' : Board),
      Board_movePiece (board client_100) (Some rook_100) 100 101
        MOVE_TYPE_NORMAL false true = Ok (p', b')
      /\ Map_get (x rook_100, y rook_100) (entries b') = None
      /\ Board_get b' (x rook_100) (y rook_100) true = None
      /\ x p' = 100 /\ y p' = 101
      /\ (if false || Map_has (100, 101) (entries (board client_100))
          then captureCount p' = captureCount rook_100 + 1
               /\ moveCount p' = moveCount rook_100
          else moveCount p' = moveCount rook_100 + 1
               /\ captureCount p' = captureCount rook_100)
      /\ id p' = id rook_100 /\ _type p' = _type rook_100
      /\ _color p' = _color rook_100
      /\ Map_get (100, 101) (entries b') = Some p'
      /\ Board_get b' 100 101 true = Some p'.
Proof.
  split; [intros _; reflexivity|].
  split; [reflexivity|].
  split; [reflexivity|].
  apply (movePiece_relocates (board client_100) rook_100 100 101
           MOVE_TYPE_NORMAL false true);
    [intros _; reflexivity | reflexivity | reflexivity].
Defined.

(** C2 as stated fails: the first snapshot stores rook 8 at (150, 100),
    outside the viewport 53..147 of the board; the validator accepts its
    move to (147, 100), a square of the viewport, and [movePiece] with
    validation throws on its first check: nothing is moved. *)
Lemma movePiece_refuses_piece_outside_view :
  Board_get (board client_wide) 150 100 false = Some rook_far
  /\ Board_pieceInBounds (board client_wide) 150 100 = false
  /\ Board_pieceInBounds (board client_wide) 147 100 = true
  /\ Piece_canMoveTo rook_far 147 100 MOVE_TYPE_NORMAL = true
  /\ Board_movePiece (board client_wide) (Some rook_far) 147 100
       MOVE_TYPE_NORMAL false true
     = Throw (mkError ChessError "Can't move piece that's outside of board bounds").
Proof. repeat split; reflexivity. Qed.



(** The handler of moves and captures sets a piece that is reported on a
    new square without taking it from its old one, as the handler of a
    confirmed move does through [movePiece]: the id is then held twice. *)
Lemma movesAndCaptures_keeps_old_entry :
  Board_get (board (exec (ChessClient__handleServerMessage rook_reported) client_100))
    100 100 true = Some (new_Piece 100 100 rook7)
  /\ Board_get (board (exec (ChessClient__handleServerMessage rook_reported) client_100))
       100 101 true = Some (new_Piece 100 101 rook7).
Proof. split; reflexivity. Qed.


(** ** View moves *)

(** An [async] function never throws to its caller. *)
Lemma async_never_throws {A : Type} (m : M A) (s : State) (e : JsError) :
  fst (async m s) <> Throw e.
Proof. unfold async. by destruct (m s) as [[a|e'] s']. Qed.

(** C7, as the code has it: while a view move is pending, [moveView]
    returns at once a promise that is rejected with "Already waiting for
    view move"; [moveView] is an [async] function and throws nothing to its
    caller.  Nothing is validated (the coordinates may be any), no timer is
    set, nothing is handed to the transport, and the state, with the pending
    entry, is as before; the slot holds at most one entry. *)
Theorem moveView_while_pending :
  forall (s : State) (centerX centerY : Z),
    is_Some (_pendingViewMove s) ->
    ChessClient_moveView centerX centerY s
    = (Ok (Rejected (mkError ChessError "Already waiting for view move")), s).
Proof.
  intros s centerX centerY [pv Hpv].
  unfold ChessClient_moveView, async, bind, gets. rewrite Hpv. reflexivity.
Qed.

Lemma moveView_while_pending_witness :
  is_Some (_pendingViewMove client_viewing)
  /\ ChessClient_moveView 300 300 client_viewing
     = (Ok (Rejected (mkError ChessError "Already waiting for view move")),
        client_viewing).
Proof.
  split; [by eexists|].
  apply (moveView_while_pending client_viewing 300 300). by eexists.
Defined.

(** C7 as stated fails: with a view move pending, the second call throws no
    error in the call; it returns, and what it returns is a rejected
    promise. *)
Lemma moveView_while_pending_returns :
  is_Some (_pendingViewMove client_viewing)
  /\ fst (ChessClient_moveView 300 300 client_viewing)
     = Ok (Rejected (mkError ChessError "Already waiting for view move"))
  /\ fst (ChessClient_moveView 300 300 client_viewing)
     <> Throw (mkError ChessError "Already waiting for view move").
Proof.
  split; [by eexists|]. split; [reflexivity | discriminate].
Qed.

Lemma validateCenterCoords_in_range (cx cy : Z) (msgType : CenterMsg) :
  Board_minCenterCoords <= cx <= Board_maxCenterCoords ->
  Board_minCenterCoords <= cy <= Board_maxCenterCoords ->
  Board__validateCenterCoords (Some cx) (Some cy) msgType = Ok tt.
Proof.
  intros Hx Hy. unfold Board__validateCenterCoords, center_out_of_range.
  rewrite !Z.gtb_ltb.
  destruct (Z.ltb_spec cx Board_minCenterCoords); [lia|].
  destruct (Z.ltb_spec Board_maxCenterCoords cx); [lia|].
  destruct (Z.ltb_spec cy Board_minCenterCoords); [lia|].
  destruct (Z.ltb_spec Board_maxCenterCoords cy); [lia|].
  reflexivity.
Qed.

(** C9, as the code has it: with no view move pending and center
    coordinates in range, a view move whose Chebyshev distance from the
    current center of the board (an unset center counts as 0) is below 12
    returns a promise that is rejected with "Move distance ... too short";
    the [async] function throws nothing to its caller.  Nothing is sent, no
    timer is set and the slot stays empty. *)
Theorem moveView_too_short :
  forall (s : State) (centerX centerY : Z),
    _pendingViewMove s = None ->
    Board_minCenterCoords <= centerX <= Board_maxCenterCoords ->
    Board_minCenterCoords <= centerY <= Board_maxCenterCoords ->
    let dist := chebyshev (centerX - num (_centerX (board s)))
                          (centerY - num (_centerY (board s))) in
    dist < ChessClient_minViewDist ->
    ChessClient_minViewDist = 12
    /\ ChessClient_moveView centerX centerY s
       = (Ok (Rejected (mkError ChessError
                          ("Move distance " +:+ pretty dist +:+ " too short"))),
          s)
    /\ _pendingViewMove (snd (ChessClient_moveView centerX centerY s)) = None
    /\ trace (snd (ChessClient_moveView centerX centerY s)) = trace s.
Proof.
  intros s centerX centerY Hnone Hx Hy dist Hshort.
  assert (Hmv : ChessClient_moveView centerX centerY s
                = (Ok (Rejected (mkError ChessError
                         ("Move distance " +:+ pretty dist +:+ " too short"))), s)).
  { unfold ChessClient_moveView, async, bind, gets. rewrite Hnone.
    rewrite (validateCenterCoords_in_range _ _ _ Hx Hy).
    unfold Board_distance. fold (chebyshev (centerX - num (_centerX (board s)))
                                           (centerY - num (_centerY (board s)))).
    fold dist. destruct (Z.ltb_spec dist ChessClient_minViewDist); [reflexivity | lia]. }
  rewrite Hmv. simpl. repeat split; try reflexivity; exact Hnone.
Qed.

Lemma moveView_too_short_witness :
  _pendingViewMove client_100 = None
  /\ Board_minCenterCoords <= 105 <= Board_maxCenterCoords
  /\ Board_minCenterCoords <= 96 <= Board_maxCenterCoords
  /\ chebyshev (105 - num (_centerX (board client_100)))
               (96 - num (_centerY (board client_100))) < ChessClient_minViewDist
  /\ ChessClient_moveView 105 96 client_100
     = (Ok (Rejected (mkError ChessError "Move distance 5 too short")), client_100).
Proof.
  assert (Hx : Board_minCenterCoords <= 105 <= Board_maxCenterCoords)
    by (vm_compute; split; discriminate).
  assert (Hy : Board_minCenterCoords <= 96 <= Board_maxCenterCoords)
    by (vm_compute; split; discriminate).
  assert (Hd : chebyshev (105 - num (_centerX (board client_100)))
                         (96 - num (_centerY (board client_100)))
               < ChessClient_minViewDist) by reflexivity.
  split; [reflexivity|]. split; [exact Hx|]. split; [exact Hy|]. split; [exact Hd|].
  exact (proj1 (proj2 (moveView_too_short client_100 105 96 eq_refl Hx Hy Hd))).
Defined.

(** C9 as stated fails: the call for a center 5 squares away throws no error
    in the call; it returns, and what it returns is a rejected promise. *)
Lemma moveView_too_short_returns :
  _pendingViewMove client_100 = None
  /\ Board_distance (num (_centerX (board client_100)))
                    (num (_centerY (board client_100))) 105 96 false = 5
  /\ fst (ChessClient_moveView 105 96 client_100)
     = Ok (Rejected (mkError ChessError "Move distance 5 too short"))
  /\ fst (ChessClient_moveView 105 96 client_100)
     <> Throw (mkError ChessError "Move distance 5 too short").
Proof.
  split; [reflexivity|]. split; [reflexivity|]. split; [reflexivity | discriminate].
Qed.

(** ** Disconnecting *)

Lemma forEach_reject (l : list PendingMove) (s : State) :
  forEach l (fun pending =>
    clearTimeout (Some (pm_timeout pending)) ;;;
    emit (E_reject (pm_promise pending) connection_closed)) s
  = (Ok tt, set_trace s (reject_calls l ++ trace s)).
Proof.
  revert s. induction l as [|pending l IH]; intros s.
  - destruct s; reflexivity.
  - simpl. unfold bind at 1. unfold bind at 1. unfold clearTimeout, emit, modify at 1 2.
    rewrite IH. simpl. unfold reject_calls. simpl.
    rewrite <- !app_assoc. reflexivity.
Qed.

Lemma Map_get_values {K V : Type} `{EqDecision K} (m : JsMap K V) (k : K) (v : V) :
  Map_get k m = Some v -> In v (Map_values m).
Proof.
  induction m as [|[k0 v0] m IH]; simpl; [done|].
  destruct (decide (k = k0)); [intros [= ->]; by left | right; by apply IH].
Qed.

Lemma reject_calls_in (l : list PendingMove) (pending : PendingMove) :
  In pending l ->
  In (E_reject (pm_promise pending) connection_closed) (reject_calls l)
  /\ In (E_clearTimeout (Some (pm_timeout pending))) (reject_calls l).
Proof.
  intros Hin. unfold reject_calls. rewrite <- !in_rev, !in_flat_map.
  split; exists pending; (split; [done|]); simpl; auto.
Qed.

Lemma rejectPendingRequests_eq (s : State) :
  ChessClient__rejectPendingRequests s
  = (Ok tt,
     set__pendingViewMove
       (set__pendingPieceMoves
          (set_trace s
             (reject_view_calls (_pendingViewMove s)
                ++ reject_calls (Map_values (_pendingPieceMoves s)) ++ trace s))
          [])
       None).
Proof.
  unfold ChessClient__rejectPendingRequests.
  unfold bind at 1. unfold gets at 1. unfold bind at 1.
  rewrite forEach_reject.
  destruct s as [mc conns mr rd ws cn ds ar rc ra rt pi po bd tm tc mt pend pv nh np tr].
  destruct pv as [pv|]; reflexivity.
Qed.

(** ** Code that returns and keeps a property *)

Section Steady.
Context (P : State -> Prop).

Lemma steady_ret {A} (a : A) : steady P (ret a).
Proof. intros s Hs. split; [by exists a | done]. Qed.

Lemma steady_gets {A} (f : State -> A) : steady P (gets f).
Proof. intros s Hs. split; [by eexists | done]. Qed.

Lemma steady_modify (f : State -> State) :
  (forall s, P s -> P (f s)) -> steady P (modify f).
Proof. intros Hf s Hs. split; [by exists tt | by apply Hf]. Qed.

Lemma steady_bind {A B} (m : M A) (f : A -> M B) :
  steady P m -> (forall a, steady P (f a)) -> steady P (bind m f).
Proof.
  intros Hm Hf s Hs. unfold bind.
  destruct (Hm s Hs) as [[a Ha] Hs']. destruct (m s) as [r s']; simpl in *.
  subst r. by apply Hf.
Qed.

Lemma steady_when (c : bool) (m : M unit) : steady P m -> steady P (when c m).
Proof. intros Hm. destruct c; [done | apply steady_ret]. Qed.

Lemma steady_forEach {A} (l : list A) (f : A -> M unit) :
  (forall a, steady P (f a)) -> steady P (forEach l f).
Proof.
  intros Hf. induction l as [|a l IH]; simpl.
  - apply steady_ret.
  - apply steady_bind; [apply Hf | intros _; apply IH].
Qed.
End Steady.

Ltac steady_steps :=
  repeat first
    [ progress cbv beta
    | match goal with
      | |- steady _ (ret _) => apply steady_ret
      | |- steady _ (gets _) => apply steady_gets
      | |- steady _ (bind _ _) => apply steady_bind; [|intros ?]
      | |- steady _ (when false _) => apply (steady_ret _ tt)
      | |- steady _ (when _ _) => apply steady_when
      | |- steady _ (forEach _ _) => apply steady_forEach; intros ?
      | |- steady _ (modify _) => apply steady_modify; intros ? ?
      | |- steady _ (match ?x with _ => _ end) => destruct x
      | |- steady _ (if ?c then _ else _) => destruct c
      | |- steady _ (let _ := _ in _) => cbv zeta
      end ].

Lemma bind_returns {A B} (m : M A) (f : A -> M B) (s s1 : State) (a : A) :
  m s = (Ok a, s1) -> bind m f s = f a s1.
Proof. intros Hm. unfold bind. by rewrite Hm. Qed.

Lemma decrement_counted (s : State) :
  maxConnections s = None \/ 0 < _connections s ->
  WsClient__decrement s
  = (Ok tt, match maxConnections s with
            | Some _ => set__connections s (_connections s - 1)
            | None => s
            end).
Proof.
  intros Hcount. unfold WsClient__decrement, bind, gets, modify, throw, ret.
  destruct (maxConnections s) as [limit|]; [|reflexivity].
  destruct Hcount as [|Hpos]; [done|].
  destruct (Z.leb_spec (_connections s) 0); [lia | reflexivity].
Qed.

Lemma closed_out_emit (s0 s' : State) (e : Effect) :
  closed_out s0 s' -> closed_out s0 (set_trace s' (e :: trace s')).
Proof.
  intros (Hp & Hv & calls & Htr & Hmoves & Hview).
  split; [exact Hp|]. split; [exact Hv|].
  exists (e :: calls). simpl. rewrite Htr. split; [reflexivity|].
  split.
  - intros moveToken pending Hget. destruct (Hmoves _ _ Hget). split; by right.
  - intros pending Hget. destruct (Hview _ Hget). split; by right.
Qed.

Lemma closed_out_rejected (s0 s : State) :
  _pendingPieceMoves s = _pendingPieceMoves s0 ->
  _pendingViewMove s = _pendingViewMove s0 ->
  trace s = trace s0 ->
  closed_out s0 (snd (ChessClient__rejectPendingRequests s)).
Proof.
  intros Hp Hv Htr. rewrite rejectPendingRequests_eq. simpl.
  split; [reflexivity|]. split; [reflexivity|].
  exists (reject_view_calls (_pendingViewMove s)
            ++ reject_calls (Map_values (_pendingPieceMoves s))).
  rewrite Hp, Hv, Htr, <- app_assoc. split; [reflexivity|]. split.
  - intros moveToken pending Hget.
    destruct (reject_calls_in _ _ (Map_get_values _ _ _ Hget)).
    split; apply in_or_app; by right.
  - intros pending ->. split; apply in_or_app; left; simpl; auto.
Qed.

Lemma disconnect_tail_steady (s0 : State) (code : Z) :
  steady (fun s => closed_out s0 s /\ autoReconnect s = false)
    (ChessClient__clearTimers ;;;
     WsClient__cleanupSocket ;;;
     auto <- gets autoReconnect ;;
     when auto
       (let wasError := negb (code =? 1000) in
        WsClient__scheduleReconnect wasError)).
Proof.
  unfold ChessClient__clearTimers, WsClient__clearTimers, WsClient__cleanupSocket,
    clearTimeout, emit.
  assert (Hemit : forall s h,
             closed_out s0 s /\ autoReconnect s = false ->
             closed_out s0 (set_trace s (h :: trace s))
             /\ autoReconnect (set_trace s (h :: trace s)) = false).
  { intros s h [Hc Hauto]. split; [by apply closed_out_emit | exact Hauto]. }
  apply steady_bind; [|intros _].
  { steady_steps; first [by apply Hemit | assumption]. }
  apply steady_bind; [|intros _].
  { steady_steps; first [by apply Hemit | assumption]. }
  intros s [Hc Hauto]. unfold bind, gets. rewrite Hauto. simpl. split; [by exists tt | done].
Qed.

(** Where the connection counter of the class can be taken down (no ceiling
    on connections, as for [WsClient] itself, or a positive count),
    [disconnect()] returns, calls [reject] with a "Connection closed" error
    for every pending move and for the pending view move, clears the timer
    of each of them, and leaves both pending tables empty. *)
Theorem disconnect_rejects_pending :
  forall (s : State),
    maxConnections s = None \/ 0 < _connections s ->
    exists (s' : State) (calls : list Effect),
      WsClient_disconnect s = (Ok tt, s')
      /\ trace s' = calls ++ trace s
      /\ _pendingPieceMoves s' = []
      /\ _pendingViewMove s' = None
      /\ (forall moveToken pending,
            Map_get moveToken (_pendingPieceMoves s) = Some pending ->
            In (E_reject (pm_promise pending) connection_closed) calls
            /\ In (E_clearTimeout (Some (pm_timeout pending))) calls)
      /\ (forall pending,
            _pendingViewMove s = Some pending ->
            In (E_reject (pv_promise pending) connection_closed) calls
            /\ In (E_clearTimeout (Some (pv_timeout pending))) calls).
Proof.
  intros s Hcount.
  set (s2 := set_connected (set_autoReconnect s false) false).
  set (s3 := match maxConnections s2 with
             | Some _ => set__connections s2 (_connections s2 - 1)
             | None => s2
             end).
  set (s4 := snd (ChessClient__rejectPendingRequests s3)).
  assert (Hrun : WsClient_disconnect s
                 = (ChessClient__clearTimers ;;;
                    WsClient__cleanupSocket ;;;
                    auto <- gets autoReconnect ;;
                    when auto
                      (let wasError := negb (1000 =? 1000) in
                       WsClient__scheduleReconnect wasError)) s4).
  { unfold WsClient_disconnect, WsClient__onWebsocketClose, WsClient__handleDisconnect.
    rewrite (bind_returns _ _ s (set_autoReconnect s false) tt) by reflexivity.
    rewrite (bind_returns _ _ _ s2 tt) by reflexivity.
    rewrite (bind_returns _ _ s2 s3 tt) by (apply decrement_counted; exact Hcount).
    rewrite (bind_returns _ _ s3 s4 tt)
      by (unfold s4; rewrite rejectPendingRequests_eq; reflexivity).
    reflexivity. }
  assert (Hs3 : _pendingPieceMoves s3 = _pendingPieceMoves s
                /\ _pendingViewMove s3 = _pendingViewMove s
                /\ trace s3 = trace s /\ autoReconnect s3 = false).
  { unfold s3. destruct (maxConnections s2); done. }
  destruct Hs3 as (Hp & Hv & Htr & Hauto).
  assert (Hs4 : closed_out s s4 /\ autoReconnect s4 = false).
  { split; [by apply closed_out_rejected|].
    unfold s4. rewrite rejectPendingRequests_eq. exact Hauto. }
  destruct (disconnect_tail_steady s 1000 s4 Hs4) as [[[] Hok] [Hclosed _]].
  rewrite Hrun. clear Hrun.
  destruct ((ChessClient__clearTimers ;;;
             WsClient__cleanupSocket ;;;
             auto <- gets autoReconnect ;;
             when auto
               (let wasError := negb (1000 =? 1000) in
                WsClient__scheduleReconnect wasError)) s4) as [res s'].
  simpl in Hok, Hclosed. subst res.
  destruct Hclosed as (Hp' & Hv' & calls & Htr' & Hmoves & Hview).
  exists s', calls. auto 10.
Qed.

(** C6: the code at the failing input.  On a client that holds no counted
    connection (it never connected, the counter of its class is 0) and has a
    view move pending, [disconnect()] throws in [_decrement] before it
    reaches [_rejectPendingRequests] and [_clearTimers]: the promise of the
    view move is not rejected, its timer is not cleared and the entry stays
    in its slot. *)
Lemma disconnect_throws_uncounted :
  exists pending : PendingView,
    _pendingViewMove client_offline = Some pending
    /\ fst (WsClient_disconnect client_offline)
       = Throw (mkError ClientError "Connection count cannot be lower than 0")
    /\ _pendingViewMove (snd (WsClient_disconnect client_offline)) = Some pending
    /\ ~ In (E_reject (pv_promise pending) connection_closed)
           (trace (snd (WsClient_disconnect client_offline)))
    /\ ~ In (E_clearTimeout (Some (pv_timeout pending)))
           (trace (snd (WsClient_disconnect client_offline))).
Proof.
  exists (mkPendingView 0 0).
  split; [reflexivity|]. split; [reflexivity|]. split; [reflexivity|].
  split; vm_compute; intros [H|[H|[]]]; discriminate H.
Qed.

Lemma disconnect_rejects_pending_witness :
  (maxConnections client_viewing = None \/ 0 < _connections client_viewing)
  /\ exists (s' : State) (calls : list Effect),
      WsClient_disconnect client_viewing = (Ok tt, s')
      /\ trace s' = calls ++ trace client_viewing
      /\ _pendingPieceMoves s' = []
      /\ _pendingViewMove s' = None
      /\ (forall moveToken pending,
            Map_get moveToken (_pendingPieceMoves client_viewing) = Some pending ->
            In (E_reject (pm_promise pending) connection_closed) calls
            /\ In (E_clearTimeout (Some (pm_timeout pending))) calls)
      /\ (forall pending,
            _pendingViewMove client_viewing = Some pending ->
            In (E_reject (pv_promise pending) connection_closed) calls
            /\ In (E_clearTimeout (Some (pv_timeout pending))) calls).
Proof.
  assert (Hcount : maxConnections client_viewing = None
                   \/ 0 < _connections client_viewing) by (right; reflexivity).
  split; [exact Hcount|].
  exact (disconnect_rejects_pending client_viewing Hcount).
Defined.

(** ** Reconnecting *)













(** ** Sending with retry *)

Lemma attemptSend_error_plain (env : nat -> Attempt) (n : nat) (e : JsError) :
  outside_errors_plain env ->
  WsClient__attemptSend (env n) = Throw e ->
  includes "destoyed" (message e) = false.
Proof.
  intros Hplain. unfold WsClient__attemptSend.
  destruct (at_ready (env n)) as [e1|] eqn:Hready.
  - intros [= <-]. apply (Hplain n). by left.
  - destruct (at_destroyed (env n)); [by intros [= <-]|].
    destruct (at_connected (env n)); simpl; [|by intros [= <-]].
    destruct (at_send (env n)) as [e2|] eqn:Hsend; [|done].
    intros [= <-]. apply (Hplain n). by right.
Qed.

Lemma sendWithRetry_loop_never_dropped (maxRetryCount : Z) (env : nat -> Attempt) :
  outside_errors_plain env ->
  forall fuel attempt retries r k,
    sendWithRetry_loop fuel maxRetryCount env attempt retries = Some (r, k) ->
    r <> Ok Dropped.
Proof.
  intros Hplain. induction fuel as [|fuel IH]; intros attempt retries r k; [done|].
  simpl. destruct (WsClient__attemptSend (env attempt)) as [[]|e] eqn:Hsend.
  - by intros [= <- _].
  - rewrite (attemptSend_error_plain env attempt e Hplain Hsend).
    destruct (retries + 1 >? maxRetryCount); [by intros [= <- _] | apply IH].
Qed.

Lemma sendWithRetry_loop_S (fuel : nat) (maxRetryCount : Z) (env : nat -> Attempt)
    (attempt : nat) (retries : Z) :
  sendWithRetry_loop (S fuel) maxRetryCount env attempt retries
  = match WsClient__attemptSend (env attempt) with
    | Ok _ => Some (Ok Sent, S attempt)
    | Throw error =>
        if includes "destoyed" (message error) then Some (Ok Dropped, S attempt)
        else if retries + 1 >? maxRetryCount then Some (Throw error, S attempt)
             else sendWithRetry_loop fuel maxRetryCount env (S attempt) (retries + 1)
    end.
Proof. reflexivity. Qed.

Lemma sendWithRetry_loop_all_destroyed (maxRetryCount : Z) (env : nat -> Attempt) :
  (forall n, WsClient__attemptSend (env n) = Throw client_destroyed) ->
  forall (k attempt : nat) (retries : Z),
    retries + Z.of_nat k = maxRetryCount ->
    sendWithRetry_loop (S k) maxRetryCount env attempt retries
    = Some (Throw client_destroyed, (attempt + S k)%nat).
Proof.
  intros Hall. induction k as [|k IH]; intros attempt retries Hk;
    rewrite sendWithRetry_loop_S, Hall;
    change (includes "destoyed" (message client_destroyed)) with false;
    cbv iota; rewrite Z.gtb_ltb.
  - destruct (Z.ltb_spec maxRetryCount (retries + 1)); [|lia].
    do 2 f_equal. lia.
  - destruct (Z.ltb_spec maxRetryCount (retries + 1)); [lia|].
    rewrite IH by lia. do 2 f_equal. lia.
Qed.

(** C10: with retry enabled, when every attempt fails with "Client
    destroyed", the check for "destoyed" does not match that message, the
    send is attempted [maxRetryCount + 1] times and then the "Client
    destroyed" error is thrown to the caller.  The check matches none of the
    messages that the client raises on the way of a send, so as long as the
    errors of the socket do not contain the word the loop never returns
    through it. *)
Theorem sendRequest_destroyed_retries :
  forall (retryDelay maxRetryCount : Z) (env : nat -> Attempt),
    enableRetry retryDelay maxRetryCount = true ->
    (forall n, WsClient__attemptSend (env n) = Throw client_destroyed) ->
    includes "destoyed" (message client_destroyed) = false
    /\ WsClient_sendRequest retryDelay maxRetryCount env
       = Some (Throw client_destroyed, Z.to_nat (maxRetryCount + 1))
    /\ Forall (fun msg => includes "destoyed" msg = false) send_path_messages
    /\ (forall (env' : nat -> Attempt) r k,
          outside_errors_plain env' ->
          WsClient_sendRequest retryDelay maxRetryCount env' = Some (r, k) ->
          r <> Ok Dropped).
Proof.
  intros retryDelay maxRetryCount env Hretry Hall.
  assert (Hpos : 0 < maxRetryCount).
  { unfold enableRetry in Hretry. apply andb_prop in Hretry as [_ Hmax].
    rewrite Z.gtb_ltb in Hmax. by apply Z.ltb_lt. }
  unfold WsClient_sendRequest. rewrite Hretry. simpl negb. cbv iota.
  split; [reflexivity|]. split; [|split].
  - unfold WsClient__sendWithRetry.
    rewrite (sendWithRetry_loop_all_destroyed maxRetryCount env Hall) by lia.
    do 2 f_equal. lia.
  - repeat constructor.
  - intros env' r k Hplain. unfold WsClient__sendWithRetry.
    apply sendWithRetry_loop_never_dropped, Hplain.
Qed.

Lemma sendRequest_destroyed_retries_witness :
  enableRetry 1000 5 = true
  /\ (forall n, WsClient__attemptSend (always_destroyed n) = Throw client_destroyed)
  /\ WsClient_sendRequest 1000 5 always_destroyed = Some (Throw client_destroyed, 6%nat).
Proof.
  assert (Hall : forall n, WsClient__attemptSend (always_destroyed n)
                           = Throw client_destroyed) by (intros n; reflexivity).
  split; [reflexivity|]. split; [exact Hall|].
  exact (proj1 (proj2 (sendRequest_destroyed_retries 1000 5 always_destroyed
                         eq_refl Hall))).
Defined.

(** The loop of [_sendWithRetry] ends within its fuel. *)
Lemma sendWithRetry_total (maxRetryCount : Z) (env : nat -> Attempt) :
  exists out, WsClient__sendWithRetry maxRetryCount env = Some out.
Proof.
  unfold WsClient__sendWithRetry.
  assert (Hloop : forall (k attempt : nat) (retries : Z),
             maxRetryCount - retries <= Z.of_nat k ->
             exists out,
               sendWithRetry_loop (S k) maxRetryCount env attempt retries = Some out).
  { induction k as [|k IH]; intros attempt retries Hk;
      rewrite sendWithRetry_loop_S;
      destruct (WsClient__attemptSend (env attempt)) as [[]|e]; try by eexists.
    - destruct (includes _ _); [by eexists|]. rewrite Z.gtb_ltb.
      destruct (Z.ltb_spec maxRetryCount (retries + 1)); [by eexists | lia].
    - destruct (includes _ _); [by eexists|]. rewrite Z.gtb_ltb.
      destruct (Z.ltb_spec maxRetryCount (retries + 1)); [by eexists|].
      apply IH. lia. }
  apply Hloop. lia.
Qed.

(** ** The rate limiter *)

(** One caller: [_acquireToken] returns at the first reading of its clock
    at which a token is taken. *)
Lemma acquireToken_first_grant (maxRPS : Q) (clock : list Z) (bk : Bucket) :
  fst (WsClient__acquireToken (Some maxRPS) clock bk)
  = match grants maxRPS clock bk with
    | [] => None
    | now :: _ => Some (Some now)
    end.
Proof.
  revert bk. induction clock as [|now clock IH]; intros bk; [reflexivity|].
  simpl. destruct (acquire_iteration maxRPS now bk) as [[] bk']; [reflexivity|].
  apply IH.
Qed.

(** C4 as stated fails: with [maxRPS = 2] and a bucket made at time 0, the
    four requests of [burst] are all let through; they lie within 600 ms of
    each other. *)
Lemma four_sends_in_a_second :
  clock_from 0 burst
  /\ grants 2 burst (new_Bucket 2 0) = burst
  /\ sends_within 400 (400 + 999) (grants 2 burst (new_Bucket 2 0)) = 4%nat
  /\ ~ (inject_Z (Z.of_nat (sends_within 400 (400 + 999)
                             (grants 2 burst (new_Bucket 2 0)))) <= 2)%Q.
Proof.
  split; [simpl; lia|]. split; [reflexivity|]. split; [reflexivity|].
  vm_compute. intros H. apply H. reflexivity.
Qed.

(** *** Rounding to binary64 *)

Lemma pow2_pos (k : Z) : (0 < pow2 k)%Q.
Proof. apply Qpower_0_lt. reflexivity. Qed.

Lemma pow2_plus (a b : Z) : (pow2 (a + b) == pow2 a * pow2 b)%Q.
Proof. apply Qpower_plus. discriminate. Qed.

Lemma pow2_le (a b : Z) : a <= b -> (pow2 a <= pow2 b)%Q.
Proof. intros H. apply Qpower_le_compat_l; [exact H | discriminate]. Qed.

Lemma pow2_lt (a b : Z) : a < b -> (pow2 a < pow2 b)%Q.
Proof. intros H. apply Qpower_lt_compat_l; [exact H | reflexivity]. Qed.

Lemma pow2_lt_inv (a b : Z) : (pow2 a < pow2 b)%Q -> a < b.
Proof. intros H. eapply Qpower_lt_compat_l_inv; [exact H | reflexivity]. Qed.

Lemma pow2_Z (k : Z) : 0 <= k -> (pow2 k == inject_Z (2 ^ k))%Q.
Proof. intros Hk. unfold pow2. by rewrite Zpower_Qpower. Qed.

Lemma pow2_opp (k : Z) : (pow2 (- k) * pow2 k == 1)%Q.
Proof.
  rewrite <- pow2_plus. replace (- k + k) with 0 by lia. reflexivity.
Qed.

Lemma pow2_S (k : Z) : (pow2 (k + 1) == 2 * pow2 k)%Q.
Proof. rewrite pow2_plus. change (pow2 1) with 2%Q. ring. Qed.

(** ** The exponent *)

Lemma ilog2_spec (q : Q) :
  (0 < q)%Q -> (pow2 (ilog2 q) <= q)%Q /\ (q < pow2 (ilog2 q + 1))%Q.
Proof.
  intros Hq. destruct q as [n d]. unfold ilog2; simpl Qnum; simpl Qden.
  assert (Hn : 0 < n) by (unfold Qlt in Hq; simpl in Hq; lia).
  set (ln := Z.log2 n). set (ld := Z.log2 (Z.pos d)).
  destruct (Z.log2_spec n Hn) as [Hn1 Hn2]. fold ln in Hn1, Hn2.
  destruct (Z.log2_spec (Z.pos d) ltac:(lia)) as [Hd1 Hd2]. fold ld in Hd1, Hd2.
  pose proof (Z.log2_nonneg n) as Hln. fold ln in Hln.
  pose proof (Z.log2_nonneg (Z.pos d)) as Hld. fold ld in Hld.
  assert (Hqd : (n # d == inject_Z n / inject_Z (Z.pos d))%Q) by apply Qmake_Qdiv.
  assert (Hdpos : (0 < inject_Z (Z.pos d))%Q) by (unfold Qlt; simpl; lia).
  (* the bounds between which the quotient lies *)
  assert (Hlow : (pow2 (ln - ld - 1) < n # d)%Q).
  { rewrite Hqd. apply Qlt_shift_div_l; [exact Hdpos|].
    apply Qlt_le_trans with (pow2 (ln - ld - 1) * pow2 (ld + 1))%Q.
    - apply Qmult_lt_l; [apply pow2_pos|].
      rewrite (pow2_Z (ld + 1)) by lia. rewrite <- Zlt_Qlt.
      replace (ld + 1) with (Z.succ ld) by lia. exact Hd2.
    - rewrite <- pow2_plus. replace (ln - ld - 1 + (ld + 1)) with ln by lia.
      rewrite (pow2_Z ln) by lia. by rewrite <- Zle_Qle. }
  assert (Hhigh : (n # d < pow2 (ln - ld + 1))%Q).
  { rewrite Hqd. apply Qlt_shift_div_r; [exact Hdpos|].
    apply Qlt_le_trans with (pow2 (ln - ld + 1) * pow2 ld)%Q.
    - rewrite <- pow2_plus. replace (ln - ld + 1 + ld) with (ln + 1) by lia.
      rewrite (pow2_Z (ln + 1)) by lia. rewrite <- Zlt_Qlt.
      replace (ln + 1) with (Z.succ ln) by lia. exact Hn2.
    - apply Qmult_le_l; [apply pow2_pos|].
      rewrite (pow2_Z ld) by lia. by rewrite <- Zle_Qle. }
  destruct (Qle_bool (pow2 (ln - ld)) (n # d)) eqn:Hle.
  - apply Qle_bool_iff in Hle. split; [exact Hle | exact Hhigh].
  - split; [by apply Qlt_le_weak|].
    replace (ln - ld - 1 + 1) with (ln - ld) by lia.
    apply Qnot_le_lt. intros Hc. apply Qle_bool_iff in Hc. congruence.
Qed.

(** ** The nearest whole number *)

Lemma rne_cases (q : Q) : rne q = Qfloor q \/ rne q = Qfloor q + 1.
Proof.
  unfold rne. destruct (_ ?= _)%Q; [destruct (Z.even _)| |]; auto.
Qed.

Lemma rne_near (q : Q) :
  (q - (1 # 2) <= inject_Z (rne q))%Q /\ (inject_Z (rne q) <= q + (1 # 2))%Q.
Proof.
  unfold rne. pose proof (Qfloor_le q) as Hf. pose proof (Qlt_floor q) as Hc.
  rewrite inject_Z_plus in Hc. change (inject_Z 1) with 1%Q in Hc.
  destruct (q - inject_Z (Qfloor q) ?= 1 # 2)%Q eqn:Hcmp.
  - apply Qeq_alt in Hcmp.
    destruct (Z.even (Qfloor q)); [|rewrite inject_Z_plus; change (inject_Z 1) with 1%Q];
      split; lra.
  - apply Qlt_alt in Hcmp. split; lra.
  - apply Qgt_alt in Hcmp. rewrite inject_Z_plus. change (inject_Z 1) with 1%Q.
    split; lra.
Qed.

Lemma rne_le_int (q : Q) (n : Z) : (q <= inject_Z n)%Q -> rne q <= n.
Proof.
  intros Hq. pose proof (Qfloor_resp_le _ _ Hq) as Hfl. rewrite Qfloor_Z in Hfl.
  destruct (Z.eq_dec (Qfloor q) n) as [Heq|Hne].
  - (* then [q] is [n] itself *)
    pose proof (Qfloor_le q) as Hf. rewrite Heq in Hf.
    unfold rne. rewrite Heq.
    assert (Hcmp : (q - inject_Z n ?= 1 # 2)%Q = Lt) by (apply (proj1 (Qlt_alt _ _)); lra).
    rewrite Hcmp. lia.
  - destruct (rne_cases q) as [->| ->]; lia.
Qed.

Lemma rne_ge_int (q : Q) (n : Z) : (inject_Z n <= q)%Q -> n <= rne q.
Proof.
  intros Hq. pose proof (Qfloor_resp_le _ _ Hq) as Hfl. rewrite Qfloor_Z in Hfl.
  destruct (rne_cases q) as [->| ->]; lia.
Qed.

(** ** Rounding a positive number *)

Section RoundPos.
Variable q : Q.
Hypothesis Hq : (0 < q)%Q.

Let ue : Z := ulp_exponent q.
Let scaled : Q := (q / pow2 ue)%Q.

Lemma scaled_back : (scaled * pow2 ue == q)%Q.
Proof.
  unfold scaled. field. pose proof (pow2_pos ue). lra.
Qed.

Lemma round_pos_near :
  (q - (1 # 2) * pow2 ue <= round_pos q)%Q /\ (round_pos q <= q + (1 # 2) * pow2 ue)%Q.
Proof.
  unfold round_pos. fold ue. fold scaled.
  destruct (rne_near scaled) as [Hlo Hhi].
  pose proof (pow2_pos ue) as Hp. pose proof scaled_back as Hback.
  set (r := inject_Z (rne scaled)) in *.
  assert (H1 : ((scaled - (1 # 2)) * pow2 ue <= r * pow2 ue)%Q)
    by (apply Qmult_le_compat_r; lra).
  assert (H2 : (r * pow2 ue <= (scaled + (1 # 2)) * pow2 ue)%Q)
    by (apply Qmult_le_compat_r; lra).
  split; lra.
Qed.

Lemma round_pos_nonneg : (0 <= round_pos q)%Q.
Proof.
  unfold round_pos. fold ue. fold scaled.
  pose proof (pow2_pos ue) as Hp.
  assert (Hs : (inject_Z 0 <= scaled)%Q).
  { change (inject_Z 0) with 0%Q. unfold scaled.
    apply Qle_shift_div_l; [exact Hp | lra]. }
  apply rne_ge_int in Hs.
  apply Qmult_le_0_compat; [|lra].
  change 0%Q with (inject_Z 0). by rewrite <- Zle_Qle.
Qed.

(** In the normal range the error is at most [2^-53] of the number. *)
Lemma round_pos_relative :
  (pow2 (-1022) <= q)%Q ->
  (q * (1 - pow2 (-53)) <= round_pos q)%Q /\ (round_pos q <= q * (1 + pow2 (-53)))%Q.
Proof.
  intros Hnormal.
  destruct (ilog2_spec q Hq) as [Hlow Hhigh].
  assert (He : -1022 <= ilog2 q).
  { assert (-1022 < ilog2 q + 1); [|lia].
    apply pow2_lt_inv. lra. }
  assert (Hue : ue = ilog2 q + (-52)) by (unfold ue, ulp_exponent; lia).
  pose proof (pow2_plus (ilog2 q) (-52)) as Hsplit. rewrite <- Hue in Hsplit.
  pose proof (pow2_pos (-52)) as H52.
  assert (Hhalf : (pow2 (-52) == 2 * pow2 (-53))%Q) by reflexivity.
  assert (Hulp : (pow2 ue <= q * pow2 (-52))%Q).
  { assert (pow2 (ilog2 q) * pow2 (-52) <= q * pow2 (-52))%Q
      by (apply Qmult_le_compat_r; lra).
    lra. }
  assert (Hq53 : (q * pow2 (-52) == 2 * (q * pow2 (-53)))%Q).
  { transitivity (q * (2 * pow2 (-53)))%Q; [|ring].
    apply Qmult_comp; [reflexivity | exact Hhalf]. }
  destruct round_pos_near as [Hlo Hhi]. split; lra.
Qed.

(** Below the normal range the result stays below it. *)
Lemma round_pos_small : (q < pow2 (-1022))%Q -> (round_pos q <= pow2 (-1022))%Q.
Proof.
  intros Hsmall.
  destruct (ilog2_spec q Hq) as [Hlow Hhigh].
  assert (He : ilog2 q < -1022) by (apply pow2_lt_inv; lra).
  assert (Hue : ue = -1074) by (unfold ue, ulp_exponent; lia).
  unfold round_pos. fold ue. fold scaled. rewrite Hue.
  pose proof (pow2_pos (-1074)) as Hp.
  assert (Hs : (scaled <= inject_Z (2 ^ 52))%Q).
  { unfold scaled. rewrite Hue. apply Qle_shift_div_r; [exact Hp|].
    rewrite <- (pow2_Z 52) by lia. rewrite <- pow2_plus.
    change (52 + -1074) with (-1022). lra. }
  apply rne_le_int in Hs.
  apply Qle_trans with (inject_Z (2 ^ 52) * pow2 (-1074))%Q.
  - apply Qmult_le_compat_r; [|lra]. by rewrite <- Zle_Qle.
  - rewrite <- (pow2_Z 52) by lia. rewrite <- pow2_plus.
    change (52 + -1074) with (-1022). lra.
Qed.

(** Rounding does not pass a whole number below [2^53]. *)
Lemma round_pos_le_int (n : Z) :
  n < 2 ^ 53 -> (q <= inject_Z n)%Q -> (round_pos q <= inject_Z n)%Q.
Proof.
  intros Hn Hqn.
  destruct (ilog2_spec q Hq) as [Hlow Hhigh].
  assert (He : ilog2 q < 53).
  { apply pow2_lt_inv. rewrite (pow2_Z 53) by lia.
    apply Qle_lt_trans with (inject_Z n); [lra|]. by rewrite <- Zlt_Qlt. }
  assert (Hue : ue <= 0) by (unfold ue, ulp_exponent; lia).
  pose proof (pow2_pos ue) as Hp.
  pose proof (pow2_opp ue) as Hopp.
  assert (Hscale : (pow2 (- ue) == inject_Z (2 ^ (- ue)))%Q) by (apply pow2_Z; lia).
  assert (Hs : (scaled <= inject_Z (n * 2 ^ (- ue)))%Q).
  { unfold scaled. apply Qle_shift_div_r; [exact Hp|].
    rewrite inject_Z_mult, <- Hscale.
    rewrite <- Qmult_assoc, Hopp. lra. }
  apply rne_le_int in Hs.
  unfold round_pos. fold ue. fold scaled.
  apply Qle_trans with (inject_Z (n * 2 ^ (- ue)) * pow2 ue)%Q.
  - apply Qmult_le_compat_r; [|lra]. by rewrite <- Zle_Qle.
  - rewrite inject_Z_mult, <- Hscale, <- Qmult_assoc, Hopp. lra.
Qed.
End RoundPos.



Lemma binary64_0 : binary64 0 = 0%Q.
Proof. reflexivity. Qed.

Lemma binary64_nonneg (q : Q) : (0 <= q)%Q -> (0 <= binary64 q)%Q.
Proof.
  intros Hq. unfold binary64. destruct (q ?= 0)%Q eqn:Hcmp.
  - lra.
  - apply Qlt_alt in Hcmp. lra.
  - apply Qgt_alt in Hcmp. by apply round_pos_nonneg.
Qed.

Lemma binary64_nonpos (q : Q) : (q <= 0)%Q -> (binary64 q <= 0)%Q.
Proof.
  intros Hq. unfold binary64. destruct (q ?= 0)%Q eqn:Hcmp.
  - lra.
  - apply Qlt_alt in Hcmp.
    pose proof (round_pos_nonneg (- q) ltac:(lra)). lra.
  - apply Qgt_alt in Hcmp. lra.
Qed.

(** Rounding does not pass a whole number from 0 to [2^53]. *)
Lemma binary64_le_int (q : Q) (n : Z) :
  0 <= n < 2 ^ 53 -> (q <= inject_Z n)%Q -> (binary64 q <= inject_Z n)%Q.
Proof.
  intros [Hn0 Hn] Hq.
  assert (Hn0' : (0 <= inject_Z n)%Q)
    by (change 0%Q with (inject_Z 0); by rewrite <- Zle_Qle).
  destruct (Qlt_le_dec 0 q) as [Hpos|Hneg].
  - unfold binary64. apply Qgt_alt in Hpos as Hcmp. rewrite Hcmp.
    by apply round_pos_le_int.
  - pose proof (binary64_nonpos q Hneg). lra.
Qed.

(** The relative error of a result in the normal range. *)
Lemma binary64_relative (q : Q) :
  (pow2 (-1022) <= q)%Q ->
  (q * (1 - pow2 (-53)) <= binary64 q)%Q /\ (binary64 q <= q * (1 + pow2 (-53)))%Q.
Proof.
  intros Hq. pose proof (pow2_pos (-1022)) as Hp.
  unfold binary64.
  assert (Hcmp : (q ?= 0)%Q = Gt) by (apply (proj1 (Qgt_alt _ _)); lra).
  rewrite Hcmp. apply round_pos_relative; lra.
Qed.

Lemma binary64_small (q : Q) :
  (0 <= q)%Q -> (q < pow2 (-1022))%Q -> (binary64 q <= pow2 (-1022))%Q.
Proof.
  intros Hq Hsmall. pose proof (pow2_pos (-1022)) as Hp.
  unfold binary64. destruct (q ?= 0)%Q eqn:Hcmp.
  - lra.
  - apply Qlt_alt in Hcmp. lra.
  - apply Qgt_alt in Hcmp. by apply round_pos_small.
Qed.

(** *** The refill *)

Lemma unit_roundoff_pow2 : (pow2 (-53) == unit_roundoff)%Q.
Proof. reflexivity. Qed.

Lemma pow2_1022_small : (pow2 (-1022) <= 1 # 2048)%Q.
Proof.
  apply Qle_trans with (pow2 (-11)); [apply pow2_le; lia|].
  assert (H : (pow2 (-11) == 1 # 2048)%Q) by reflexivity. lra.
Qed.

Lemma binary64_zero (q : Q) : (q == 0)%Q -> binary64 q = 0%Q.
Proof.
  intros Hq. unfold binary64.
  by rewrite (proj1 (Qeq_alt q 0) Hq).
Qed.

(** The relative error of a result in the normal range, with the unit
    roundoff written out. *)
Lemma binary64_error (q : Q) :
  (1 # 2048 <= q)%Q ->
  (q * (1 - unit_roundoff) <= binary64 q)%Q
  /\ (binary64 q <= q * (1 + unit_roundoff))%Q.
Proof.
  intros Hq. pose proof pow2_1022_small as Hsmall.
  destruct (binary64_relative q ltac:(lra)) as [Hlo Hhi].
  assert (Hu : (q * pow2 (-53) == q * unit_roundoff)%Q).
  { apply Qmult_comp; [reflexivity | apply unit_roundoff_pow2]. }
  split; lra.
Qed.

Section ToAdd.
Variable r : Q.
Variable ms : Z.
Hypothesis Hr : (0 <= r)%Q.
Hypothesis Hms : 0 <= ms.

Let e0 : Q := inject_Z ms.
Let e1 : Q := binary64 e0.
Let a : Q := (e1 / 1000)%Q.
Let a1 : Q := binary64 a.
Let p : Q := (a1 * r)%Q.
Let p1 : Q := binary64 p.

Lemma toAdd_steps : toAdd r ms = Qfloor p1.
Proof. reflexivity. Qed.

Lemma toAdd_nonneg : 0 <= toAdd r ms.
Proof.
  rewrite toAdd_steps.
  assert (He0 : (0 <= e0)%Q)
    by (subst e0; change 0%Q with (inject_Z 0); by rewrite <- Zle_Qle).
  pose proof (binary64_nonneg e0 He0) as He1. fold e1 in He1.
  assert (Ha : (0 <= a)%Q).
  { assert (Ha' : (a == e1 * (1 # 1000))%Q) by reflexivity. lra. }
  pose proof (binary64_nonneg a Ha) as Ha1. fold a1 in Ha1.
  assert (Hp : (0 <= p)%Q) by (subst p; by apply Qmult_le_0_compat).
  pose proof (binary64_nonneg p Hp) as Hp1. fold p1 in Hp1.
  change 0 with (Qfloor 0). by apply Qfloor_resp_le.
Qed.

Lemma toAdd_0 : ms = 0 -> toAdd r ms = 0.
Proof.
  intros Hz. rewrite toAdd_steps.
  assert (He1 : e1 = 0%Q) by (subst e1 e0; rewrite Hz; reflexivity).
  assert (Ha1 : a1 = 0%Q).
  { subst a1 a. rewrite He1. reflexivity. }
  assert (Hp1 : p1 = 0%Q).
  { subst p1 p. rewrite Ha1. apply binary64_zero. ring. }
  by rewrite Hp1.
Qed.

(** The steps of the computation for a positive time. *)
Lemma toAdd_chain :
  1 <= ms ->
  (1 <= e0)%Q
  /\ (e0 * r * (1 - unit_roundoff) <= e1 * r)%Q
  /\ (e1 * r <= e0 * r * (1 + unit_roundoff))%Q
  /\ (1000 * (a * r) == e1 * r)%Q
  /\ (a * r * (1 - unit_roundoff) <= p)%Q
  /\ (p <= a * r * (1 + unit_roundoff))%Q
  /\ (0 <= p)%Q /\ (0 <= e0 * r)%Q.
Proof.
  intros Hpos.
  assert (He0 : (1 <= e0)%Q)
    by (subst e0; change 1%Q with (inject_Z 1); by rewrite <- Zle_Qle).
  destruct (binary64_error e0 ltac:(lra)) as [He1lo He1hi]. fold e1 in He1lo, He1hi.
  assert (Ha : (a == e1 * (1 # 1000))%Q) by reflexivity.
  destruct (binary64_error a ltac:(unfold unit_roundoff in *; lra)) as [Ha1lo Ha1hi]. fold a1 in Ha1lo, Ha1hi.
  pose proof (Qmult_le_compat_r _ _ r He1lo Hr) as H1.
  pose proof (Qmult_le_compat_r _ _ r He1hi Hr) as H2.
  pose proof (Qmult_le_compat_r _ _ r Ha1lo Hr) as H3.
  pose proof (Qmult_le_compat_r _ _ r Ha1hi Hr) as H4.
  assert (Har : (a * r == e1 * r * (1 # 1000))%Q).
  { transitivity (e1 * (1 # 1000) * r)%Q; [|ring].
    apply Qmult_comp; [exact Ha | reflexivity]. }
  assert (He0r : (0 <= e0 * r)%Q) by (apply Qmult_le_0_compat; lra).
  subst p. unfold unit_roundoff in *. repeat split; lra.
Qed.

(** What a refill adds is at most what fell due, up to the rounding. *)
Lemma toAdd_upper :
  1 <= toAdd r ms ->
  (1000 * inject_Z (toAdd r ms) <= inject_Z ms * r * (1 + 4 * unit_roundoff))%Q.
Proof.
  intros Hadd.
  destruct (Z.eq_dec ms 0) as [Hz|Hnz]; [rewrite (toAdd_0 Hz) in Hadd; lia|].
  destruct (toAdd_chain ltac:(lia)) as (He0 & H1 & H2 & Har & H3 & H4 & Hp & He0r).
  rewrite toAdd_steps in *.
  pose proof (Qfloor_le p1) as Hfl.
  assert (H1p : (1 <= inject_Z (Qfloor p1))%Q)
    by (change 1%Q with (inject_Z 1); by rewrite <- Zle_Qle).
  pose proof pow2_1022_small as Hsmall.
  destruct (Qlt_le_dec p (1 # 2048)) as [Hsub|Hnorm].
  - destruct (Qlt_le_dec p (pow2 (-1022))) as [Hs|Hn].
    + pose proof (binary64_small p Hp Hs) as Hb. fold p1 in Hb. lra.
    + destruct (binary64_relative p Hn) as [_ Hhi]. fold p1 in Hhi.
      assert (Hu : (p * pow2 (-53) == p * unit_roundoff)%Q).
      { apply Qmult_comp; [reflexivity | apply unit_roundoff_pow2]. }
      unfold unit_roundoff in *. lra.
  - destruct (binary64_error p Hnorm) as [_ Hhi]. fold p1 in Hhi.
    fold e0. unfold unit_roundoff in *. lra.
Qed.

(** A refill that adds nothing: less than one token fell due, up to the
    rounding. *)
Lemma toAdd_lower :
  toAdd r ms <= 0 ->
  (inject_Z ms * r * (1 - 3 * unit_roundoff) < 1000)%Q.
Proof.
  intros Hadd.
  destruct (Z.eq_dec ms 0) as [Hz|Hnz].
  { rewrite Hz. change (inject_Z 0) with 0%Q. lra. }
  destruct (toAdd_chain ltac:(lia)) as (He0 & H1 & H2 & Har & H3 & H4 & Hp & He0r).
  rewrite toAdd_steps in *.
  pose proof (Qlt_floor p1) as Hfl.
  assert (H1p : (inject_Z (Qfloor p1 + 1) <= 1)%Q)
    by (change 1%Q with (inject_Z 1); rewrite <- Zle_Qle; lia).
  fold e0.
  destruct (Qlt_le_dec p (1 # 2048)) as [Hsub|Hnorm].
  - unfold unit_roundoff in *. lra.
  - destruct (binary64_error p Hnorm) as [Hlo _]. fold p1 in Hlo.
    unfold unit_roundoff in *. lra.
Qed.

End ToAdd.

Lemma inject_Z_nonneg (n : Z) : 0 <= n -> (0 <= inject_Z n)%Q.
Proof. intros Hn. change 0%Q with (inject_Z 0). by rewrite <- Zle_Qle. Qed.

Lemma held_nonneg (bk : Bucket) : 0 <= held bk.
Proof. unfold held. lia. Qed.

Lemma Qceiling_le_int (q : Q) (n : Z) : (q <= inject_Z n)%Q -> Qceiling q <= n.
Proof.
  intros Hq. pose proof (Qceiling_resp_le _ _ Hq) as H.
  by rewrite Qceiling_Z in H.
Qed.

Lemma sends_within_upto (a b : Z) (sent : list Z) :
  (sends_within a b sent <= sends_upto b sent)%nat.
Proof.
  unfold sends_within, sends_upto. induction sent as [|t sent IH]; simpl; [lia|].
  destruct (a <=? t), (t <=? b); simpl; lia.
Qed.

Lemma sends_upto_late (maxRPS : Q) (b : Z) (ticks : list Z) (bk : Bucket) (t : Z) :
  clock_from t ticks -> b < t -> sends_upto b (grants maxRPS ticks bk) = O.
Proof.
  revert bk t. induction ticks as [|u ticks IH]; intros bk t Hclock Hlate; [reflexivity|].
  destruct Hclock as [Htu Hclock]. simpl.
  destruct (acquire_iteration maxRPS u bk) as [[] bk2].
  - unfold sends_upto in *. simpl.
    destruct (Z.leb_spec u b); [lia|]. apply (IH bk2 u Hclock). lia.
  - apply (IH bk2 u Hclock). lia.
Qed.

(** The account of the bucket: for a rate of [rho] tokens in a millisecond
    that covers what a refill adds, and a bound [lam] on what is due while
    a refill adds nothing. *)
Section Account.
Variable maxRPS rho lam : Q.
Hypothesis Hrate : (0 <= maxRPS)%Q.
Hypothesis Hcap : Qceiling maxRPS < 2 ^ 53.
Hypothesis Hrho : (0 <= rho)%Q.
Hypothesis Hdue : forall ms : Z, 0 <= ms -> 1 <= toAdd maxRPS ms ->
  (inject_Z (toAdd maxRPS ms) <= rho * inject_Z ms)%Q
  \/ (inject_Z (Qceiling maxRPS) <= rho * inject_Z ms)%Q.
Hypothesis Hwait : forall ms : Z, 0 <= ms -> toAdd maxRPS ms <= 0 ->
  (rho * inject_Z ms < lam)%Q.

Lemma ceiling_rate_nonneg : 0 <= Qceiling maxRPS.
Proof. change 0 with (Qceiling 0). by apply Qceiling_resp_le. Qed.

Lemma lam_pos : (0 < lam)%Q.
Proof.
  pose proof (Hwait 0 ltac:(lia) ltac:(rewrite (toAdd_0 maxRPS 0 eq_refl); lia)) as H0.
  change (inject_Z 0) with 0%Q in H0. lra.
Qed.

Lemma credit_later (bk : Bucket) (t t' : Z) :
  (credit rho bk t' == credit rho bk t + rho * inject_Z (t' - t))%Q.
Proof.
  unfold credit. unfold Z.sub. rewrite !inject_Z_plus, !inject_Z_opp. ring.
Qed.

Lemma bucket_ok_later (bk : Bucket) (t t' : Z) :
  t <= t' -> bucket_ok maxRPS bk t -> bucket_ok maxRPS bk t'.
Proof. intros Ht [Hc Hl]. split; [exact Hc | lia]. Qed.

Lemma held_le_capacity (bk : Bucket) (t : Z) :
  bucket_ok maxRPS bk t -> held bk <= Qceiling maxRPS.
Proof.
  intros [Hc _]. pose proof ceiling_rate_nonneg. unfold held. lia.
Qed.

Lemma refill_facts (bk : Bucket) (now : Z) :
  bucket_ok maxRPS bk now ->
  bucket_ok maxRPS (refill maxRPS now bk) now
  /\ (credit rho (refill maxRPS now bk) now <= credit rho bk now)%Q
  /\ (credit rho (refill maxRPS now bk) now < inject_Z (Qceiling maxRPS) + lam)%Q.
Proof.
  intros Hok. pose proof (held_le_capacity bk now Hok) as Hheld.
  destruct Hok as [Hc Hl]. pose proof (held_nonneg bk) as Hh0.
  pose proof ceiling_rate_nonneg as Hc0.
  assert (Hms : 0 <= now - _lastRefillTime bk) by lia.
  unfold refill. set (k := toAdd maxRPS (now - _lastRefillTime bk)).
  pose proof (inject_Z_nonneg _ Hh0) as Hh0q.
  pose proof (inject_Z_nonneg _ Hms) as Hmsq.
  assert (Hpend : (0 <= rho * inject_Z (now - _lastRefillTime bk))%Q)
    by (by apply Qmult_le_0_compat).
  assert (Hheldq : (inject_Z (held bk) <= inject_Z (Qceiling maxRPS))%Q)
    by (by rewrite <- Zle_Qle).
  destruct (Z.gtb_spec k 0) as [Hadd|Hnone].
  - set (filled := Qmin maxRPS (fadd (_tokens bk) (inject_Z k))).
    pose proof lam_pos as Hlam.
    assert (Hfc : Qceiling filled <= Qceiling maxRPS)
      by (apply Qceiling_resp_le, Q.le_min_l).
    assert (Hfk : Qceiling filled <= held bk + k \/ Qceiling maxRPS <= held bk + k).
    { destruct (Z.lt_ge_cases (held bk + k) (2 ^ 53)) as [Hsmall|Hbig]; [left|right; lia].
      apply Qceiling_le_int.
      apply Qle_trans with (fadd (_tokens bk) (inject_Z k)); [apply Q.le_min_r|].
      apply binary64_le_int; [lia|].
      rewrite inject_Z_plus.
      pose proof (Qle_ceiling (_tokens bk)) as Hceil.
      assert (Hch : (inject_Z (Qceiling (_tokens bk)) <= inject_Z (held bk))%Q)
        by (rewrite <- Zle_Qle; unfold held; lia).
      lra. }
    assert (Hnow : (credit rho (mkBucket filled now) now
                    == inject_Z (held (mkBucket filled now)))%Q).
    { unfold credit; simpl. rewrite Z.sub_diag. change (inject_Z 0) with 0%Q. ring. }
    assert (Hheld1 : held (mkBucket filled now) <= Qceiling maxRPS)
      by (unfold held; simpl; lia).
    assert (Hheld2 : held (mkBucket filled now) <= held bk + k)
      by (unfold held in *; simpl; lia).
    rewrite Zle_Qle in Hheld1, Hheld2. rewrite inject_Z_plus in Hheld2.
    split; [split; simpl; [exact Hfc | lia]|].
    rewrite Hnow. split; [|lra].
    unfold credit. fold k in Hadd.
    destruct (Hdue _ Hms ltac:(fold k; lia)) as [Hd|Hd]; fold k in Hd; lra.
  - split; [by split|]. split; [lra|].
    pose proof (Hwait _ Hms Hnone) as Hw. unfold credit. lra.
Qed.

Lemma iteration_facts (bk : Bucket) (now : Z) :
  bucket_ok maxRPS bk now ->
  let bk1 := refill maxRPS now bk in
  match acquire_iteration maxRPS now bk with
  | (true, bk2) =>
      bucket_ok maxRPS bk2 now
      /\ (credit rho bk2 now <= credit rho bk1 now - 1)%Q
  | (false, bk2) => bk2 = bk1
  end.
Proof.
  intros Hok bk1. unfold acquire_iteration. fold bk1.
  destruct (refill_facts bk now Hok) as [Hok1 _]. fold bk1 in Hok1.
  destruct (Qlt_le_dec 0 (_tokens bk1)) as [Hpos|Hempty]; [|reflexivity].
  destruct Hok1 as [Hc1 Hl1].
  assert (Hceil : 1 <= Qceiling (_tokens bk1)).
  { destruct (Z.lt_ge_cases (Qceiling (_tokens bk1)) 1) as [Hlt|]; [|lia].
    pose proof (Qle_ceiling (_tokens bk1)) as Hle.
    assert (Hz : (inject_Z (Qceiling (_tokens bk1)) <= 0)%Q)
      by (change 0%Q with (inject_Z 0); rewrite <- Zle_Qle; lia).
    lra. }
  assert (Hnext : Qceiling (fsub (_tokens bk1) 1) <= Qceiling (_tokens bk1) - 1).
  { apply Qceiling_le_int. apply binary64_le_int; [lia|].
    unfold Z.sub. rewrite inject_Z_plus.
    pose proof (Qle_ceiling (_tokens bk1)) as Hle.
    change (inject_Z (- (1))) with (- (1))%Q. lra. }
  split; [split; simpl; [lia | exact Hl1]|].
  unfold credit; simpl.
  assert (Hh : held (mkBucket (fsub (_tokens bk1) 1) (_lastRefillTime bk1))
               <= held bk1 - 1) by (unfold held; simpl; lia).
  rewrite Zle_Qle in Hh. unfold Z.sub in Hh at 1. rewrite inject_Z_plus in Hh.
  change (inject_Z (- (1))) with (- (1))%Q in Hh. lra.
Qed.

Lemma iteration_ok (bk : Bucket) (now : Z) :
  bucket_ok maxRPS bk now ->
  bucket_ok maxRPS (snd (acquire_iteration maxRPS now bk)) now.
Proof.
  intros Hok. pose proof (iteration_facts bk now Hok) as Hit.
  destruct (acquire_iteration maxRPS now bk) as [[] bk2]; simpl in *.
  - apply Hit.
  - subst bk2. apply (refill_facts bk now Hok).
Qed.

Lemma credit_nonneg (bk : Bucket) (t : Z) :
  _lastRefillTime bk <= t -> (0 <= credit rho bk t)%Q.
Proof.
  intros Hl. unfold credit.
  pose proof (inject_Z_nonneg _ (held_nonneg bk)).
  pose proof (inject_Z_nonneg (t - _lastRefillTime bk) ltac:(lia)).
  pose proof (Qmult_le_0_compat _ _ Hrho H0). lra.
Qed.

(** From the reading [t] on, the sends up to [b] are paid from the credit
    at [t] and from what falls due until [b]. *)
Lemma sends_upto_credit (b : Z) (ticks : list Z) (bk : Bucket) (t : Z) :
  bucket_ok maxRPS bk t -> clock_from t ticks -> t <= b ->
  (inject_Z (Z.of_nat (sends_upto b (grants maxRPS ticks bk)))
   <= credit rho bk t + rho * inject_Z (b - t))%Q.
Proof.
  revert bk t. induction ticks as [|u ticks IH]; intros bk t Hok Hclock Htb.
  { simpl. pose proof (credit_nonneg bk t (proj2 Hok)).
    pose proof (Qmult_le_0_compat _ _ Hrho (inject_Z_nonneg (b - t) ltac:(lia))).
    change (inject_Z (Z.of_nat (sends_upto b []))) with 0%Q. lra. }
  destruct Hclock as [Htu Hclock].
  assert (Hoku : bucket_ok maxRPS bk u) by (by apply (bucket_ok_later _ t)).
  pose proof (credit_nonneg bk t (proj2 Hok)) as Hc0.
  pose proof (Qmult_le_0_compat _ _ Hrho (inject_Z_nonneg (b - t) ltac:(lia))) as Hd0.
  destruct (Z.lt_ge_cases b u) as [Hlate|Hin].
  { rewrite (sends_upto_late maxRPS b (u :: ticks) bk u); [|split; [lia|done]|lia].
    change (inject_Z (Z.of_nat 0)) with 0%Q. lra. }
  destruct (refill_facts bk u Hoku) as (Hok1 & Hle & _).
  pose proof (credit_later bk t u) as Hshift.
  pose proof (iteration_facts bk u Hoku) as Hit.
  pose proof (iteration_ok bk u Hoku) as Hok2.
  assert (Hsplit : (rho * inject_Z (b - t)
                    == rho * inject_Z (u - t) + rho * inject_Z (b - u))%Q).
  { unfold Z.sub. rewrite !inject_Z_plus, !inject_Z_opp. ring. }
  simpl. destruct (acquire_iteration maxRPS u bk) as [[] bk2]; simpl in Hit, Hok2.
  - destruct Hit as [_ Hpay].
    pose proof (IH bk2 u Hok2 Hclock ltac:(lia)) as Hrest.
    unfold sends_upto in *. simpl. destruct (Z.leb_spec u b); [|lia]. simpl length.
    rewrite Nat2Z.inj_succ. unfold Z.succ. rewrite inject_Z_plus.
    change (inject_Z 1) with 1%Q. lra.
  - subst bk2. pose proof (IH _ u Hok2 Hclock ltac:(lia)) as Hrest. lra.
Qed.

(** The sends of a window of [d] milliseconds that begins at a reading. *)
Lemma sends_upto_window (u b d : Z) (ticks : list Z) (bk : Bucket) :
  bucket_ok maxRPS bk u -> clock_from u ticks -> b <= u + d -> 0 <= d ->
  (inject_Z (Z.of_nat (sends_upto b (grants maxRPS (u :: ticks) bk)))
   < inject_Z (Qceiling maxRPS) + lam + rho * inject_Z d)%Q.
Proof.
  intros Hok Hclock Hb Hd.
  pose proof ceiling_rate_nonneg as Hc0. apply inject_Z_nonneg in Hc0.
  pose proof (Qmult_le_0_compat _ _ Hrho (inject_Z_nonneg d Hd)) as Hd0.
  destruct (refill_facts bk u Hok) as (Hok1 & _ & Hcapq).
  pose proof lam_pos as Hlam.
  destruct (Z.lt_ge_cases b u) as [Hlate|Hin].
  { rewrite (sends_upto_late maxRPS b (u :: ticks) bk u); [|split; [lia|done]|lia].
    change (inject_Z (Z.of_nat 0)) with 0%Q. lra. }
  pose proof (iteration_facts bk u Hok) as Hit.
  pose proof (iteration_ok bk u Hok) as Hok2.
  assert (Hbd : (rho * inject_Z (b - u) <= rho * inject_Z d)%Q).
  { rewrite !(Qmult_comm rho). apply Qmult_le_compat_r; [|exact Hrho].
    rewrite <- Zle_Qle. lia. }
  simpl. destruct (acquire_iteration maxRPS u bk) as [[] bk2]; simpl in Hit, Hok2.
  - destruct Hit as [_ Hpay].
    pose proof (sends_upto_credit b ticks bk2 u Hok2 Hclock Hin) as Hrest.
    unfold sends_upto in *. simpl. destruct (Z.leb_spec u b); [|lia]. simpl length.
    rewrite Nat2Z.inj_succ. unfold Z.succ. rewrite inject_Z_plus.
    change (inject_Z 1) with 1%Q. lra.
  - subst bk2.
    pose proof (sends_upto_credit b ticks _ u Hok2 Hclock Hin) as Hrest. lra.
Qed.

Lemma sends_within_window (a d : Z) (ticks : list Z) (bk : Bucket) (t : Z) :
  0 <= d -> bucket_ok maxRPS bk t -> clock_from t ticks ->
  (inject_Z (Z.of_nat (sends_within a (a + d) (grants maxRPS ticks bk)))
   < inject_Z (Qceiling maxRPS) + lam + rho * inject_Z d)%Q.
Proof.
  intros Hd. revert bk t. pose proof lam_pos as Hlam.
  pose proof ceiling_rate_nonneg as Hc0. apply inject_Z_nonneg in Hc0.
  pose proof (Qmult_le_0_compat _ _ Hrho (inject_Z_nonneg d Hd)) as Hd0.
  induction ticks as [|u ticks IH]; intros bk t Hok Hclock.
  { change (inject_Z (Z.of_nat (sends_within a (a + d) (grants maxRPS [] bk))))
      with 0%Q. lra. }
  destruct Hclock as [Htu Hclock].
  assert (Hoku : bucket_ok maxRPS bk u) by (by apply (bucket_ok_later _ t)).
  destruct (Z.lt_ge_cases u a) as [Hbefore|Hin].
  - pose proof (iteration_ok bk u Hoku) as Hok2.
    assert (Hskip : sends_within a (a + d) (grants maxRPS (u :: ticks) bk)
                    = sends_within a (a + d)
                        (grants maxRPS ticks (snd (acquire_iteration maxRPS u bk)))).
    { simpl. destruct (acquire_iteration maxRPS u bk) as [[] bk2]; [|reflexivity].
      unfold sends_within. simpl. destruct (Z.leb_spec a u); [lia | reflexivity]. }
    rewrite Hskip. by apply (IH _ u).
  - eapply Qle_lt_trans;
      [|apply (sends_upto_window u (a + d) d ticks bk Hoku Hclock); lia].
    rewrite <- Zle_Qle. apply inj_le, sends_within_upto.
Qed.

End Account.
Lemma one_token_exact_true : one_token_exact = true.
Proof. vm_compute. reflexivity. Qed.

Lemma toAdd_one_token (n ms : Z) :
  0 <= n -> 0 <= ms -> n * ms = 1000 -> toAdd (inject_Z n) ms = 1.
Proof.
  intros Hn Hms Hprod.
  assert (Hn1 : 1 <= n <= 1000).
  { assert (n <> 0) by (intros ->; lia).
    assert (ms <> 0) by (intros ->; lia).
    pose proof (Z.mul_le_mono_nonneg_l 1 ms n Hn ltac:(lia)). lia. }
  pose proof one_token_exact_true as Hall. unfold one_token_exact in Hall.
  rewrite forallb_forall in Hall.
  specialize (Hall (Z.to_nat n)). rewrite Z2Nat.id in Hall by lia.
  assert (Hin : In (Z.to_nat n) (seq 1 1000)) by (apply in_seq; lia).
  specialize (Hall Hin).
  assert (Hdiv : 1000 / n = ms) by (symmetry; apply (Z.div_unique_exact 1000 n ms); lia).
  assert (Hmod : 1000 mod n = 0) by (rewrite Z.mod_divide by lia; exists ms; lia).
  rewrite Hmod, Hdiv in Hall. simpl in Hall. by apply Z.eqb_eq.
Qed.

Lemma inject_Z_prod_bound (n ms : Z) (bound : Z) :
  n * ms <= bound -> (inject_Z ms * inject_Z n <= inject_Z bound)%Q.
Proof.
  intros H. rewrite <- inject_Z_mult, <- Zle_Qle. lia.
Qed.

(** For a whole rate of up to [10^9] the rounding adds no token: a refill
    adds at most what fell due, and it adds nothing only while less than
    one token fell due. *)
Lemma whole_rate_due (n ms : Z) :
  0 <= n <= 10 ^ 9 -> 0 <= ms -> 1 <= toAdd (inject_Z n) ms ->
  (inject_Z (toAdd (inject_Z n) ms) <= inject_Z n * (1 # 1000) * inject_Z ms)%Q
  \/ (inject_Z (Qceiling (inject_Z n)) <= inject_Z n * (1 # 1000) * inject_Z ms)%Q.
Proof.
  intros [Hn0 Hn] Hms Hadd.
  assert (Hr : (0 <= inject_Z n)%Q) by (by apply inject_Z_nonneg).
  assert (Hprod : (inject_Z n * (1 # 1000) * inject_Z ms
                   == inject_Z (n * ms) * (1 # 1000))%Q)
    by (rewrite inject_Z_mult; ring).
  destruct (Z.lt_ge_cases ms 1000) as [Hshort|Hlong].
  - left. pose proof (toAdd_upper (inject_Z n) ms Hr Hms Hadd) as Hup.
    set (k := toAdd (inject_Z n) ms) in *.
    assert (Hk : 1000 * k <= n * ms).
    { destruct (Z.lt_ge_cases (n * ms) (1000 * k)) as [Hlt|]; [exfalso|lia].
      assert (Hlt' : (inject_Z (n * ms) + 1 <= 1000 * inject_Z k)%Q).
      { change 1%Q with (inject_Z 1). change 1000%Q with (inject_Z 1000).
        rewrite <- inject_Z_plus, <- inject_Z_mult, <- Zle_Qle. lia. }
      assert (Hb : (inject_Z (n * ms) <= inject_Z (10 ^ 12))%Q)
        by (rewrite <- Zle_Qle; nia).
      assert (Hc : (inject_Z ms * inject_Z n == inject_Z (n * ms))%Q)
        by (rewrite inject_Z_mult; ring).
      assert (Hb' : (inject_Z (10 ^ 12) == 1000000000000)%Q) by reflexivity.
      unfold unit_roundoff in Hup. lra. }
    rewrite Hprod.
    assert (Hk' : (1000 * inject_Z k <= inject_Z (n * ms))%Q).
    { change 1000%Q with (inject_Z 1000). by rewrite <- inject_Z_mult, <- Zle_Qle. }
    lra.
  - right. rewrite Qceiling_Z, Hprod.
    assert (Hk' : (1000 * inject_Z n <= inject_Z (n * ms))%Q).
    { change 1000%Q with (inject_Z 1000). rewrite <- inject_Z_mult, <- Zle_Qle. nia. }
    lra.
Qed.

Lemma whole_rate_wait (n ms : Z) :
  0 <= n -> 0 <= ms -> toAdd (inject_Z n) ms <= 0 ->
  (inject_Z n * (1 # 1000) * inject_Z ms < 1)%Q.
Proof.
  intros Hn0 Hms Hnone.
  assert (Hr : (0 <= inject_Z n)%Q) by (by apply inject_Z_nonneg).
  assert (Hprod : (inject_Z n * (1 # 1000) * inject_Z ms
                   == inject_Z (n * ms) * (1 # 1000))%Q)
    by (rewrite inject_Z_mult; ring).
  assert (Hlt : n * ms < 1000).
  { destruct (Z.lt_ge_cases (n * ms) 1000) as [|Hge]; [done|exfalso].
    destruct (Z.eq_dec (n * ms) 1000) as [Heq|Hne].
    - rewrite (toAdd_one_token n ms Hn0 Hms Heq) in Hnone. lia.
    - pose proof (toAdd_lower (inject_Z n) ms Hr Hms Hnone) as Hlow.
      assert (Hb : (1001 <= inject_Z (n * ms))%Q).
      { change 1001%Q with (inject_Z 1001). rewrite <- Zle_Qle. lia. }
      assert (Hc : (inject_Z ms * inject_Z n == inject_Z (n * ms))%Q)
        by (rewrite inject_Z_mult; ring).
      unfold unit_roundoff in Hlow. lra. }
  rewrite Hprod.
  assert (Hlt' : (inject_Z (n * ms) < 1000)%Q).
  { change 1000%Q with (inject_Z 1000). by rewrite <- Zlt_Qlt. }
  lra.
Qed.

(** For any rate the rounding adds at most four units in the last place. *)
Lemma any_rate_due (maxRPS : Q) (ms : Z) :
  (0 <= maxRPS)%Q -> 0 <= ms -> 1 <= toAdd maxRPS ms ->
  (inject_Z (toAdd maxRPS ms)
   <= maxRPS * ((1 + 4 * unit_roundoff) * (1 # 1000)) * inject_Z ms)%Q.
Proof.
  intros Hr Hms Hadd. pose proof (toAdd_upper maxRPS ms Hr Hms Hadd) as Hup.
  unfold unit_roundoff in *. lra.
Qed.

Lemma any_rate_wait (maxRPS : Q) (ms : Z) :
  (0 <= maxRPS)%Q -> 0 <= ms -> toAdd maxRPS ms <= 0 ->
  (maxRPS * ((1 + 4 * unit_roundoff) * (1 # 1000)) * inject_Z ms
   < 1 + 8 * unit_roundoff)%Q.
Proof.
  intros Hr Hms Hnone. pose proof (toAdd_lower maxRPS ms Hr Hms Hnone) as Hlow.
  unfold unit_roundoff in *. lra.
Qed.

Lemma new_Bucket_ok (maxRPS : Q) (t0 : Z) : bucket_ok maxRPS (new_Bucket maxRPS t0) t0.
Proof. split; simpl; lia. Qed.

Lemma sends_within_second (maxRPS : Q) (a : Z) (ticks : list Z) (bk : Bucket) (t : Z) :
  (0 <= maxRPS)%Q -> (maxRPS <= 1000000000000000)%Q ->
  bucket_ok maxRPS bk t -> clock_from t ticks ->
  (inject_Z (Z.of_nat (sends_within a (a + 1000) (grants maxRPS ticks bk)))
   < inject_Z (Qceiling maxRPS) + (maxRPS + 1) * (1 + 8 * unit_roundoff))%Q.
Proof.
  intros Hr Hmax Hok Hclock.
  assert (Hcap : Qceiling maxRPS < 2 ^ 53).
  { apply Z.le_lt_trans with 1000000000000000; [|reflexivity].
    by apply (Qceiling_le_int maxRPS 1000000000000000). }
  eapply Qlt_le_trans;
    [apply (sends_within_window maxRPS
              (maxRPS * ((1 + 4 * unit_roundoff) * (1 # 1000)))
              (1 + 8 * unit_roundoff) Hr Hcap) with (t := t);
     [ | | | lia | exact Hok | exact Hclock] |].
  - unfold unit_roundoff. apply Qmult_le_0_compat; [exact Hr | discriminate].
  - intros ms Hms Hadd. left. by apply any_rate_due.
  - intros ms Hms Hnone. by apply any_rate_wait.
  - change (inject_Z 1000) with 1000%Q. unfold unit_roundoff. lra.
Qed.

Lemma sends_within_second_whole (n a : Z) (ticks : list Z) (bk : Bucket) (t : Z) :
  0 <= n <= 10 ^ 9 ->
  bucket_ok (inject_Z n) bk t -> clock_from t ticks ->
  Z.of_nat (sends_within a (a + 1000) (grants (inject_Z n) ticks bk)) <= 2 * n.
Proof.
  intros Hn Hok Hclock.
  assert (Hr : (0 <= inject_Z n)%Q) by (apply inject_Z_nonneg; lia).
  assert (Hcap : Qceiling (inject_Z n) < 2 ^ 53).
  { rewrite Qceiling_Z. apply Z.le_lt_trans with (10 ^ 9); [lia | reflexivity]. }
  assert (Hlt : (inject_Z (Z.of_nat (sends_within a (a + 1000)
                                       (grants (inject_Z n) ticks bk)))
                 < inject_Z (2 * n + 1))%Q).
  { eapply Qlt_le_trans;
      [apply (sends_within_window (inject_Z n) (inject_Z n * (1 # 1000)) 1
                Hr Hcap) with (t := t);
       [ | | | lia | exact Hok | exact Hclock] |].
    - apply Qmult_le_0_compat; [exact Hr | discriminate].
    - intros ms Hms Hadd. by apply whole_rate_due.
    - intros ms Hms Hnone. apply whole_rate_wait; [lia | done | done].
    - rewrite Qceiling_Z, inject_Z_plus, inject_Z_mult.
      change (inject_Z 1000) with 1000%Q. change (inject_Z 2) with 2%Q.
      change (inject_Z 1) with 1%Q. lra. }
  rewrite <- Zlt_Qlt in Hlt. lia.
Qed.

(** C4, as the code has it: a token bucket.  For a rate [maxRPS] from 0 to
    [10^15] and a clock that does not run backwards, the sends let through
    in any window of one second stay below the capacity of the bucket, the
    rate rounded up, and what falls due during the second and while the
    loop waits, [maxRPS + 1] up to the rounding of binary64: they are at
    most twice the rate rounded up and one more, and for a whole rate of up
    to [10^9] at most twice the rate. *)
Theorem acquireToken_window_bound :
  forall (maxRPS : Q) (t0 : Z) (ticks : list Z) (a : Z),
    (0 <= maxRPS)%Q -> (maxRPS <= 1000000000000000)%Q ->
    clock_from t0 ticks ->
    let sent := sends_within a (a + 1000) (grants maxRPS ticks (new_Bucket maxRPS t0)) in
    (inject_Z (Z.of_nat sent)
     < inject_Z (Qceiling maxRPS) + (maxRPS + 1) * (1 + 8 * unit_roundoff))%Q
    /\ Z.of_nat sent <= burst_bound maxRPS + 1
    /\ (forall n : Z, maxRPS = inject_Z n -> n <= 10 ^ 9 ->
        Z.of_nat sent <= burst_bound maxRPS).
Proof.
  intros maxRPS t0 ticks a Hr Hmax Hclock sent.
  pose proof (sends_within_second maxRPS a ticks _ t0 Hr Hmax
                (new_Bucket_ok maxRPS t0) Hclock) as Hreal.
  fold sent in Hreal.
  split; [exact Hreal|]. split.
  - pose proof (Qle_ceiling maxRPS) as Hceil.
    assert (Hlt : (inject_Z (Z.of_nat sent) < inject_Z (burst_bound maxRPS + 2))%Q).
    { unfold burst_bound. rewrite inject_Z_plus, inject_Z_mult.
      change (inject_Z 2) with 2%Q. unfold unit_roundoff in Hreal. lra. }
    rewrite <- Zlt_Qlt in Hlt. lia.
  - intros n -> Hn. unfold burst_bound. rewrite Qceiling_Z.
    assert (Hn0 : 0 <= n).
    { change 0%Q with (inject_Z 0) in Hr. by rewrite <- Zle_Qle in Hr. }
    apply (sends_within_second_whole n a ticks _ t0); [lia | | exact Hclock].
    apply new_Bucket_ok.
Qed.

Lemma acquireToken_window_bound_witness :
  (0 <= 2)%Q /\ (2 <= 1000000000000000)%Q
  /\ clock_from 0 burst
  /\ Z.of_nat (sends_within 400 (400 + 1000) (grants 2 burst (new_Bucket 2 0)))
     <= burst_bound 2.
Proof.
  assert (Hrate : (0 <= 2)%Q) by discriminate.
  assert (Hmax : (2 <= 1000000000000000)%Q) by discriminate.
  assert (Hclock : clock_from 0 burst) by (simpl; lia).
  split; [exact Hrate|]. split; [exact Hmax|]. split; [exact Hclock|].
  exact (proj2 (proj2 (acquireToken_window_bound 2 0 burst 400 Hrate Hmax Hclock))
           2 eq_refl ltac:(lia)).
Defined.


(** * Further properties of the library *)

(** ** Distances and moves of a piece *)

(** X1: [Board.distance] is a metric on the squares: it is never negative,
    it is 0 exactly between a square and itself, it is the same in both
    directions, and it obeys the triangle inequality. *)
Theorem Board_distance_metric :
  forall (x1 y1 x2 y2 x3 y3 : Z) (floor : bool),
    0 <= Board_distance x1 y1 x2 y2 floor
    /\ (Board_distance x1 y1 x2 y2 floor = 0 <-> x1 = x2 /\ y1 = y2)
    /\ Board_distance x1 y1 x2 y2 floor = Board_distance x2 y2 x1 y1 floor
    /\ Board_distance x1 y1 x3 y3 floor
       <= Board_distance x1 y1 x2 y2 floor + Board_distance x2 y2 x3 y3 floor.
Proof.
  intros x1 y1 x2 y2 x3 y3 floor. unfold Board_distance. cbv zeta.
  repeat split; lia.
Qed.

Lemma eqb_opp_0 (d : Z) : (- d =? 0) = (d =? 0).
Proof. destruct (Z.eqb_spec (- d) 0), (Z.eqb_spec d 0); lia || reflexivity. Qed.

Lemma typeRule_opp (p q : Piece) (dist dx dy : Z) :
  _type q = _type p -> _type p <> PIECE_TYPE_PAWN ->
  Piece_typeRule q dist (- dx) (- dy) = Piece_typeRule p dist dx dy.
Proof.
  intros Ht Hp. unfold Piece_typeRule. rewrite Ht.
  destruct (_type p); try done; by rewrite ?Z.abs_opp, ?eqb_opp_0.
Qed.

(** X2: a normal move of any piece but a pawn can be taken back: after
    [move] or [capture] has put the piece on the destination, [canMoveTo]
    accepts the way back exactly when it accepted the way there. *)
Theorem canMoveTo_reversible :
  forall (p : Piece) (toX toY : Z) (floor : bool),
    _type p <> PIECE_TYPE_PAWN ->
    Piece_canMoveTo (Piece_move p toX toY floor) (x p) (y p) MOVE_TYPE_NORMAL
    = Piece_canMoveTo p toX toY MOVE_TYPE_NORMAL
    /\ Piece_canMoveTo (Piece_capture p toX toY floor) (x p) (y p) MOVE_TYPE_NORMAL
       = Piece_canMoveTo p toX toY MOVE_TYPE_NORMAL.
Proof.
  intros p toX toY floor Hp.
  assert (Hback : forall q : Piece,
             x q = toX -> y q = toY -> _type q = _type p ->
             Piece_canMoveTo q (x p) (y p) MOVE_TYPE_NORMAL
             = Piece_canMoveTo p toX toY MOVE_TYPE_NORMAL).
  { intros q Hx Hy Ht. unfold Piece_canMoveTo, Board_distance. rewrite Hx, Hy.
    replace (x p - toX) with (- (toX - x p)) by lia.
    replace (y p - toY) with (- (toY - y p)) by lia.
    rewrite !Z.abs_opp, !eqb_opp_0.
    destruct (_ >? _); [reflexivity|].
    destruct (_ && _); [reflexivity|].
    by apply typeRule_opp. }
  split; by apply Hback.
Qed.

Lemma canMoveTo_reversible_witness :
  _type rook_100 <> PIECE_TYPE_PAWN
  /\ Piece_canMoveTo (Piece_move rook_100 100 101 false) 100 100 MOVE_TYPE_NORMAL
     = Piece_canMoveTo rook_100 100 101 MOVE_TYPE_NORMAL.
Proof.
  assert (Hrook : _type rook_100 <> PIECE_TYPE_PAWN) by (simpl; discriminate).
  split; [exact Hrook|].
  exact (proj1 (canMoveTo_reversible rook_100 100 101 false Hrook)).
Defined.

(** Decides the comparisons of integers that a goal or a hypothesis tests. *)
Ltac decide_tests :=
  rewrite ?Z.gtb_ltb, ?Z.geb_leb in *;
  repeat match goal with
    | H : context [?a =? ?b] |- _ => destruct (Z.eqb_spec a b)
    | H : context [?a <? ?b] |- _ => destruct (Z.ltb_spec a b)
    | H : context [?a <=? ?b] |- _ => destruct (Z.leb_spec a b)
    | |- context [?a =? ?b] => destruct (Z.eqb_spec a b)
    | |- context [?a <? ?b] => destruct (Z.ltb_spec a b)
    | |- context [?a <=? ?b] => destruct (Z.leb_spec a b)
    end.

(** X3: a pawn only walks forward.  A normal move that [canMoveTo] accepts
    for a pawn built by the constructor goes one or two rows towards lower
    [y] for white and towards higher [y] for black, and at most one column
    aside; two rows only straight on and only while the pawn has not moved.
    Once the move is made the way back is refused. *)
Theorem pawn_moves_forward :
  forall (data : PieceData) (x1 y1 x2 y2 : Z) (floor : bool),
    d_type data = PIECE_TYPE_PAWN ->
    Piece_canMoveTo (new_Piece x1 y1 data) x2 y2 MOVE_TYPE_NORMAL = true ->
    Z.abs (x2 - x1) <= 1
    /\ (if d_isWhite data
        then y2 - y1 = -1 \/ y2 - y1 = -2
        else y2 - y1 = 1 \/ y2 - y1 = 2)
    /\ (Z.abs (y2 - y1) = 2 -> x2 = x1 /\ d_moveCount data < 1)
    /\ Piece_canMoveTo (Piece_move (new_Piece x1 y1 data) x2 y2 floor) x1 y1
         MOVE_TYPE_NORMAL = false.
Proof.
  intros [i t w f m c] x1 y1 x2 y2 floor Ht Hcan. simpl in Ht. subst t.
  unfold Piece_canMoveTo, Piece_typeRule, Board_distance, eq_direction,
    Piece_maxMoveDistance, Piece_move, Piece__move, new_Piece in *.
  simpl in *.
  destruct w; simpl in *; decide_tests; simpl in *; try discriminate;
    repeat split; try lia; try reflexivity.
Qed.

Lemma pawn_moves_forward_witness :
  Piece_canMoveTo (new_Piece 10 10 (mkPieceData 1 PIECE_TYPE_PAWN true no_flags 0 0))
    10 8 MOVE_TYPE_NORMAL = true
  /\ Piece_canMoveTo
       (Piece_move (new_Piece 10 10 (mkPieceData 1 PIECE_TYPE_PAWN true no_flags 0 0))
          10 8 false) 10 10 MOVE_TYPE_NORMAL = false.
Proof.
  split; [reflexivity|].
  exact (proj2 (proj2 (proj2
           (pawn_moves_forward (mkPieceData 1 PIECE_TYPE_PAWN true no_flags 0 0)
              10 10 10 8 false eq_refl eq_refl)))).
Defined.

(** ** The store of a board *)

Lemma static_pieceInBounds_spec (x' y' : Z) :
  Board_static_pieceInBounds x' y' = true <-> 0 <= x' <= 7999 /\ 0 <= y' <= 7999.
Proof.
  unfold Board_static_pieceInBounds.
  change Board_minPieceCoords with 0. change Board_maxPieceCoords with 7999.
  rewrite !andb_true_iff, !Z.geb_leb, !Z.leb_le. lia.
Qed.

(** X4: with validation on, [movePiece] returns only for a legal move
    inside the viewport: the piece and the destination lie in the viewport
    and in the world, [canMoveTo] accepts the move, and the piece goes at
    least one and at most 25 squares; in every other case it throws a
    [ChessError]. *)
Theorem movePiece_validated_is_legal :
  forall (b : Board) (p : Piece) (toX toY : Z) (type : MoveTypes) (capture : bool),
    match Board_movePiece b (Some p) toX toY type capture true with
    | Ok (p', b') =>
        Board_pieceInBounds b (x p) (y p) = true
        /\ Board_pieceInBounds b toX toY = true
        /\ Piece_canMoveTo p toX toY type = true
        /\ 1 <= Board_distance (x p) (y p) toX toY false <= 25
        /\ 0 <= toX <= 7999 /\ 0 <= toY <= 7999
    | Throw e =>
        err_name e = ChessError
        /\ (Board_pieceInBounds b (x p) (y p) = false
            \/ Board_pieceInBounds b toX toY = false
            \/ Piece_canMoveTo p toX toY type = false)
    end.
Proof.
  intros b p toX toY type capture.
  unfold Board_movePiece, Board__validatePieceMove.
  destruct (Board_pieceInBounds b (x p) (y p)) eqn:Hfrom; simpl; [|by auto].
  destruct (Board_pieceInBounds b toX toY) eqn:Hto; simpl; [|by auto].
  destruct (Piece_canMoveTo p toX toY type) eqn:Hcan; simpl; [|by auto].
  split; [reflexivity|]. split; [reflexivity|]. split; [reflexivity|].
  apply andb_prop in Hto as [Hworld _].
  apply static_pieceInBounds_spec in Hworld.
  split; [|exact Hworld].
  pose proof (canMoveTo_not_in_place _ _ _ _ Hcan) as Hne.
  unfold Piece_canMoveTo, Piece_maxMoveDistance in Hcan.
  destruct (Z.gtb_spec (Board_distance (x p) (y p) toX toY false) 25); [done|].
  split; [|lia]. unfold Board_distance in *.
  assert (toX <> x p \/ toY <> y p)
    by (destruct (decide (toX = x p)); [right; congruence | by left]).
  lia.
Qed.

Lemma pieceInBounds_with_entries (b : Board) (m : JsMap (Z * Z) Piece) (x' y' : Z) :
  Board_pieceInBounds (with_entries b m) x' y' = Board_pieceInBounds b x' y'.
Proof. reflexivity. Qed.

(** X5: what [set] stores, [get] returns.  When the square lies in the
    viewport, or neither call validates, [get] after [set] at the same
    square gives the piece that was handed in (a plain record as the piece
    the constructor makes of it at that square); at every other square
    [get] gives what it gave before. *)
Theorem get_after_set :
  forall (b : Board) (x' y' : Z) (piece : PieceArg) (validate validate' : bool),
    (validate || validate' = true -> Board_pieceInBounds b x' y' = true) ->
    Board_get (Board_set b x' y' piece validate) x' y' validate'
    = Some match piece with
           | APiece p => p
           | AData d => new_Piece x' y' d
           end
    /\ Board_has (Board_set b x' y' piece validate) x' y' validate' = true
    /\ forall (x2 y2 : Z) (v : bool),
         (x2, y2) <> (x', y') ->
         Board_get (Board_set b x' y' piece validate) x2 y2 v = Board_get b x2 y2 v.
Proof.
  intros b x' y' piece validate validate' Hin.
  assert (Hset : Board_set b x' y' piece validate
                 = with_entries b
                     (Map_set (x', y')
                        match piece with
                        | APiece p => p
                        | AData d => new_Piece x' y' d
                        end (entries b))).
  { unfold Board_set. destruct validate; simpl; [|reflexivity].
    by rewrite Hin. }
  assert (Hget : validate' && negb (Board_pieceInBounds b x' y') = false).
  { destruct validate'; simpl; [|reflexivity]. rewrite Hin; [reflexivity|].
    by rewrite orb_true_r. }
  split; [|split].
  - rewrite Hset. unfold Board_get. rewrite pieceInBounds_with_entries, Hget.
    unfold Board__getCoordsKey; simpl. rewrite Map_get_set.
    by destruct (decide ((x', y') = (x', y'))).
  - rewrite Hset. unfold Board_has. rewrite pieceInBounds_with_entries, Hget.
    unfold Board__getCoordsKey, Map_has; simpl. rewrite Map_get_set.
    by destruct (decide ((x', y') = (x', y'))).
  - intros x2 y2 v Hne. unfold Board_set.
    destruct (validate && _); [reflexivity|].
    unfold Board_get. rewrite pieceInBounds_with_entries.
    destruct (v && _); [reflexivity|].
    unfold Board__getCoordsKey; simpl. rewrite Map_get_set.
    destruct (decide ((x', y') = (x2, y2))); [congruence | reflexivity].
Qed.

Lemma get_after_set_witness :
  (true || true = true -> Board_pieceInBounds (board client_100) 100 101 = true)
  /\ Board_get (Board_set (board client_100) 100 101 (AData rook7) true) 100 101 true
     = Some (new_Piece 100 101 rook7).
Proof.
  assert (Hin : true || true = true -> Board_pieceInBounds (board client_100) 100 101 = true)
    by reflexivity.
  split; [exact Hin|].
  exact (proj1 (get_after_set (board client_100) 100 101 (AData rook7) true true Hin)).
Defined.

(** X6: [delete] tells whether the square held a piece, and afterwards the
    square is empty.  When the square lies in the viewport, or nothing is
    validated, [delete] returns what [has] returned, [get] and [has] then
    find nothing there, and every other square is as before. *)
Theorem get_after_delete :
  forall (b : Board) (x' y' : Z) (validate validate' : bool),
    (validate = true -> Board_pieceInBounds b x' y' = true) ->
    fst (Board_delete b x' y' validate) = Board_has b x' y' validate
    /\ Board_get (snd (Board_delete b x' y' validate)) x' y' validate' = None
    /\ Board_has (snd (Board_delete b x' y' validate)) x' y' validate' = false
    /\ forall (x2 y2 : Z) (v : bool),
         (x2, y2) <> (x', y') ->
         Board_get (snd (Board_delete b x' y' validate)) x2 y2 v = Board_get b x2 y2 v.
Proof.
  intros b x' y' validate validate' Hin.
  assert (Hchk : validate && negb (Board_pieceInBounds b x' y') = false).
  { destruct validate; simpl; [|reflexivity]. by rewrite Hin. }
  unfold Board_delete, Board_has, Board_get. rewrite Hchk. simpl.
  unfold Board__getCoordsKey, Map_has.
  split; [reflexivity|]. split; [|split].
  - destruct (validate' && _); [reflexivity|]. rewrite Map_get_delete.
    by destruct (decide ((x', y') = (x', y'))).
  - destruct (validate' && _); [reflexivity|]. rewrite Map_get_delete.
    by destruct (decide ((x', y') = (x', y'))).
  - intros x2 y2 v Hne. destruct (v && _); [reflexivity|].
    rewrite Map_get_delete.
    destruct (decide ((x', y') = (x2, y2))); [congruence | reflexivity].
Qed.

Lemma get_after_delete_witness :
  (true = true -> Board_pieceInBounds (board client_100) 100 100 = true)
  /\ fst (Board_delete (board client_100) 100 100 true) = true
  /\ Board_get (snd (Board_delete (board client_100) 100 100 true)) 100 100 true = None.
Proof.
  assert (Hin : true = true -> Board_pieceInBounds (board client_100) 100 100 = true)
    by reflexivity.
  split; [exact Hin|].
  split; [reflexivity|].
  exact (proj1 (proj2 (get_after_delete (board client_100) 100 100 true true Hin))).
Defined.

(** ** The viewport of a board *)

Lemma pieceInBounds_spec (b : Board) (x' y' : Z) :
  Board_pieceInBounds b x' y' = true
  <-> (0 <= x' <= 7999 /\ 0 <= y' <= 7999)
      /\ num (leftX b) <= x' <= num (rightX b)
      /\ num (topY b) <= y' <= num (bottomY b).
Proof.
  unfold Board_pieceInBounds, Board__pieceInBounds.
  rewrite andb_true_iff, static_pieceInBounds_spec.
  rewrite !andb_true_iff, !Z.geb_leb, !Z.leb_le. lia.
Qed.

(** X7: the viewport is the square of squares at most [radius] away from
    the center.  On a board with a sound viewport, [pieceInBounds] holds
    exactly for the squares of the world that are near the center on both
    axes; with both centers set that is [Board.distance] from the center at
    most [radius].  An axis without a center takes the coordinate 0 only. *)
Theorem viewport_around_center :
  forall (b : Board) (x' y' : Z),
    view_ok b ->
    (Board_pieceInBounds b x' y' = true
     <-> (0 <= x' <= 7999 /\ 0 <= y' <= 7999)
         /\ axis_near (radius b) (_centerX b) x'
         /\ axis_near (radius b) (_centerY b) y')
    /\ forall cx cy : Z,
         _centerX b = Some cx -> _centerY b = Some cy ->
         (Board_pieceInBounds b x' y' = true
          <-> (0 <= x' <= 7999 /\ 0 <= y' <= 7999)
              /\ Board_distance cx cy x' y' false <= radius b).
Proof.
  intros b x' y' [Hx Hy].
  assert (Hnear : forall (c lo hi : option Z) (v : Z),
             axis_ok (radius b) c lo hi ->
             (num lo <= v <= num hi <-> axis_near (radius b) c v)).
  { intros c lo hi v. unfold axis_ok, axis_near.
    destruct c as [cv|]; [intros (_ & -> & ->) | intros [-> ->]]; simpl; lia. }
  assert (Hall : Board_pieceInBounds b x' y' = true
                 <-> (0 <= x' <= 7999 /\ 0 <= y' <= 7999)
                     /\ axis_near (radius b) (_centerX b) x'
                     /\ axis_near (radius b) (_centerY b) y').
  { rewrite pieceInBounds_spec, (Hnear _ _ _ x' Hx), (Hnear _ _ _ y' Hy). tauto. }
  split; [exact Hall|].
  intros cx cy Hcx Hcy. rewrite Hall, Hcx, Hcy.
  unfold axis_near, Board_distance. lia.
Qed.

Lemma viewport_around_center_witness :
  view_ok (board client_100)
  /\ (Board_pieceInBounds (board client_100) 147 53 = true
      <-> (0 <= 147 <= 7999 /\ 0 <= 53 <= 7999)
          /\ Board_distance 100 100 147 53 false <= radius (board client_100)).
Proof.
  assert (Hview : view_ok (board client_100)).
  { vm_compute. repeat split; first [reflexivity | discriminate]. }
  split; [exact Hview|].
  exact (proj2 (viewport_around_center (board client_100) 147 53 Hview)
           100 100 eq_refl eq_refl).
Defined.

Lemma validateCenterCoords_spec (x' y' : option Z) (msgType : CenterMsg) :
  match Board__validateCenterCoords x' y' msgType with
  | Ok _ =>
      (forall v, x' = Some v -> Board_minCenterCoords <= v <= Board_maxCenterCoords)
      /\ (forall v, y' = Some v -> Board_minCenterCoords <= v <= Board_maxCenterCoords)
  | Throw e =>
      err_name e = ChessError
      /\ exists v, (x' = Some v \/ y' = Some v)
                   /\ (v < Board_minCenterCoords \/ Board_maxCenterCoords < v)
  end.
Proof.
  assert (Hout : forall v, center_out_of_range v = true ->
                           v < Board_minCenterCoords \/ Board_maxCenterCoords < v).
  { intros v. unfold center_out_of_range.
    rewrite orb_true_iff, Z.gtb_ltb, !Z.ltb_lt. tauto. }
  assert (Hin : forall v, center_out_of_range v = false ->
                          Board_minCenterCoords <= v <= Board_maxCenterCoords).
  { intros v. unfold center_out_of_range.
    rewrite orb_false_iff, Z.gtb_ltb, !Z.ltb_ge. lia. }
  unfold Board__validateCenterCoords.
  destruct x' as [vx|], y' as [vy|];
    try (destruct (center_out_of_range vx) eqn:Hx);
    try (destruct (center_out_of_range vy) eqn:Hy); simpl;
    first [ split; intros v [= <-]; by apply Hin
          | split; [reflexivity|]; eexists;
            first [ split; [left; reflexivity | by apply Hout]
                  | split; [right; reflexivity | by apply Hout] ]
          | split; intros v; done ].
Qed.

Lemma setCoords_view_ok (b : Board) (x' y' : option Z) :
  view_ok b ->
  (forall v, x' = Some v -> Board_minCenterCoords <= v <= Board_maxCenterCoords) ->
  (forall v, y' = Some v -> Board_minCenterCoords <= v <= Board_maxCenterCoords) ->
  view_ok (Board__setCoords b x' y').
Proof.
  intros [Hx Hy] Hrx Hry. unfold Board__setCoords, view_ok.
  destruct x' as [vx|], y' as [vy|]; simpl; repeat split;
    try exact Hx; try exact Hy; try (by apply Hrx); by apply Hry.
Qed.

(** X8: the constructor and the setter of [centerX] take a center only
    from the range 2..7997.  [new Board(x, y, length)] with every given
    coordinate in the range returns an empty board of that length (95 when
    none is given) whose viewport reaches [(length - 1) / 2] squares from
    the center on each axis that has one; with a coordinate outside the
    range it throws a [ChessError].  The validation accepts a pair of
    coordinates exactly when [Board.centerInBounds] holds for it.  On a
    board with a sound viewport the setter of [centerX] takes a value of the
    range, moves the bounds of its axis and leaves the store alone, and
    throws a [ChessError] for any other value. *)
Theorem center_is_validated :
  forall (centerX centerY length' : option Z),
    match new_Board centerX centerY length' with
    | Ok b =>
        (forall v, centerX = Some v -> 2 <= v <= 7997)
        /\ (forall v, centerY = Some v -> 2 <= v <= 7997)
        /\ entries b = []
        /\ viewLength b = default 95 length'
        /\ radius b = (default 95 length' - 1) / 2
        /\ _centerX b = centerX /\ _centerY b = centerY
        /\ view_ok b
    | Throw e =>
        err_name e = ChessError
        /\ exists v, (centerX = Some v \/ centerY = Some v) /\ (v < 2 \/ 7997 < v)
    end
    /\ (forall x' y' : Z,
          Board__validateCenterCoords (Some x') (Some y') msg_center = Ok tt
          <-> Board_static_centerInBounds x' y' = true)
    /\ forall (b : Board) (val : Z),
         view_ok b ->
         match Board_set_centerX b val with
         | Ok b' =>
             2 <= val <= 7997 /\ _centerX b' = Some val
             /\ leftX b' = Some (val - radius b) /\ rightX b' = Some (val + radius b)
             /\ entries b' = entries b /\ view_ok b'
         | Throw e => err_name e = ChessError /\ (val < 2 \/ 7997 < val)
         end.
Proof.
  intros centerX centerY length'. split; [|split].
  - unfold new_Board.
    pose proof (validateCenterCoords_spec centerX centerY msg_center) as Hv.
    destruct (Board__validateCenterCoords centerX centerY msg_center) as [[]|e].
    + destruct Hv as [Hx Hy].
      split; [exact Hx|]. split; [exact Hy|].
      split; [by destruct centerX, centerY|].
      split; [by destruct centerX, centerY|].
      split; [by destruct centerX, centerY|].
      split; [by destruct centerX, centerY|].
      split; [by destruct centerX, centerY|].
      apply setCoords_view_ok; [by split | exact Hx | exact Hy].
    + exact Hv.
  - intros x' y'. unfold Board_static_centerInBounds.
    rewrite !andb_true_iff, !Z.geb_leb, !Z.leb_le.
    pose proof (validateCenterCoords_spec (Some x') (Some y') msg_center) as Hv.
    split.
    + intros Hok. rewrite Hok in Hv. destruct Hv as [Hx Hy].
      pose proof (Hx x' eq_refl). pose proof (Hy y' eq_refl). lia.
    + intros Hin. apply validateCenterCoords_in_range; lia.
  - intros b val Hview. unfold Board_set_centerX.
    pose proof (validateCenterCoords_spec (Some val) None msg_center) as Hv.
    destruct (Board__validateCenterCoords (Some val) None msg_center) as [[]|e].
    + destruct Hv as [Hx Hy].
      split; [by apply Hx|]. repeat (split; [reflexivity|]).
      apply setCoords_view_ok; [exact Hview | exact Hx | exact Hy].
    + destruct Hv as [He (v & [[= <-]|[=]] & Hout)]. by split.
Qed.

(** ** The board of a client along its runs *)

Lemma board_ok_with_entries (b : Board) (m : JsMap (Z * Z) Piece) :
  board_ok b ->
  List.NoDup (Map_keys m) ->
  (forall k p, Map_get k m = Some p -> (x p, y p) = k) ->
  board_ok (with_entries b m).
Proof.
  intros (Hlen & Hrad & Hview & _ & _) Hnd Hm.
  split; [exact Hlen|]. split; [exact Hrad|]. split; [exact Hview|]. by split.
Qed.

Lemma Board_delete_ok (b : Board) (x' y' : Z) (validate : bool) :
  board_ok b -> board_ok (snd (Board_delete b x' y' validate)).
Proof.
  intros Hok. unfold Board_delete. destruct (validate && _); simpl; [done|].
  pose proof Hok as (_ & _ & _ & Hnd & Hm).
  apply board_ok_with_entries; [done | by apply Map_keys_delete_NoDup |].
  intros k p. rewrite Map_get_delete. destruct (decide _); [done | apply Hm].
Qed.

Lemma Board_set_ok (b : Board) (x' y' : Z) (piece : PieceArg) (validate : bool) :
  board_ok b ->
  match piece with
  | APiece p => (x p, y p) = (x', y')
  | AData _ => True
  end ->
  board_ok (Board_set b x' y' piece validate).
Proof.
  intros Hok Hpiece. unfold Board_set. destruct (validate && _); [done|].
  pose proof Hok as (_ & _ & _ & Hnd & Hm).
  apply board_ok_with_entries; [done | by apply Map_keys_set_NoDup |].
  intros k p. unfold Board__getCoordsKey. rewrite Map_get_set.
  destruct (decide ((x', y') = k)) as [<-|]; [|apply Hm].
  intros [= <-]. by destruct piece.
Qed.

Lemma Board_clear_ok (b : Board) : board_ok b -> board_ok (Board_clear b).
Proof.
  intros (Hlen & Hrad & _). split; [exact Hlen|]. split; [exact Hrad|].
  split; [by repeat split|]. split; [constructor | done].
Qed.

Lemma Board_set_center_ok (b b' : Board) (val : Z) :
  board_ok b ->
  Board_set_centerX b val = Ok b' \/ Board_set_centerY b val = Ok b' ->
  board_ok b'.
Proof.
  intros (Hlen & Hrad & Hview & Hnd & Hm).
  unfold Board_set_centerX, Board_set_centerY. intros [Hset|Hset].
  - pose proof (validateCenterCoords_spec (Some val) None msg_center) as Hv.
    destruct (Board__validateCenterCoords (Some val) None msg_center) as [[]|e];
      [|done].
    assert (b' = Board__setCoords b (Some val) None) as -> by congruence.
    destruct Hv as [Hx Hy].
    split; [exact Hlen|]. split; [exact Hrad|].
    split; [by apply (setCoords_view_ok b (Some val) None) | by split].
  - pose proof (validateCenterCoords_spec None (Some val) msg_center) as Hv.
    destruct (Board__validateCenterCoords None (Some val) msg_center) as [[]|e];
      [|done].
    assert (b' = Board__setCoords b None (Some val)) as -> by congruence.
    destruct Hv as [Hx Hy].
    split; [exact Hlen|]. split; [exact Hrad|].
    split; [by apply (setCoords_view_ok b None (Some val)) | by split].
Qed.

Lemma Board_movePiece_ok (b b' : Board) (piece : option Piece) (p' : Piece)
    (toX toY : Z) (type : MoveTypes) (capture validate : bool) :
  board_ok b ->
  Board_movePiece b piece toX toY type capture validate = Ok (p', b') ->
  board_ok b'.
Proof.
  intros Hok. unfold Board_movePiece.
  destruct piece as [p|]; [|by destruct validate].
  destruct (if validate then _ else _) as [[]|e]; [|done].
  intros [= _ <-]. apply Board_set_ok; [by apply Board_delete_ok|].
  by destruct (_ || _).
Qed.

Lemma Board_capture_ok (b b' : Board) (found r : option Piece) (validate : bool) :
  board_ok b ->
  Board__performAction found validate
    (fun piece => Board_capturePiece b piece validate) = Ok (r, b') ->
  board_ok b'.
Proof.
  intros Hok. unfold Board__performAction, Board_capturePiece.
  destruct found as [p|]; [|destruct validate; [done|]]; intros [= _ <-];
    [by apply Board_delete_ok | done].
Qed.

Lemma preserves_board {A} (I : Board -> Prop) (f : Board -> Result (A * Board)) :
  (forall b a b', I b -> f b = Ok (a, b') -> I b') ->
  preserves (fun s => I (board s)) (on_board f).
Proof.
  intros Hf s Hs. unfold on_board.
  destruct (f (board s)) as [[a b']|e] eqn:Hfb; simpl; [by eapply Hf | done].
Qed.

(** As [preserves_steps], for a property of the board: what is left are the
    updates of the board. *)
Ltac board_steps :=
  repeat first
    [ progress cbv beta
    | match goal with
      | |- preserves _ (ret _) => apply preserves_ret
      | |- preserves _ (throw _) => apply preserves_throw
      | |- preserves _ (gets _) => apply preserves_gets
      | |- preserves _ (bind _ _) => apply preserves_bind; [|intros ?]
      | |- preserves _ (when false _) => apply (preserves_ret _ tt)
      | |- preserves _ (when _ _) => apply preserves_when
      | |- preserves _ (forEach _ _) => apply preserves_forEach; intros ?
      | |- preserves _ (try_log _) => apply preserves_try_log
      | |- preserves _ (async _) => apply preserves_async
      | |- preserves _ (modify _) => apply preserves_modify; intros ? ?
      | |- preserves _ (on_board _) => apply preserves_board; intros ? ? ? ? ?
      | |- preserves _ (match ?x with _ => _ end) => destruct x
      | |- preserves _ (if ?c then _ else _) => destruct c
      | |- preserves _ (let _ := _ in _) => cbv zeta
      end ].

(** The code of the client, down to the updates of its state. *)
Ltac unfold_client :=
  unfold WsClient_init, WsClient_disconnect, ChessClient_destroy, WsClient_destroy,
    ChessClient_movePiece, ChessClient_moveView, ws_on_open, ws_on_error,
    ws_on_close, ChessClient__handleServerMessage, reconnect_timer_fired,
    ping_timer_fired, pong_timer_fired, move_timer_fired, move_send_failed,
    view_timer_fired, view_send_failed,
    handler_pong, handler_initialState, handler_snapshot, handler_validMove,
    handler_invalidMove, handler_movesAndCaptures, handler_bulkCapture,
    ChessClient__resetBoard, capture_by_id,
    WsClient__onWebsocketError, WsClient__onWebsocketClose,
    WsClient__handleDisconnect, WsClient__resetState, WsClient__connect,
    ChessClient__onWebsocketOpen, ChessClient__schedulePing,
    ChessClient__rejectPendingRequests, ChessClient__clearTimers,
    WsClient__clearTimers, WsClient__cleanupSocket, WsClient__scheduleReconnect,
    WsClient__decrement, WsClient__increment, WsClient__resetReconnecting,
    WsClient__setReconnecting, ChessClient__getIncrMoveToken, clearTimeout, emit.

Lemma preserved_by_event (P : State -> Prop) (ev : Event) :
  (forall A (m : M A), preserves P m -> preserves P (fun s => (Ok tt, exec m s))) /\
  (preserves P (fun s => (Ok tt, run_event ev s)) -> forall s, P s -> P (run_event ev s)).
Proof.
  split.
  - intros A m Hm s Hs. apply Hm, Hs.
  - intros Hp s Hs. apply (Hp s Hs).
Qed.

Lemma board_ok_event (ev : Event) (s : State) :
  board_ok (board s) -> board_ok (board (run_event ev s)).
Proof.
  revert s. apply (preserved_by_event (fun s => board_ok (board s)) ev).
  destruct ev; simpl; apply (preserved_by_event (fun s => board_ok (board s)) Ev_init);
    unfold_client; board_steps;
    try (intros ? ?; unfold setTimeout, newPromise; simpl);
    try (simpl; assumption);
    try (simpl; by apply Board_clear_ok);
    try (simpl; by apply Board_set_ok).
  all: try match goal with
           | H : board_result ?r _ = Ok _ |- _ =>
               unfold board_result in H;
               destruct r as [b1|] eqn:Hset; [|done]; injection H as _ <-;
               eapply Board_set_center_ok; eauto
           end.
  all: try match goal with
           | H : match Board_captureWithId _ _ _ with _ => _ end = Ok _ |- _ =>
               destruct (Board_captureWithId _ _ _) as [[r1 b1]|] eqn:Hcap in H;
               [|done]; injection H as _ <-;
               by eapply Board_capture_ok
           end.
  all: try match goal with
           | H : match Board_movePiece _ _ _ _ _ _ _ with _ => _ end = Ok _ |- _ =>
               destruct (Board_movePiece _ _ _ _ _ _ _) as [[r1 b1]|] eqn:Hmv in H;
               [|done]; injection H as _ <-;
               by eapply Board_movePiece_ok
           end.
Qed.

Lemma board_ok_run (evs : list Event) (s : State) :
  board_ok (board s) -> board_ok (board (run evs s)).
Proof.
  revert s. induction evs as [|ev evs IH]; simpl; intros s Hs; [done|].
  apply IH, board_ok_event, Hs.
Qed.

Lemma new_ChessClient_board_ok (conns : Z) (maxRetry delay : option Z) :
  board_ok (board (new_ChessClient conns maxRetry delay)).
Proof.
  split; [reflexivity|]. split; [reflexivity|].
  split; [by repeat split|]. split; [constructor | done].
Qed.

Lemma client_100_board_ok : board_ok (board client_100).
Proof. apply board_ok_run, new_ChessClient_board_ok. Qed.

(** X9: the board of a client stays sound whatever happens to the client.
    Along every run from the constructor (calls, socket events, inbound
    messages, timer callbacks) the board keeps the length 95 and the radius
    47; on each axis the viewport is either unset or reaches 47 squares to
    both sides of a center within 2..7997; the keys of the store are distinct
    and every stored piece carries the coordinates of its key. *)
Theorem client_board_stays_sound :
  forall (conns : Z) (maxRetry delay : option Z) (evs : list Event),
    let b := board (run evs (new_ChessClient conns maxRetry delay)) in
    viewLength b = 95 /\ radius b = 47
    /\ view_ok b
    /\ keys_distinct b
    /\ coords_match b.
Proof.
  intros conns maxRetry delay evs b.
  apply (board_ok_run evs (new_ChessClient conns maxRetry delay)).
  apply new_ChessClient_board_ok.
Qed.

(** ** Pieces by id *)

Section JsMapEntries.
Context {K V : Type} `{EqDecision K}.
Implicit Types (m : JsMap K V) (k : K) (v : V).

Lemma Map_get_in k v m : Map_get k m = Some v -> In (k, v) m.
Proof.
  induction m as [|[k0 v0] m IH]; simpl; [done|].
  destruct (decide (k = k0)) as [->|]; [intros [= ->]; by left | right; by apply IH].
Qed.

Lemma Map_in_get k v m :
  List.NoDup (Map_keys m) -> In (k, v) m -> Map_get k m = Some v.
Proof.
  induction m as [|[k0 v0] m IH]; simpl; [done|].
  intros Hnd. inversion Hnd as [|? ? Hnotin Hnd']; subst.
  intros [[= -> ->]|Hin].
  - by destruct (decide (k = k)).
  - destruct (decide (k = k0)) as [->|]; [|by apply IH].
    exfalso. apply Hnotin. apply (in_map fst) in Hin. exact Hin.
Qed.

Lemma Map_values_in v m : In v (Map_values m) -> exists k, In (k, v) m.
Proof.
  unfold Map_values. rewrite in_map_iff. intros [[k v'] [Hv Hin]].
  simpl in Hv. subst v'. by exists k.
Qed.
End JsMapEntries.

Lemma getById_spec (b : Board) (id' : Z) :
  keys_distinct b ->
  match Board_getById b id' with
  | Some p => id p = id' /\ exists k, Map_get k (entries b) = Some p
  | None => forall k p, Map_get k (entries b) = Some p -> id p <> id'
  end.
Proof.
  intros Hnd. unfold Board_getById.
  destruct (List.find _ _) as [p|] eqn:Hfind.
  - apply find_some in Hfind as [Hin Hid]. apply Z.eqb_eq in Hid.
    split; [exact Hid|].
    apply Map_values_in in Hin as [k Hin]. exists k. by apply Map_in_get.
  - intros k p Hget Hid. apply Map_get_values in Hget.
    pose proof (find_none _ _ Hfind p Hget) as Hno. simpl in Hno.
    apply Z.eqb_neq in Hno. done.
Qed.

(** X10: [getById] finds what the store holds.  On a board whose keys are
    distinct and whose pieces carry the coordinates of their keys, a piece
    returned by [getById] has the id asked for and is the piece that [get]
    returns at its coordinates; [getById] returns nothing exactly when no
    square holds a piece with that id. *)
Theorem getById_finds_stored_piece :
  forall (b : Board) (id' : Z),
    keys_distinct b -> coords_match b ->
    match Board_getById b id' with
    | Some p => id p = id' /\ Board_get b (x p) (y p) false = Some p
    | None => forall (x' y' : Z) (p : Piece),
                Board_get b x' y' false = Some p -> id p <> id'
    end.
Proof.
  intros b id' Hnd Hm. pose proof (getById_spec b id' Hnd) as Hspec.
  destruct (Board_getById b id') as [p|].
  - destruct Hspec as [Hid [k Hk]]. split; [exact Hid|].
    unfold Board_get, Board__getCoordsKey; simpl.
    by rewrite (Hm k p Hk).
  - intros x' y' p. apply Hspec.
Qed.

Lemma getById_finds_stored_piece_witness :
  keys_distinct (board client_100) /\ coords_match (board client_100)
  /\ match Board_getById (board client_100) 7 with
     | Some p => id p = 7 /\ Board_get (board client_100) (x p) (y p) false = Some p
     | None => forall (x' y' : Z) (p : Piece),
                 Board_get (board client_100) x' y' false = Some p -> id p <> 7
     end.
Proof.
  destruct client_100_board_ok as (_ & _ & _ & Hnd & Hm).
  split; [exact Hnd|]. split; [exact Hm|].
  exact (getById_finds_stored_piece (board client_100) 7 Hnd Hm).
Defined.

Lemma captureWithId_removes_id (b : Board) (id' : Z) :
  keys_distinct b -> coords_match b -> ids_unique b ->
  exists b',
    Board_captureWithId b id' false = Ok (Board_getById b id', b')
    /\ Board_getById b' id' = None
    /\ (forall k q, id q <> id' ->
          (Map_get k (entries b') = Some q <-> Map_get k (entries b) = Some q))
    /\ (forall k q, Map_get k (entries b') = Some q -> Map_get k (entries b) = Some q)
    /\ (Board_getById b id' = None -> b' = b).
Proof.
  intros Hnd Hm Hu.
  pose proof (getById_spec b id' Hnd) as Hspec.
  unfold Board_captureWithId, Board__performAction, Board_capturePiece.
  destruct (Board_getById b id') as [p|] eqn:Hfound.
  - destruct Hspec as [Hid [k Hk]]. pose proof (Hm k p Hk) as Hkey.
    set (b1 := snd (Board_delete b (x p) (y p) false)).
    assert (Hentries : entries b1 = Map_delete k (entries b)).
    { unfold b1, Board_delete, Board__getCoordsKey; simpl. by rewrite Hkey. }
    exists b1. split; [reflexivity|].
    assert (Hgone : forall k' q,
               Map_get k' (entries b1) = Some q ->
               k' <> k /\ Map_get k' (entries b) = Some q).
    { intros k' q. rewrite Hentries, Map_get_delete.
      by destruct (decide (k = k')). }
    split; [|split; [|split; [|done]]].
    + assert (Hnd1 : keys_distinct b1).
      { unfold keys_distinct. rewrite Hentries. by apply Map_keys_delete_NoDup. }
      pose proof (getById_spec b1 id' Hnd1) as Hspec1.
      destruct (Board_getById b1 id') as [q|]; [|reflexivity].
      destruct Hspec1 as [Hidq [k' Hk']].
      apply Hgone in Hk' as [Hne Hk']. exfalso. apply Hne.
      apply (Hu k' k q p Hk' Hk). congruence.
    + intros k' q Hq. split; [apply Hgone|].
      intros Hk'. rewrite Hentries, Map_get_delete.
      destruct (decide (k = k')) as [<-|]; [|exact Hk']. congruence.
    + intros k' q Hq. exact (proj2 (Hgone k' q Hq)).
  - exists b. split; [reflexivity|]. split; [exact Hfound|]. by repeat split.
Qed.

(** X11: [captureWithId] without validation removes the piece with that
    id and nothing else.  On a sound board with unique ids the call returns
    the piece that [getById] finds (or nothing), afterwards [getById] finds
    no piece with that id, every piece with another id lies where it lay,
    and a board that had no such piece is returned as it was. *)
Theorem captureWithId_removes :
  forall (b : Board) (id' : Z),
    keys_distinct b -> coords_match b -> ids_unique b ->
    exists b',
      Board_captureWithId b id' false = Ok (Board_getById b id', b')
      /\ Board_getById b' id' = None
      /\ (forall (x' y' : Z) (q : Piece),
            id q <> id' ->
            (Board_get b' x' y' false = Some q <-> Board_get b x' y' false = Some q))
      /\ (Board_getById b id' = None -> b' = b).
Proof.
  intros b id' Hnd Hm Hu.
  destruct (captureWithId_removes_id b id' Hnd Hm Hu)
    as (b' & Hcap & Hgone & Hkept & _ & Hsame).
  exists b'. split; [exact Hcap|]. split; [exact Hgone|]. split; [|exact Hsame].
  intros x' y' q Hq. unfold Board_get; simpl. by apply Hkept.
Qed.

Lemma captureWithId_removes_witness :
  keys_distinct (board client_100) /\ coords_match (board client_100)
  /\ ids_unique (board client_100)
  /\ exists b',
       Board_captureWithId (board client_100) 7 false
       = Ok (Board_getById (board client_100) 7, b')
       /\ Board_getById b' 7 = None.
Proof.
  destruct client_100_board_ok as (_ & _ & _ & Hnd & Hm).
  split; [exact Hnd|]. split; [exact Hm|]. split; [exact client_100_ids_unique|].
  destruct (captureWithId_removes (board client_100) 7 Hnd Hm client_100_ids_unique)
    as (b' & Hcap & Hgone & _).
  exists b'. by split.
Defined.

Lemma getById_none (b : Board) (id' : Z) :
  keys_distinct b ->
  (forall k p, Map_get k (entries b) = Some p -> id p <> id') ->
  Board_getById b id' = None.
Proof.
  intros Hnd Hno. pose proof (getById_spec b id' Hnd) as Hspec.
  destruct (Board_getById b id') as [p|]; [|reflexivity].
  destruct Hspec as [Hid [k Hk]]. by destruct (Hno k p Hk).
Qed.

Lemma bulk_capture_loop (capturedIds : list Z) (s : State) :
  board_ok (board s) -> ids_unique (board s) ->
  exists b',
    forEach capturedIds capture_by_id s = (Ok tt, set_board s b')
    /\ (forall i, In i capturedIds -> Board_getById b' i = None)
    /\ (forall k q, ~ In (id q) capturedIds ->
          (Map_get k (entries b') = Some q <-> Map_get k (entries (board s)) = Some q))
    /\ (forall k q, Map_get k (entries b') = Some q ->
                    Map_get k (entries (board s)) = Some q)
    /\ board_ok b' /\ ids_unique b'.
Proof.
  revert s. induction capturedIds as [|i ids IH]; intros s Hok Hu.
  - exists (board s). split; [by destruct s|]. split; [by intros i []|].
    split; [done|]. split; [done|]. by split.
  - pose proof Hok as (_ & _ & _ & Hnd & Hm).
    destruct (captureWithId_removes_id (board s) i Hnd Hm Hu)
      as (b1 & Hcap & Hgone & Hkept & Hsub & _).
    assert (Hok1 : board_ok b1) by (by eapply Board_capture_ok).
    assert (Hu1 : ids_unique b1) by (by eapply performAction_capture_ids_unique).
    assert (Hstep : capture_by_id i s = (Ok tt, set_board s b1)).
    { unfold capture_by_id, on_board. by rewrite Hcap. }
    destruct (IH (set_board s b1) Hok1 Hu1)
      as (b2 & Hloop & Hgone2 & Hkept2 & Hsub2 & Hok2 & Hu2).
    exists b2. simpl forEach. unfold bind at 1. rewrite Hstep, Hloop.
    split; [reflexivity|]. simpl board in *.
    split; [|split; [|split; [|by split]]].
    + intros j [<-|Hj]; [|by apply Hgone2].
      apply getById_none; [apply Hok2|].
      intros k p Hp. apply Hsub2 in Hp.
      pose proof (getById_spec b1 i ltac:(apply Hok1)) as Hspec.
      rewrite Hgone in Hspec. by apply (Hspec k).
    + intros k q Hq. rewrite Hkept2 by (intros Hin; apply Hq; by right).
      apply Hkept. intros Heq. apply Hq. by left.
    + intros k q Hq. by apply Hsub, Hsub2.
Qed.

(** X12: a bulk capture removes the pieces it names and no other.  On a
    sound board with unique ids, after the handler of [bulkCapture] no piece
    with one of the captured ids is left, every piece with another id lies
    where it lay, and the board is sound with unique ids again. *)
Theorem bulkCapture_removes_ids :
  forall (s : State) (capturedIds : list Z),
    board_ok (board s) -> ids_unique (board s) ->
    let s' := exec (ChessClient__handleServerMessage (SM_bulkCapture capturedIds)) s in
    (forall i, In i capturedIds -> Board_getById (board s') i = None)
    /\ (forall (x' y' : Z) (q : Piece),
          ~ In (id q) capturedIds ->
          (Board_get (board s') x' y' false = Some q
           <-> Board_get (board s) x' y' false = Some q))
    /\ board_ok (board s') /\ ids_unique (board s').
Proof.
  intros s capturedIds Hok Hu s'.
  destruct (bulk_capture_loop capturedIds s Hok Hu)
    as (b' & Hloop & Hgone & Hkept & _ & Hok' & Hu').
  assert (Hs' : board s' = b').
  { unfold s', exec, ChessClient__handleServerMessage, try_log, handler_bulkCapture.
    simpl. by rewrite Hloop. }
  rewrite Hs'. split; [exact Hgone|]. split; [|by split].
  intros x' y' q Hq. unfold Board_get; simpl. by apply Hkept.
Qed.

Lemma bulkCapture_removes_ids_witness :
  board_ok (board client_100) /\ ids_unique (board client_100)
  /\ Board_getById
       (board (exec (ChessClient__handleServerMessage (SM_bulkCapture [7])) client_100))
       7 = None.
Proof.
  split; [exact client_100_board_ok|]. split; [exact client_100_ids_unique|].
  apply (bulkCapture_removes_ids client_100 [7] client_100_board_ok
           client_100_ids_unique).
  by left.
Defined.

(** ** Searches *)

Lemma passes_tests (fp : FindParams) (piece : Piece) :
  (checkType fp && negb (type_is piece (fp_type fp)))
  || (checkColor fp && negb (color_is piece (fp_color fp))) = false
  <-> passes fp piece.
Proof.
  unfold passes, type_is, color_is.
  rewrite orb_false_iff, !andb_false_iff, !negb_false_iff, !bool_decide_eq_true.
  split.
  - intros [[Ht|Ht] [Hc|Hc]]; split; intros; congruence.
  - intros [Ht Hc]. split.
    + destruct (checkType fp); [right; symmetry; by apply Ht | by left].
    + destruct (checkColor fp); [right; symmetry; by apply Hc | by left].
Qed.

Lemma findInArea_loop_spec (fp : FindParams) (x1 y1 x2 y2 : Z)
    (l : list (Z * Z * Piece)) :
  match findInArea_loop fp x1 y1 x2 y2 l with
  | Some p =>
      exists a c, In ((a, c), p) l /\ passes fp p
                  /\ (x1 <= a <= x2 /\ y1 <= c <= y2)
  | None =>
      forall a c p, In ((a, c), p) l -> passes fp p ->
                    ~ (x1 <= a <= x2 /\ y1 <= c <= y2)
  end.
Proof.
  induction l as [|[[a c] p] l IH]; simpl; [by intros|].
  destruct (_ || _) eqn:Htest.
  - destruct (findInArea_loop fp x1 y1 x2 y2 l) as [q|].
    + destruct IH as (a' & c' & Hin & Hrest). exists a', c'. split; [by right | done].
    + intros a' c' p' [[= -> -> ->]|Hin] Hpass; [|by apply (IH a' c' p')].
      apply passes_tests in Hpass. congruence.
  - apply passes_tests in Htest.
    destruct ((a >=? x1) && (c >=? y1) && (a <=? x2) && (c <=? y2)) eqn:Harea.
    + exists a, c. split; [by left|]. split; [exact Htest|].
      rewrite !andb_true_iff, !Z.geb_leb, !Z.leb_le in Harea. lia.
    + destruct (findInArea_loop fp x1 y1 x2 y2 l) as [q|].
      * destruct IH as (a' & c' & Hin & Hrest). exists a', c'. split; [by right | done].
      * intros a' c' p' [[= -> -> ->]|Hin] Hpass; [|by apply (IH a' c' p')].
        intros Hin. rewrite <- not_true_iff_false in Harea. apply Harea.
        rewrite !andb_true_iff, !Z.geb_leb, !Z.leb_le. lia.
Qed.

(** X13: the searches return a stored piece that passes the filters, and
    nothing only when there is none.  With filters that [_getFindParams]
    accepts, [find] returns a piece of the store that passes them, or
    nothing exactly when no piece of the store does; [findInArea] returns a
    piece that passes them and lies on a square of the area, and it returns
    nothing when the area is empty ([w] or [h] not positive), reaches out of
    the viewport, or holds no such piece. *)
Theorem searches_find_stored_pieces :
  forall (b : Board) (type color : option JsVal) (fp : FindParams),
    keys_distinct b ->
    Board__getFindParams type color = Ok fp ->
    match Board_find b type color with
    | Ok (Some p) => passes fp p /\ exists a c, Board_get b a c false = Some p
    | Ok None => forall a c p, Board_get b a c false = Some p -> ~ passes fp p
    | Throw _ => False
    end
    /\ forall (x' y' w h : Z),
         match Board_findInArea b type color x' y' w h with
         | Ok (Some p) =>
             passes fp p
             /\ exists a c, Board_get b a c false = Some p /\ in_area x' y' w h a c
         | Ok None =>
             w <= 0 \/ h <= 0
             \/ Board_pieceInBounds b x' y' = false
             \/ Board_pieceInBounds b (x' + w - 1) (y' + h - 1) = false
             \/ forall a c p, Board_get b a c false = Some p ->
                              in_area x' y' w h a c -> ~ passes fp p
         | Throw _ => False
         end.
Proof.
  intros b type color fp Hnd Hfp. split.
  - unfold Board_find. rewrite Hfp.
    destruct (List.find _ _) as [p|] eqn:Hfind.
    + apply find_some in Hfind as [Hin Htest].
      split.
      * apply passes_tests.
        destruct (checkType fp), (checkColor fp), (type_is p _), (color_is p _); done.
      * apply Map_values_in in Hin as [[a c] Hin]. exists a, c.
        by apply Map_in_get.
    + intros a c p Hget Hpass. apply Map_get_values in Hget.
      pose proof (find_none _ _ Hfind p Hget) as Hno. simpl in Hno.
      apply passes_tests in Hpass.
      destruct (checkType fp), (checkColor fp), (type_is p _), (color_is p _); done.
  - intros x' y' w h. unfold Board_findInArea. rewrite Hfp. cbv zeta.
    destruct (Z.leb_spec w 0); simpl; [by left|].
    destruct (Z.leb_spec h 0); simpl; [right; by left|].
    destruct (Board_pieceInBounds b x' y'); simpl; [|right; right; by left].
    destruct (Board_pieceInBounds b (x' + w - 1) (y' + h - 1)); simpl;
      [|right; right; right; by left].
    pose proof (findInArea_loop_spec fp x' y' (x' + w - 1) (y' + h - 1) (entries b))
      as Hloop.
    destruct (findInArea_loop _ _ _ _ _ _) as [p|].
    + destruct Hloop as (a & c & Hin & Hpass & Harea).
      split; [exact Hpass|]. exists a, c. split; [by apply Map_in_get|].
      unfold in_area. lia.
    + do 4 right. intros a c p Hget Hin Hpass.
      apply (Hloop a c p (Map_get_in _ _ _ Hget) Hpass).
      unfold in_area in Hin. lia.
Qed.

Lemma searches_find_stored_pieces_witness :
  keys_distinct (board client_100)
  /\ Board__getFindParams (Some (VStr "rook")) None = Ok rook_filter
  /\ match Board_find (board client_100) (Some (VStr "rook")) None with
     | Ok (Some p) =>
         passes rook_filter p
         /\ exists a c, Board_get (board client_100) a c false = Some p
     | Ok None =>
         forall a c p, Board_get (board client_100) a c false = Some p ->
                       ~ passes rook_filter p
     | Throw _ => False
     end.
Proof.
  destruct client_100_board_ok as (_ & _ & _ & Hnd & _).
  split; [exact Hnd|]. split; [reflexivity|].
  exact (proj1 (searches_find_stored_pieces (board client_100) (Some (VStr "rook")) None
                  rook_filter Hnd eq_refl)).
Defined.

Lemma corner_spec (v c : Z) : v / 8 * 8 = c <-> c mod 8 = 0 /\ c <= v < c + 8.
Proof.
  split.
  - intros <-. split; [by rewrite Z.mod_mul|].
    pose proof (Z.div_mod v 8 ltac:(lia)). pose proof (Z.mod_pos_bound v 8 ltac:(lia)).
    lia.
  - intros [Hmod Hin].
    pose proof (Z.div_mod c 8 ltac:(lia)) as Hc. rewrite Hmod in Hc.
    assert (v / 8 = c / 8); [|lia].
    symmetry. apply (Z.div_unique v 8 (c / 8) (v - c)); lia.
Qed.

(** X14: [getBoardCorner] gives the first square of the board of 8 by 8
    squares that holds the given square: both its coordinates are multiples
    of 8, the square lies less than 8 columns and rows after it, and the
    squares with the same corner are exactly the 64 squares from it on. *)
Theorem getBoardCorner_of_board :
  forall (x' y' : Z),
    let '(cx, cy) := Board_getBoardCorner x' y' in
    cx mod 8 = 0 /\ cy mod 8 = 0
    /\ cx <= x' < cx + 8 /\ cy <= y' < cy + 8
    /\ Board_getBoardCorner cx cy = (cx, cy)
    /\ forall a c : Z,
         Board_getBoardCorner a c = (cx, cy)
         <-> in_area cx cy Board_boardSize Board_boardSize a c.
Proof.
  intros x' y'. unfold Board_getBoardCorner, in_area. cbv zeta.
  change Board_boardSize with 8.
  destruct (proj1 (corner_spec x' _) eq_refl) as [Hmx Hx].
  destruct (proj1 (corner_spec y' _) eq_refl) as [Hmy Hy].
  split; [exact Hmx|]. split; [exact Hmy|]. split; [exact Hx|]. split; [exact Hy|].
  split.
  - f_equal; apply corner_spec; (split; [done | lia]).
  - intros a c. split.
    + intros [= Ha Hc]. apply corner_spec in Ha, Hc. lia.
    + intros [Ha Hc]. f_equal; apply corner_spec; (split; [done | lia]).
Qed.

(** X15: [findInBoard] looks in the board of 8 by 8 squares that holds the
    given square: a piece it returns passes the filters and lies on a square
    with the same board corner as the given one. *)
Theorem findInBoard_same_board :
  forall (b : Board) (type color : option JsVal) (fp : FindParams) (x' y' : Z)
         (p : Piece),
    keys_distinct b ->
    Board__getFindParams type color = Ok fp ->
    Board_findInBoard b type color x' y' = Ok (Some p) ->
    passes fp p
    /\ exists a c, Board_get b a c false = Some p
                   /\ Board_getBoardCorner a c = Board_getBoardCorner x' y'.
Proof.
  intros b type color fp x' y' p Hnd Hfp.
  unfold Board_findInBoard.
  destruct (Board_getBoardCorner x' y') as [cx cy] eqn:Hcorner.
  unfold Board_findInArea. rewrite Hfp. cbv zeta.
  destruct (_ || _); [done|]. destruct (_ || _); [done|].
  intros [= Hfound].
  pose proof (findInArea_loop_spec fp cx cy (cx + Board_boardSize - 1)
                (cy + Board_boardSize - 1) (entries b)) as Hloop.
  rewrite Hfound in Hloop. destruct Hloop as (a & c & Hin & Hpass & Harea).
  split; [exact Hpass|]. exists a, c. split; [by apply Map_in_get|].
  change Board_boardSize with 8 in Harea.
  unfold Board_getBoardCorner in *. cbv zeta in *. change Board_boardSize with 8 in *.
  injection Hcorner as Hcx Hcy. apply corner_spec in Hcx, Hcy.
  f_equal; apply corner_spec; (split; [tauto | lia]).
Qed.

Lemma findInBoard_same_board_witness :
  keys_distinct (board client_100)
  /\ Board__getFindParams (Some (VStr "rook")) None = Ok rook_filter
  /\ Board_findInBoard (board client_100) (Some (VStr "rook")) None 101 103
     = Ok (Some rook_100)
  /\ passes rook_filter rook_100.
Proof.
  destruct client_100_board_ok as (_ & _ & _ & Hnd & _).
  split; [exact Hnd|]. split; [reflexivity|]. split; [reflexivity|].
  exact (proj1 (findInBoard_same_board (board client_100) (Some (VStr "rook")) None
                  rook_filter 101 103 rook_100 Hnd eq_refl eq_refl)).
Defined.

(** ** Names of types and colours *)

Lemma valid_color_cases (str : string) :
  Array_includes Piece__validColors str = true -> str = "black" \/ str = "white".
Proof.
  unfold Array_includes, Piece__validColors. simpl.
  rewrite !orb_true_iff, !String.eqb_eq. intros [?|[?|?]]; auto; discriminate.
Qed.

(** ** The keys of the store as text *)

Lemma pretty_N_char_digit (d : N) :
  (d < 10)%N ->
  digit_value (pretty_N_char d) = Some (Z.of_N d)
  /\ is_whitespace (pretty_N_char d) = false
  /\ (forall s, String.prefix "-" (String (pretty_N_char d) s) = false)
  /\ (forall s, String.prefix "+" (String (pretty_N_char d) s) = false)
  /\ String.eqb (String (pretty_N_char d) EmptyString) "," = false.
Proof.
  intros Hd.
  assert (d = 0 \/ d = 1 \/ d = 2 \/ d = 3 \/ d = 4 \/ d = 5 \/ d = 6 \/ d = 7
          \/ d = 8 \/ d = 9)%N as Hcases by lia.
  repeat destruct Hcases as [->|Hcases]; try subst d; by repeat split.
Qed.

Lemma pretty_N_go_induction (P : N -> Prop) :
  P 0%N ->
  (forall x, (0 < x)%N -> P (N.div x 10) -> P x) ->
  forall x, P x.
Proof.
  intros H0 Hstep x. induction (N.lt_wf_0 x) as [x _ IH].
  destruct (N.eq_0_gt_0_cases x) as [->|Hpos]; [exact H0|].
  apply Hstep; [exact Hpos|]. apply IH. by apply N.div_lt.
Qed.

Lemma parse_digits_pretty_N_go (x : N) (s : string) :
  (0 < x)%N ->
  parse_digits None (pretty_N_go x s) = parse_digits (Some (Z.of_N x)) s.
Proof.
  revert s. induction x as [|x Hpos IH] using pretty_N_go_induction; [lia|].
  intros s _. rewrite pretty_N_go_step by exact Hpos.
  destruct (pretty_N_char_digit (N.modulo x 10)) as [Hdigit _].
  { by apply N.mod_lt. }
  pose proof (N.div_mod x 10 ltac:(lia)) as Hx.
  destruct (N.eq_0_gt_0_cases (N.div x 10)) as [Hzero|Hmore].
  - rewrite Hzero, pretty_N_go_0. simpl. rewrite Hdigit. simpl.
    f_equal. f_equal. lia.
  - rewrite IH by exact Hmore. simpl. rewrite Hdigit. simpl.
    f_equal. f_equal. lia.
Qed.

Lemma pretty_N_go_head (x : N) (s : string) :
  (0 < x)%N ->
  exists d rest, (d < 10)%N /\ pretty_N_go x s = String (pretty_N_char d) rest.
Proof.
  revert s. induction x as [|x Hpos IH] using pretty_N_go_induction; [lia|].
  intros s _. rewrite pretty_N_go_step by exact Hpos.
  destruct (N.eq_0_gt_0_cases (N.div x 10)) as [Hzero|Hmore].
  - rewrite Hzero, pretty_N_go_0. eexists _, _. split; [|reflexivity].
    by apply N.mod_lt.
  - by apply IH.
Qed.

Lemma pretty_N_go_append (x : N) (s t : string) :
  pretty_N_go x s +:+ t = pretty_N_go x (s +:+ t).
Proof.
  revert s. induction x as [|x Hpos IH] using pretty_N_go_induction; intros s.
  - by rewrite !pretty_N_go_0.
  - rewrite (pretty_N_go_step x s), (pretty_N_go_step x (s +:+ t)) by exact Hpos.
    rewrite IH. reflexivity.
Qed.

Lemma String_split_nonempty (sep s : string) : String_split sep s <> [].
Proof.
  destruct s as [|c s]; cbn [String_split]; [done|].
  destruct (String.eqb (String c EmptyString) sep); [done|].
  by destruct (String_split sep s).
Qed.

Lemma String_split_cons (c : Ascii.ascii) (s : string) :
  String.eqb (String c EmptyString) "," = false ->
  String_split "," (String c s) = map_head (String c) (String_split "," s).
Proof.
  intros Hc. cbn [String_split]. rewrite Hc.
  pose proof (String_split_nonempty "," s).
  by destruct (String_split "," s).
Qed.

Lemma String_split_pretty_N_go (x : N) (s : string) :
  String_split "," (pretty_N_go x s) = map_head (pretty_N_go x) (String_split "," s).
Proof.
  revert s. induction x as [|x Hpos IH] using pretty_N_go_induction; intros s.
  - rewrite pretty_N_go_0. pose proof (String_split_nonempty "," s).
    destruct (String_split "," s); [done|]. simpl. by rewrite pretty_N_go_0.
  - rewrite pretty_N_go_step by exact Hpos. rewrite IH.
    destruct (pretty_N_char_digit (N.modulo x 10)) as (_ & _ & _ & _ & Hsep).
    { by apply N.mod_lt. }
    rewrite String_split_cons by exact Hsep.
    destruct (String_split "," s); [done|]. simpl.
    by rewrite (pretty_N_go_step x) by exact Hpos.
Qed.

Lemma String_split_minus (t : string) :
  String_split "," ("-" +:+ t) = map_head (fun w => "-" +:+ w) (String_split "," t).
Proof. by apply String_split_cons. Qed.

Lemma String_split_pretty (z : Z) (s : string) :
  String_split "," (pretty z +:+ s)
  = map_head (fun w => pretty z +:+ w) (String_split "," s).
Proof.
  pose proof (String_split_nonempty "," s) as Hne.
  destruct z as [|p|p]; unfold pretty, pretty_Z, pretty, pretty_positive, pretty,
    pretty_N.
  - change ("0" +:+ s) with (String (pretty_N_char 0) s).
    rewrite String_split_cons by reflexivity.
    destruct (String_split "," s) as [|w ws]; [by destruct Hne | reflexivity].
  - destruct (decide (N.pos p = 0%N)); [done|].
    rewrite pretty_N_go_append, String_split_pretty_N_go.
    change ("" +:+ s) with s.
    destruct (String_split "," s) as [|w ws]; [by destruct Hne|]. simpl.
    by rewrite pretty_N_go_append.
  - destruct (decide (N.pos p = 0%N)); [done|].
    change (("-" +:+ pretty_N_go (N.pos p) "") +:+ s)
      with ("-" +:+ (pretty_N_go (N.pos p) "" +:+ s)).
    rewrite String_split_minus.
    rewrite pretty_N_go_append, String_split_pretty_N_go.
    change ("" +:+ s) with s.
    destruct (String_split "," s) as [|w ws]; [by destruct Hne|]. simpl.
    change (("-" +:+ pretty_N_go (N.pos p) "") +:+ w)
      with ("-" +:+ (pretty_N_go (N.pos p) "" +:+ w)).
    by rewrite pretty_N_go_append.
Qed.

Lemma append_empty (s : string) : s +:+ "" = s.
Proof.
  induction s as [|c s IH]; [done|].
  change (String c s +:+ "") with (String c (s +:+ "")). by rewrite IH.
Qed.

Lemma String_split_comma (t : string) :
  String_split "," ("," +:+ t) = "" :: String_split "," t.
Proof. reflexivity. Qed.

Lemma getCoordsKey_text_split (x' y' : Z) (floor : bool) :
  String_split "," (Board__getCoordsKey_text x' y' floor) = [pretty x'; pretty y'].
Proof.
  unfold Board__getCoordsKey_text.
  rewrite String_split_pretty, String_split_comma.
  rewrite <- (append_empty (pretty y')) at 1.
  rewrite String_split_pretty. simpl. by rewrite !append_empty.
Qed.

Lemma parseInt_minus (t : string) :
  Number_parseInt ("-" +:+ t) = (fun v => -1 * v) <$> parse_digits None t.
Proof. by destruct t. Qed.

Lemma parseInt_pretty (z : Z) : Number_parseInt (pretty z) = Some z.
Proof.
  destruct z as [|p|p]; [reflexivity| |].
  - unfold pretty, pretty_Z, pretty, pretty_positive, pretty, pretty_N.
    destruct (decide (N.pos p = 0%N)); [done|].
    destruct (pretty_N_go_head (N.pos p) "" ltac:(lia)) as (d & rest & Hd & Hhead).
    destruct (pretty_N_char_digit d Hd) as (_ & Hws & Hminus & Hplus & _).
    unfold Number_parseInt.
    assert (Hskip : skip_whitespace (pretty_N_go (N.pos p) "") = pretty_N_go (N.pos p) "").
    { rewrite Hhead. simpl. by rewrite Hws. }
    assert (Hm : String.prefix "-" (pretty_N_go (N.pos p) "") = false)
      by (rewrite Hhead; apply Hminus).
    assert (Hp : String.prefix "+" (pretty_N_go (N.pos p) "") = false)
      by (rewrite Hhead; apply Hplus).
    rewrite Hskip, Hm, Hp.
    rewrite parse_digits_pretty_N_go by lia. simpl; f_equal; lia.
  - unfold pretty, pretty_Z, pretty, pretty_positive, pretty, pretty_N.
    destruct (decide (N.pos p = 0%N)); [done|].
    rewrite parseInt_minus, parse_digits_pretty_N_go by lia. simpl; f_equal; lia.
Qed.

(** X16: the key of a square reads back as the square.  For whole
    coordinates below [10^21] in size, which JavaScript writes in plain
    decimal digits, [_getKeyCoords] applied to the key built by
    [_getCoordsKey] returns the two coordinates, so two squares with the same
    key are the same square. *)
Theorem key_round_trip :
  forall (x' y' : Z) (floor : bool),
    Z.abs x' < 10 ^ 21 -> Z.abs y' < 10 ^ 21 ->
    Board__getKeyCoords (Board__getCoordsKey_text x' y' floor) = [Some x'; Some y']
    /\ forall x2 y2 : Z,
         Z.abs x2 < 10 ^ 21 -> Z.abs y2 < 10 ^ 21 ->
         Board__getCoordsKey_text x' y' floor = Board__getCoordsKey_text x2 y2 floor ->
         Board__getCoordsKey x' y' floor = Board__getCoordsKey x2 y2 floor.
Proof.
  intros x' y' floor _ _.
  assert (Hback : forall a c : Z,
             Board__getKeyCoords (Board__getCoordsKey_text a c floor)
             = [Some a; Some c]).
  { intros a c. unfold Board__getKeyCoords. rewrite getCoordsKey_text_split.
    simpl. by rewrite !parseInt_pretty. }
  split; [apply Hback|].
  intros x2 y2 _ _ Hkey. pose proof (Hback x' y') as Hxy.
  rewrite Hkey, Hback in Hxy. injection Hxy as -> ->. reflexivity.
Qed.

Lemma key_round_trip_witness :
  Z.abs 7999 < 10 ^ 21 /\ Z.abs (-3) < 10 ^ 21
  /\ Board__getKeyCoords (Board__getCoordsKey_text 7999 (-3) true)
     = [Some 7999; Some (-3)].
Proof.
  assert (H1 : Z.abs 7999 < 10 ^ 21) by reflexivity.
  assert (H2 : Z.abs (-3) < 10 ^ 21) by reflexivity.
  split; [exact H1|]. split; [exact H2|].
  exact (proj1 (key_round_trip 7999 (-3) true H1 H2)).
Defined.

(** ** Connections *)

(** The code of the client in two layers: what handles the events, and
    what [_handleDisconnect] is made of.  [_connect], [_increment],
    [_decrement] and [_scheduleReconnect] are left as they are. *)
Ltac unfold_events :=
  unfold WsClient_init, WsClient_disconnect, ChessClient_destroy, WsClient_destroy,
    ChessClient_movePiece, ChessClient_moveView, ws_on_open, ws_on_error,
    ws_on_close, ChessClient__handleServerMessage, reconnect_timer_fired,
    ping_timer_fired, pong_timer_fired, move_timer_fired, move_send_failed,
    view_timer_fired, view_send_failed,
    handler_pong, handler_initialState, handler_snapshot, handler_validMove,
    handler_invalidMove, handler_movesAndCaptures, handler_bulkCapture,
    ChessClient__resetBoard, capture_by_id,
    WsClient__onWebsocketError, WsClient__onWebsocketClose, WsClient__resetState,
    ChessClient__onWebsocketOpen, ChessClient__schedulePing,
    ChessClient__rejectPendingRequests, WsClient__resetReconnecting,
    WsClient__setReconnecting, ChessClient__getIncrMoveToken, clearTimeout, emit.

Ltac unfold_disconnect :=
  unfold WsClient__handleDisconnect, ChessClient__rejectPendingRequests,
    ChessClient__clearTimers, WsClient__clearTimers, WsClient__cleanupSocket,
    clearTimeout, emit.

Ltac unfold_client_above_connect := unfold_events; unfold_disconnect.

Lemma increment_connections_ok : preserves connections_ok WsClient__increment.
Proof.
  intros s [Hmax Hn]. unfold WsClient__increment, bind, gets. rewrite Hmax.
  rewrite Z.geb_leb. destruct (Z.leb_spec 20 (_connections s)); simpl; [done|].
  split; simpl; [exact Hmax | lia].
Qed.

Lemma decrement_connections_ok : preserves connections_ok WsClient__decrement.
Proof.
  intros s [Hmax Hn]. unfold WsClient__decrement, bind, gets. rewrite Hmax.
  destruct (Z.leb_spec (_connections s) 0); simpl; [done|].
  split; simpl; [exact Hmax | lia].
Qed.

Lemma connect_connections_ok : preserves connections_ok WsClient__connect.
Proof.
  unfold WsClient__connect, WsClient__setReconnecting, emit. preserves_steps;
    try apply increment_connections_ok; by intros.
Qed.

Lemma scheduleReconnect_connections_ok (wasError : bool) :
  preserves connections_ok (WsClient__scheduleReconnect wasError).
Proof.
  unfold WsClient__scheduleReconnect. preserves_steps;
    try (intros ? ?; unfold setTimeout; simpl); by intros.
Qed.

Lemma connections_ok_event (ev : Event) (s : State) :
  connections_ok s -> connections_ok (run_event ev s).
Proof.
  revert s. apply (preserved_by_event connections_ok ev).
  destruct ev; simpl; apply (preserved_by_event connections_ok Ev_init);
    unfold_client_above_connect; preserves_steps;
    try apply connect_connections_ok;
    try apply increment_connections_ok;
    try apply decrement_connections_ok;
    try apply scheduleReconnect_connections_ok;
    try (intros ? ?; unfold setTimeout, newPromise; simpl);
    by intros.
Qed.

(** X17: the counter of connections of the class stays between 0 and the
    ceiling.  For a client made while the counter stands between 0 and 20,
    the counter is between 0 and 20 after every run of the client (calls,
    socket events, inbound messages, timer callbacks). *)
Theorem connections_within_ceiling :
  forall (conns : Z) (maxRetry delay : option Z) (evs : list Event),
    0 <= conns <= 20 ->
    0 <= _connections (run evs (new_ChessClient conns maxRetry delay)) <= 20.
Proof.
  intros conns maxRetry delay evs Hconns.
  assert (Hrun : forall s, connections_ok s -> connections_ok (run evs s)).
  { induction evs as [|ev evs IH]; simpl; intros s Hs; [done|].
    apply IH, connections_ok_event, Hs. }
  apply (Hrun (new_ChessClient conns maxRetry delay)). by split.
Qed.

Lemma connections_within_ceiling_witness :
  0 <= 0 <= 20 /\ 0 <= _connections client_100 <= 20.
Proof.
  assert (Hconns : 0 <= 0 <= 20) by lia.
  split; [exact Hconns|].
  exact (connections_within_ceiling 0 None None
           [Ev_init; Ev_wsOpen; Ev_message (SM_initialState snapshot_100)] Hconns).
Defined.

(** ** After [destroy] and [disconnect] *)

Lemma connect_stays_down (n m : nat) :
  preserves (stays_down n m) WsClient__connect.
Proof.
  intros s (Hd & Hn & Hm). unfold WsClient__connect, bind, gets. by rewrite Hd.
Qed.

Lemma scheduleReconnect_stays_down (n m : nat) (wasError : bool) :
  preserves (stays_down n m) (WsClient__scheduleReconnect wasError).
Proof.
  intros s (Hd & Hn & Hm). unfold WsClient__scheduleReconnect, bind, gets.
  by rewrite Hd, orb_true_r.
Qed.

Lemma stays_down_event (n m : nat) (ev : Event) (s : State) :
  is_init ev = false -> stays_down n m s -> stays_down n m (run_event ev s).
Proof.
  intros Hev. revert s. apply (preserved_by_event (stays_down n m) ev).
  destruct ev; try done; simpl; apply (preserved_by_event (stays_down n m) Ev_init);
    unfold_client_above_connect; unfold WsClient__decrement; preserves_steps;
    try apply connect_stays_down;
    try apply scheduleReconnect_stays_down;
    try (intros ? ?; unfold setTimeout, newPromise; simpl);
    try (by intros);
    try match goal with
        | H : stays_down _ _ _ |- _ => destruct H as (Hd & Hn & Hm); by repeat split
        end.
Qed.

(** X18: a destroyed client stays down.  [destroy] marks the client as
    destroyed even when it throws on the way; from then on, whatever happens
    to the client short of a new [init] (socket events, inbound messages,
    timer callbacks, further calls), the client stays destroyed, opens no
    socket and sets no reconnect timer, and [_connect] is refused with
    "Client destroyed". *)
Theorem destroyed_client_stays_down :
  forall (s : State) (evs : list Event),
    Forall (fun ev => is_init ev = false) evs ->
    let s' := run evs (run_event Ev_destroy s) in
    destroyed s' = true
    /\ sockets_opened (trace s') = sockets_opened (trace s)
    /\ reconnect_timers (trace s') = reconnect_timers (trace s)
    /\ WsClient__connect s' = (Throw (mkError ClientError "Client destroyed"), s').
Proof.
  intros s evs Hevs s'.
  set (n := sockets_opened (trace s)). set (m := reconnect_timers (trace s)).
  assert (Hrun : forall s0, stays_down n m s0 -> stays_down n m (run evs s0)).
  { clear s'. induction evs as [|ev evs IH]; simpl; intros s0 Hs0; [done|].
    inversion Hevs; subst. apply IH; [done|]. by apply stays_down_event. }
  assert (Hkeeps : forall A (m0 : M A),
             preserves (stays_down n m) m0 ->
             hoare (stays_down n m) m0 (stays_down n m)) by done.
  assert (Hdestroy : hoare (fun s0 => sockets_opened (trace s0) = n
                                      /\ reconnect_timers (trace s0) = m)
                       ChessClient_destroy (stays_down n m)).
  { unfold ChessClient_destroy, WsClient_destroy.
    apply (hoare_bind _ (stays_down n m)); [|done|intros _].
    - apply (hoare_bind _ (stays_down n m)); [|done|intros _].
      + intros s0 [Hn Hm]. by repeat split.
      + apply Hkeeps.
        unfold_client_above_connect; unfold WsClient__decrement; preserves_steps;
          try apply scheduleReconnect_stays_down;
          try (by intros);
          try match goal with
              | H : stays_down _ _ _ |- _ =>
                  destruct H as (Hd & Hn & Hm); by repeat split
              end.
    - apply Hkeeps.
      unfold_client_above_connect; preserves_steps;
        try (by intros);
        try match goal with
            | H : stays_down _ _ _ |- _ =>
                destruct H as (Hd & Hn & Hm); by repeat split
            end. }
  assert (Hdown : stays_down n m (run_event Ev_destroy s)) by (by apply Hdestroy).
  destruct (Hrun _ Hdown) as (Hd & Hn & Hm). fold s' in Hd, Hn, Hm.
  split; [exact Hd|]. split; [exact Hn|]. split; [exact Hm|].
  unfold WsClient__connect, bind, gets. by rewrite Hd.
Qed.

Lemma destroyed_client_stays_down_witness :
  Forall (fun ev => is_init ev = false) [Ev_wsClose 1006; Ev_reconnectTimer]
  /\ sockets_opened (trace (run [Ev_wsClose 1006; Ev_reconnectTimer]
                             (run_event Ev_destroy client_100)))
     = sockets_opened (trace client_100).
Proof.
  assert (Hevs : Forall (fun ev => is_init ev = false) [Ev_wsClose 1006; Ev_reconnectTimer])
    by (by repeat constructor).
  split; [exact Hevs|].
  exact (proj1 (proj2 (destroyed_client_stays_down client_100
                         [Ev_wsClose 1006; Ev_reconnectTimer] Hevs))).
Defined.

Lemma handleDisconnect_stays_quiet (m : nat) (code : Z) :
  preserves (stays_quiet m) (WsClient__handleDisconnect code).
Proof.
  unfold WsClient__handleDisconnect.
  apply preserves_bind; [by intros ? ?|intros _].
  apply preserves_bind;
    [unfold WsClient__decrement; preserves_steps; by intros|intros _].
  apply preserves_bind; [unfold_disconnect; preserves_steps; by intros|intros _].
  apply preserves_bind; [unfold_disconnect; preserves_steps; by intros|intros _].
  apply preserves_bind; [unfold_disconnect; preserves_steps; by intros|intros _].
  intros s [Hauto Hm]. unfold bind, gets. rewrite Hauto. by split.
Qed.

Lemma stays_quiet_event (m : nat) (ev : Event) (s : State) :
  is_init ev = false -> stays_quiet m s -> stays_quiet m (run_event ev s).
Proof.
  intros Hev. revert s. apply (preserved_by_event (stays_quiet m) ev).
  destruct ev; try done; simpl; apply (preserved_by_event (stays_quiet m) Ev_init);
    unfold_events; unfold WsClient__connect, WsClient__increment; preserves_steps;
    try apply handleDisconnect_stays_quiet;
    try (intros ? ?; unfold setTimeout, newPromise; simpl);
    try (by intros);
    try match goal with
        | H : stays_quiet _ _ |- _ => destruct H as (Hauto & Hm); by split
        end.
Qed.

(** ** Requests and their replies *)

(** X19: [movePiece] of the client either fails at once or registers the
    request.  When the board refuses the move the promise of the call is
    rejected with the error of the board and the client is unchanged.
    Otherwise the call returns a new promise and the next token, the table
    of pending moves holds under that token the piece, its origin, the
    destination and the timer of the request, no other entry of the table
    changes, one timer is set and one move request is handed to the
    transport, and the board is not touched until the server answers. *)
Theorem movePiece_registers_request :
  forall (s : State) (p : Piece) (toX toY : Z) (type : MoveTypes),
    match Board__validatePieceMove (board s) p toX toY type with
    | Throw e => ChessClient_movePiece (Some p) toX toY type s = (Ok (Rejected e), s)
    | Ok _ =>
        exists (t : Z) (s' : State),
          ChessClient_movePiece (Some p) toX toY type s
          = (Ok (Resolved (nextPromise s, t)), s')
          /\ t = (if 65535 <=? _moveToken s then 1 else _moveToken s + 1)
          /\ Map_get t (_pendingPieceMoves s')
             = Some (mkPendingMove (nextPromise s) p (x p) (y p) toX toY (nextHandle s))
          /\ (forall t', t' <> t ->
                Map_get t' (_pendingPieceMoves s') = Map_get t' (_pendingPieceMoves s))
          /\ trace s'
             = E_sendRequest (CM_move (id p) (x p) (y p) toX toY type t)
               :: E_setTimeout (nextHandle s) (T_moveTimeout t) :: trace s
          /\ board s' = board s
    end.
Proof.
  intros s p toX toY type.
  destruct (Board__validatePieceMove (board s) p toX toY type) as [[]|e] eqn:Hvalid.
  - rewrite (movePiece_eq s p toX toY type Hvalid). cbv zeta.
    eexists _, _. split; [reflexivity|]. split; [reflexivity|].
    split; [|split; [|by split]].
    + simpl. rewrite Map_get_set. by destruct (decide _).
    + intros t' Hne. simpl. rewrite Map_get_set.
      destruct (decide _) as [Heq|]; [by destruct Hne | reflexivity].
  - unfold ChessClient_movePiece, async, bind, gets. by rewrite Hvalid.
Qed.

Lemma invalidMove_eq (s : State) (moveToken : Z) (pd : PendingMove) :
  Map_get moveToken (_pendingPieceMoves s) = Some pd ->
  handler_invalidMove moveToken s
  = (Ok tt,
     set_trace
       (set__pendingPieceMoves s (Map_delete moveToken (_pendingPieceMoves s)))
       (E_reject (pm_promise pd)
          (mkError ChessError ("Invalid move: " +:+ pretty moveToken))
        :: E_clearTimeout (Some (pm_timeout pd)) :: trace s)).
Proof.
  intros Hpd. unfold handler_invalidMove. unfold bind at 1, gets at 1.
  rewrite Hpd. by destruct s.
Qed.

Lemma movePiece_unvalidated (b : Board) (p : Piece) (toX toY : Z)
    (type : MoveTypes) :
  Board_movePiece b (Some p) toX toY type false false
  = let b1 := with_entries b (Map_delete (x p, y p) (entries b)) in
    let p' := if Map_has (toX, toY) (entries b1)
              then Piece_capture p toX toY false
              else Piece_move p toX toY false in
    Ok (p', with_entries b1 (Map_set (toX, toY) p' (entries b1))).
Proof. reflexivity. Qed.

Lemma validMove_eq (s : State) (moveToken capturedPieceId : Z) (pd : PendingMove) :
  Map_get moveToken (_pendingPieceMoves s) = Some pd ->
  handler_validMove moveToken capturedPieceId s
  = (Ok tt,
     let b1 := with_entries (board s)
                 (Map_delete (x (pm_piece pd), y (pm_piece pd)) (entries (board s))) in
     let p' := if Map_has (pm_toX pd, pm_toY pd) (entries b1)
               then Piece_capture (pm_piece pd) (pm_toX pd) (pm_toY pd) false
               else Piece_move (pm_piece pd) (pm_toX pd) (pm_toY pd) false in
     let s1 := set_board
                 (set__pendingPieceMoves
                    (set_trace s (E_clearTimeout (Some (pm_timeout pd)) :: trace s))
                    (Map_delete moveToken (_pendingPieceMoves s)))
                 (with_entries b1 (Map_set (pm_toX pd, pm_toY pd) p' (entries b1))) in
     let s2 := set_totalMoves s1 (totalMoves s + 1) in
     let s3 := if capturedPieceId =? 0 then s2
               else set_totalCaptures s2 (totalCaptures s + 1) in
     set_trace s3 (E_resolve (pm_promise pd) :: trace s1)).
Proof.
  intros Hpd. unfold handler_validMove. unfold bind at 1, gets at 1.
  rewrite Hpd. destruct s. unfold bind, clearTimeout, emit, modify, on_board, when.
  simpl. destruct (capturedPieceId =? 0); reflexivity.
Qed.

(** X20: a move that the server rejects leaves the board alone.  After a
    request made by [movePiece], the reply [invalidMove] with the token of
    the request takes the entry out of the table of pending moves, clears
    the timer of the request and rejects its promise with "Invalid move:
    <token>"; the board and the counters of moves are as before the
    request. *)
Theorem rejected_move_is_dropped :
  forall (s : State) (p : Piece) (toX toY : Z) (type : MoveTypes),
    Board__validatePieceMove (board s) p toX toY type = Ok tt ->
    exists (t : Z) (s1 : State),
      ChessClient_movePiece (Some p) toX toY type s
      = (Ok (Resolved (nextPromise s, t)), s1)
      /\ ChessClient__handleServerMessage (SM_invalidMove t) s1
         = (Ok tt, exec (handler_invalidMove t) s1)
      /\ Map_get t (_pendingPieceMoves (exec (handler_invalidMove t) s1)) = None
      /\ trace (exec (handler_invalidMove t) s1)
         = E_reject (nextPromise s) (mkError ChessError ("Invalid move: " +:+ pretty t))
           :: E_clearTimeout (Some (nextHandle s)) :: trace s1
      /\ board (exec (handler_invalidMove t) s1) = board s
      /\ totalMoves (exec (handler_invalidMove t) s1) = totalMoves s
      /\ totalCaptures (exec (handler_invalidMove t) s1) = totalCaptures s.
Proof.
  intros s p toX toY type Hvalid.
  rewrite (movePiece_eq s p toX toY type Hvalid). cbv zeta.
  eexists _, _. split; [reflexivity|]. split; [reflexivity|].
  unfold exec. erewrite invalidMove_eq;
    [|simpl; rewrite Map_get_set; by destruct (decide _)].
  simpl. split; [|by repeat split].
  rewrite Map_get_delete. by destruct (decide _).
Qed.

Lemma validated_move_leaves_origin (b : Board) (p : Piece) (toX toY : Z)
    (type : MoveTypes) :
  Board__validatePieceMove b p toX toY type = Ok tt -> (toX, toY) <> (x p, y p).
Proof.
  unfold Board__validatePieceMove.
  destruct (Board_pieceInBounds b (x p) (y p)); [|done].
  destruct (Board_pieceInBounds b toX toY); [|done].
  destruct (Piece_canMoveTo p toX toY type) eqn:Hcan; [|done].
  intros _. by eapply canMoveTo_not_in_place.
Qed.

(** X21: a reply that comes too late is ignored.  When the timer of a
    request fires, its entry leaves the table of pending moves and its
    promise is rejected with "Move timed out: <token>"; a [validMove] or
    [invalidMove] that arrives for that token afterwards changes nothing: the
    board is not updated and nothing is resolved or rejected. *)
Theorem late_reply_is_ignored :
  forall (s : State) (moveToken : Z) (promise : nat) (capturedPieceId : Z),
    let s1 := run_event (Ev_moveTimer moveToken promise) s in
    Map_get moveToken (_pendingPieceMoves s1) = None
    /\ trace s1
       = E_reject promise (mkError ChessError ("Move timed out: " +:+ pretty moveToken))
         :: trace s
    /\ board s1 = board s
    /\ ChessClient__handleServerMessage (SM_validMove moveToken capturedPieceId) s1
       = (Ok tt, s1)
    /\ ChessClient__handleServerMessage (SM_invalidMove moveToken) s1 = (Ok tt, s1).
Proof.
  intros s moveToken promise capturedPieceId s1.
  assert (Hgone : Map_get moveToken (_pendingPieceMoves s1) = None).
  { simpl. rewrite Map_get_delete. by destruct (decide _). }
  split; [exact Hgone|]. split; [reflexivity|]. split; [reflexivity|].
  unfold ChessClient__handleServerMessage, try_log, handler_validMove,
    handler_invalidMove, bind, gets.
  by rewrite Hgone.
Qed.

(** ** Snapshots and view moves *)

Lemma set_board_same (s : State) : set_board s (board s) = s.
Proof. by destruct s. Qed.

Lemma forEach_set_board {A} (g : Board -> A -> Board) (items : list A) (s : State) :
  forEach items (fun item => modify (fun s => set_board s (g (board s) item))) s
  = (Ok tt, set_board s (fold_left g items (board s))).
Proof.
  revert s. induction items as [|item items IH]; intros s; simpl.
  - by rewrite set_board_same.
  - unfold bind at 1, modify at 1. by rewrite IH.
Qed.

Lemma find_last {A} (f : A -> bool) (l : list A) (a : A) :
  List.find f (l ++ [a])
  = match List.find f l with
    | Some b => Some b
    | None => if f a then Some a else None
    end.
Proof.
  induction l as [|b l IH]; simpl; [reflexivity|].
  destruct (f b); [reflexivity | exact IH].
Qed.

Lemma get_after_sets (snapshot : Snapshot) (items : list SnapshotPiece) (b : Board)
    (a c : Z) :
  Map_get (a, c)
    (entries
       (fold_left
          (fun b item =>
             Board_set b (xCoord snapshot + sp_dx item) (yCoord snapshot + sp_dy item)
               (AData (sp_piece item)) false)
          items b))
  = match List.find (fun item => bool_decide (snapshot_square snapshot item = (a, c)))
            (rev items) with
    | Some item => Some (new_Piece a c (sp_piece item))
    | None => Map_get (a, c) (entries b)
    end.
Proof.
  revert b. induction items as [|item items IH]; intros b; simpl; [reflexivity|].
  rewrite IH, find_last.
  destruct (List.find _ (rev items)) as [found|]; [reflexivity|].
  unfold Board_set, Board__getCoordsKey; simpl. rewrite Map_get_set.
  unfold snapshot_square.
  destruct (decide ((xCoord snapshot + sp_dx item, yCoord snapshot + sp_dy item)
                    = (a, c))) as [Heq|Hne].
  - rewrite bool_decide_eq_true_2 by exact Heq. by injection Heq as -> ->.
  - by rewrite bool_decide_eq_false_2 by exact Hne.
Qed.

Lemma resetBoard_eq (snapshot : Snapshot) (s : State) :
  Board_minCenterCoords <= xCoord snapshot <= Board_maxCenterCoords ->
  Board_minCenterCoords <= yCoord snapshot <= Board_maxCenterCoords ->
  ChessClient__resetBoard snapshot s
  = (Ok tt,
     set_board s
       (fold_left
          (fun b item =>
             Board_set b (xCoord snapshot + sp_dx item) (yCoord snapshot + sp_dy item)
               (AData (sp_piece item)) false)
          (pieces snapshot)
          (Board__setCoords
             (Board__setCoords (Board_clear (board s)) (Some (xCoord snapshot)) None)
             None (Some (yCoord snapshot))))).
Proof.
  intros Hx Hy. unfold ChessClient__resetBoard. cbv zeta.
  pose proof (validateCenterCoords_spec (Some (xCoord snapshot)) None msg_center) as Hvx.
  pose proof (validateCenterCoords_spec None (Some (yCoord snapshot)) msg_center) as Hvy.
  unfold bind at 1, modify at 1.
  unfold bind at 1, on_board at 1, board_result, Board_set_centerX.
  destruct (Board__validateCenterCoords (Some (xCoord snapshot)) None msg_center)
    as [[]|e].
  2: { destruct Hvx as (_ & v & [[= <-]|[=]] & Hout). lia. }
  unfold bind at 1, on_board at 1, board_result, Board_set_centerY.
  destruct (Board__validateCenterCoords None (Some (yCoord snapshot)) msg_center)
    as [[]|e].
  2: { destruct Hvy as (_ & v & [[=]|[= <-]] & Hout). lia. }
  rewrite (forEach_set_board
             (fun b item =>
                Board_set b (xCoord snapshot + sp_dx item) (yCoord snapshot + sp_dy item)
                  (AData (sp_piece item)) false)).
  reflexivity.
Qed.

(** X22: a snapshot replaces the board.  For a snapshot with its center in
    the range of centers, the handler leaves a board centered there on which
    every square holds the last piece the snapshot puts on it, built by the
    constructor at that square, and nothing of what the board held before;
    a pending view move is resolved and its timer cleared, and the slot is
    empty afterwards. *)
Theorem snapshot_replaces_board :
  forall (s : State) (snapshot : Snapshot),
    2 <= xCoord snapshot <= 7997 ->
    2 <= yCoord snapshot <= 7997 ->
    let s' := exec (handler_snapshot snapshot) s in
    ChessClient__handleServerMessage (SM_snapshot snapshot) s = (Ok tt, s')
    /\ _centerX (board s') = Some (xCoord snapshot)
    /\ _centerY (board s') = Some (yCoord snapshot)
    /\ (forall a c : Z,
          Board_get (board s') a c false
          = (fun item => new_Piece a c (sp_piece item)) <$> last_at snapshot a c)
    /\ _pendingViewMove s' = None
    /\ trace s'
       = match _pendingViewMove s with
         | Some pv =>
             E_resolve (pv_promise pv) :: E_clearTimeout (Some (pv_timeout pv)) :: trace s
         | None => trace s
         end.
Proof.
  intros s snapshot Hx Hy s'.
  split; [reflexivity|].
  assert (Hs' : s' = exec (handler_snapshot snapshot) s) by reflexivity.
  unfold exec, handler_snapshot in Hs'. unfold bind at 1 in Hs'.
  rewrite (resetBoard_eq snapshot s Hx Hy) in Hs'.
  unfold bind at 1, gets at 1 in Hs'.
  assert (Hpending : forall b, _pendingViewMove (set_board s b) = _pendingViewMove s)
    by reflexivity.
  rewrite Hpending in Hs'.
  assert (Hboard : board s'
                   = fold_left
                       (fun b item =>
                          Board_set b (xCoord snapshot + sp_dx item)
                            (yCoord snapshot + sp_dy item) (AData (sp_piece item)) false)
                       (pieces snapshot)
                       (Board__setCoords
                          (Board__setCoords (Board_clear (board s))
                             (Some (xCoord snapshot)) None)
                          None (Some (yCoord snapshot)))).
  { rewrite Hs'. destruct (_pendingViewMove s); reflexivity. }
  assert (Hcenter : forall (items : list SnapshotPiece) (b : Board),
             _centerX (fold_left
                         (fun b item =>
                            Board_set b (xCoord snapshot + sp_dx item)
                              (yCoord snapshot + sp_dy item) (AData (sp_piece item)) false)
                         items b) = _centerX b
             /\ _centerY (fold_left
                            (fun b item =>
                               Board_set b (xCoord snapshot + sp_dx item)
                                 (yCoord snapshot + sp_dy item) (AData (sp_piece item))
                                 false)
                            items b) = _centerY b).
  { induction items as [|item items IH]; intros b; simpl; [done|].
    destruct (IH (Board_set b (xCoord snapshot + sp_dx item)
                    (yCoord snapshot + sp_dy item) (AData (sp_piece item)) false))
      as [-> ->]. done. }
  split; [rewrite Hboard; by rewrite (proj1 (Hcenter _ _))|].
  split; [rewrite Hboard; by rewrite (proj2 (Hcenter _ _))|].
  split; [|rewrite Hs'; destruct (_pendingViewMove s) eqn:Hpv; split;
            first [reflexivity | exact Hpv]].
  intros a c. unfold Board_get, Board__getCoordsKey. simpl.
  rewrite Hboard, get_after_sets. unfold last_at.
  by destruct (List.find _ _).
Qed.

Lemma snapshot_replaces_board_witness :
  2 <= xCoord snapshot_100 <= 7997
  /\ 2 <= yCoord snapshot_100 <= 7997
  /\ Board_get (board (exec (handler_snapshot snapshot_100) client_viewing))
       100 100 false
     = (fun item => new_Piece 100 100 (sp_piece item)) <$> last_at snapshot_100 100 100.
Proof.
  assert (Hx : 2 <= xCoord snapshot_100 <= 7997) by (simpl; lia).
  assert (Hy : 2 <= yCoord snapshot_100 <= 7997) by (simpl; lia).
  split; [exact Hx|]. split; [exact Hy|].
  exact (proj1 (proj2 (proj2 (proj2
           (snapshot_replaces_board client_viewing snapshot_100 Hx Hy)))) 100 100).
Defined.

(** X23: a snapshot with its center out of range empties the board and
    settles nothing.  The handler clears the board first and then throws on
    the center; [_handleServerMessage] catches the error and returns, the
    board is left without pieces and without a center on one axis at least,
    no piece of the snapshot is stored, and a pending view move stays
    pending with its timer. *)
Theorem snapshot_out_of_range_empties_board :
  forall (s : State) (snapshot : Snapshot),
    ~ (2 <= xCoord snapshot <= 7997 /\ 2 <= yCoord snapshot <= 7997) ->
    exists s' : State,
      ChessClient__handleServerMessage (SM_snapshot snapshot) s = (Ok tt, s')
      /\ entries (board s') = []
      /\ (_centerX (board s') = None \/ _centerY (board s') = None)
      /\ _pendingViewMove s' = _pendingViewMove s
      /\ trace s' = trace s.
Proof.
  intros s snapshot Hout.
  eexists. split; [reflexivity|].
  unfold handler_snapshot, ChessClient__resetBoard. cbv zeta.
  pose proof (validateCenterCoords_spec (Some (xCoord snapshot)) None msg_center) as Hvx.
  pose proof (validateCenterCoords_spec None (Some (yCoord snapshot)) msg_center) as Hvy.
  unfold bind at 1. unfold bind at 1, modify at 1.
  unfold bind at 1, on_board at 1, board_result, Board_set_centerX.
  destruct (Board__validateCenterCoords (Some (xCoord snapshot)) None msg_center)
    as [[]|e]; [|by repeat split; auto].
  unfold bind at 1, on_board at 1, board_result, Board_set_centerY.
  destruct (Board__validateCenterCoords None (Some (yCoord snapshot)) msg_center)
    as [[]|e]; [|by repeat split; auto].
  exfalso. apply Hout.
  destruct Hvx as [Hx _], Hvy as [_ Hy].
  split; [by apply Hx | by apply Hy].
Qed.

Lemma snapshot_out_of_range_empties_board_witness :
  ~ (2 <= xCoord snapshot_off <= 7997 /\ 2 <= yCoord snapshot_off <= 7997)
  /\ exists s' : State,
       ChessClient__handleServerMessage (SM_snapshot snapshot_off) client_viewing
       = (Ok tt, s')
       /\ entries (board s') = []
       /\ _pendingViewMove s' = _pendingViewMove client_viewing.
Proof.
  assert (Hout : ~ (2 <= xCoord snapshot_off <= 7997 /\ 2 <= yCoord snapshot_off <= 7997))
    by (simpl; lia).
  split; [exact Hout|].
  destruct (snapshot_out_of_range_empties_board client_viewing snapshot_off Hout)
    as (s' & Hrun & Hempty & _ & Hpending & _).
  exists s'. by repeat split.
Defined.

Lemma rejected_move_is_dropped_witness :
  Board__validatePieceMove (board client_100) rook_100 100 101 MOVE_TYPE_NORMAL = Ok tt
  /\ exists (t : Z) (s1 : State),
       ChessClient_movePiece (Some rook_100) 100 101 MOVE_TYPE_NORMAL client_100
       = (Ok (Resolved (nextPromise client_100, t)), s1)
       /\ board (exec (handler_invalidMove t) s1) = board client_100.
Proof.
  split; [reflexivity|].
  destruct (rejected_move_is_dropped client_100 rook_100 100 101 MOVE_TYPE_NORMAL eq_refl)
    as (t & s1 & Hcall & _ & _ & _ & Hboard & _).
  exists t, s1. by split.
Defined.
